(** * Simple Profiler: a shallow embedding of [simpleprof.c] and [eprintf.c]

    The development follows the two C sources function by function.
    C integers are modelled as [Z] with the wrap-around of their type
    written out, bytes as [Z] in the range [0, 256), C strings as
    [string] (without the terminating NUL) and raw memory objects as
    [list Z].  System calls are modelled by a record of their results
    (what the kernel answers) and by a trace of the calls performed. *)

From Stdlib Require Import ZArith List String Ascii Bool Lia.
Import ListNotations.

Local Open Scope Z_scope.

(** ** eprintf.c *)

Module Eprintf.

(** One byte written through the destination pointer. *)
Record store : Type := mkStore { st_addr : Z; st_val : Z }.

(** What one call of [my_strvis] does: the value it returns and the
    stores it performs, in program order. *)
Record strvis_result : Type :=
  mkResult { sv_ret : Z; sv_stores : list store }.

(** [CTRL1] and [CTRL2] of the source, as byte lists. *)
Definition CTRL1 : list Z := [34; 92; 7; 8; 12; 10; 13; 9; 11].
Definition CTRL2 : list Z := [34; 92; 97; 98; 102; 110; 114; 116; 118].

(** [sizeof(CTRL1)]: nine characters and the terminating NUL. *)
Definition sizeof_CTRL1 : nat := 10.

(** The literal [CTRL1 "\0" CTRL2] (its own terminator included). *)
Definition ctrl_literal : list Z := CTRL1 ++ [0] ++ CTRL2 ++ [0].

(** [strchr(s, c)] for [c <> 0]: offset of the first [c] before the
    first NUL of [s]. *)
Fixpoint strchr (s : list Z) (c : Z) : option nat :=
  match s with
  | [] => None
  | x :: s' =>
      if x =? c then Some O
      else if x =? 0 then None
      else option_map S (strchr s' c)
  end.

(** [ISOCTAL(c)]: both operands are promoted to [int], so the
    subtraction is signed. *)
Definition ISOCTAL (c : Z) : bool := (c - 48) <? 8.

(** [if (dst) dst[n] = v;] *)
Definition guarded_store (dst n v : Z) : list store :=
  if dst =? 0 then [] else [mkStore (dst + n) v].

(** The body of the [for (;;)] loop for one source byte [c], up to the
    decrement of [maxlen]; [next] is [*src] after [src++]. *)
Definition escape_char (dst c next maxlen n : Z) : Z * list store :=
  match (if c =? 0 then None else strchr ctrl_literal c) with
  | Some p =>
      (n + 2,
       if dst =? 0 then []
       else [mkStore (dst + n) 92;
             mkStore (dst + n + 1) (nth (p + sizeof_CTRL1) ctrl_literal 0)])
  | None =>
      if (c <? 32) || (127 <=? c) then
        let s0 := guarded_store dst n 92 in
        let n := n + 1 in
        let '(n, s1) :=
          if (64 <=? c) || (negb (maxlen =? 1) && ISOCTAL next)
          then (n + 1, guarded_store dst n (48 + Z.shiftr c 6))
          else (n, []) in
        let '(n, s2) :=
          if (8 <=? c) || (negb (maxlen =? 1) && ISOCTAL next)
          then (n + 1, guarded_store dst n (48 + Z.land (Z.shiftr c 3) 7))
          else (n, []) in
        (n + 1, s0 ++ s1 ++ s2 ++ guarded_store dst n (48 + Z.land c 7))
      else
        (n + 1, guarded_store dst n c)
  end.

(** State of [my_strvis] when the loop is left. *)
Record loop_exit : Type :=
  mkExit { ex_src : list Z; ex_maxlen : Z; ex_n : Z; ex_stores : list store }.

(** The [for (;;)] loop, entered with [maxlen > 0].  [src] is the
    object [src] points into; reading past its end is a fault
    ([None]). *)
Fixpoint strvis_loop (dst : Z) (binary : bool) (src : list Z)
    (maxlen n : Z) (acc : list store) : option loop_exit :=
  match src with
  | [] => None
  | c :: src' =>
      if (c =? 0) && negb binary then Some (mkExit src maxlen n acc)
      else
        let '(n', st) := escape_char dst c (hd 0 src') maxlen n in
        let maxlen' := maxlen - 1 in
        if maxlen' =? 0 then Some (mkExit src' maxlen' n' (acc ++ st))
        else strvis_loop dst binary src' maxlen' n' (acc ++ st)
  end.

(** [my_strvis(dst, src, binary, maxlen)].  [dst = 0] is the null
    pointer; [src = None] is the null pointer, [Some bytes] the object
    the pointer designates (for a C string, its characters and the
    terminating NUL). *)
Definition my_strvis (dst : Z) (src : option (list Z)) (binary : bool)
    (maxlen : Z) : option strvis_result :=
  match src with
  | None =>
      (* strcpy(dst, "NULL") copies the terminator as well *)
      Some (mkResult 4
              (if dst =? 0 then []
               else [mkStore dst 78; mkStore (dst + 1) 85;
                     mkStore (dst + 2) 76; mkStore (dst + 3) 76;
                     mkStore (dst + 4) 0]))
  | Some bytes =>
      let s0 := guarded_store dst 0 34 in
      let n := 1 in
      match (if 0 <? maxlen
             then strvis_loop dst binary bytes maxlen n s0
             else Some (mkExit bytes maxlen n s0)) with
      | None => None
      | Some e =>
          let s1 := guarded_store dst (ex_n e) 34 in
          let n := ex_n e + 1 in
          if binary || negb (ex_maxlen e =? 0)
          then Some (mkResult n (ex_stores e ++ s1))
          else
            match ex_src e with
            | [] => None
            | c :: _ =>
                if c =? 0 then Some (mkResult n (ex_stores e ++ s1))
                else
                  (* the three dots are stored without testing dst *)
                  Some (mkResult (n + 3)
                          (ex_stores e ++ s1 ++
                           [mkStore (dst + n) 46; mkStore (dst + n + 1) 46;
                            mkStore (dst + n + 2) 46]))
            end
      end
  end.

(** A C string as the object [my_strvis] reads: its bytes, then NUL. *)
Definition c_string (s : string) : list Z :=
  map (fun a => Z.of_nat (nat_of_ascii a)) (list_ascii_of_string s) ++ [0].

(** The two calls of [veprintf] for the [%#s] conversion: the sizing
    call, [alloca] of the returned length at [buf], the writing call. *)
Definition veprintf_alt_s (buf : Z) (str : option (list Z)) (maxlen : Z)
  : option (strvis_result * strvis_result) :=
  match my_strvis 0 str false maxlen, my_strvis buf str false maxlen with
  | Some sizing, Some writing => Some (sizing, writing)
  | _, _ => None
  end.

(** The addresses [a], [a + 1], ..., [a + len - 1]. *)
Definition addr_range (a : Z) (len : nat) : list Z :=
  map (fun i => a + Z.of_nat i) (seq 0 len).

End Eprintf.

(** ** Integer types of the C sources *)

Module CTypes.

(** The properties of the target the sources depend on: the size of a
    pointer (also that of [size_t], [uintptr_t] and [uint_fast32_t])
    and the alignment of [unsigned short]. *)
Record platform : Type :=
  mkPlatform { ptr_bytes : Z; alignof_ushort : Z }.

(** x86-64 Linux. *)
Definition lp64 : platform := mkPlatform 8 2.

(** 32-bit Linux targets. *)
Definition ilp32 : platform := mkPlatform 4 2.

(** The targets glibc supports: 4 or 8 byte pointers; [unsigned short]
    aligned on 1 or 2 bytes. *)
Definition supported (P : platform) : bool :=
  ((ptr_bytes P =? 4) || (ptr_bytes P =? 8)) &&
  ((alignof_ushort P =? 1) || (alignof_ushort P =? 2)).

Definition sizeof_ushort : Z := 2.

Definition word_bits (P : platform) : Z := 8 * ptr_bytes P.

(** [SIZE_MAX + 1], also [UINTPTR_MAX + 1]. *)
Definition word_modulus (P : platform) : Z := 2 ^ word_bits P.
Definition SIZE_MAX (P : platform) : Z := word_modulus P - 1.

(** [UINT_MAX + 1] and [UINTMAX_MAX + 1]. *)
Definition uint_modulus : Z := 2 ^ 32.
Definition uintmax_modulus : Z := 2 ^ 64.

(** Conversion to an unsigned type of the given modulus. *)
Definition wrap (modulus v : Z) : Z := v mod modulus.

(** Conversion to [size_t] / [uintptr_t]. *)
Definition to_word (P : platform) (v : Z) : Z := wrap (word_modulus P) v.

(** Conversion to [uint32_t] / [unsigned int]. *)
Definition to_u32 (v : Z) : Z := wrap uint_modulus v.

(** [__builtin_mul_overflow(a, b, &r)] and [__builtin_add_overflow]
    for an unsigned result type of the given modulus: [None] when the
    exact result does not fit (the builtin returns true). *)
Definition builtin_mul_overflow (modulus a b : Z) : option Z :=
  if a * b <? modulus then Some (a * b) else None.

Definition builtin_add_overflow (modulus a b : Z) : option Z :=
  if a + b <? modulus then Some (a + b) else None.

(** Native byte order of the modelled targets: least significant byte
    first. *)
Fixpoint le_bytes (n : nat) (v : Z) : list Z :=
  match n with
  | O => []
  | S n' => v mod 256 :: le_bytes n' (v / 256)
  end.

Fixpoint le_value (bs : list Z) : Z :=
  match bs with
  | [] => 0
  | b :: bs' => b + 256 * le_value bs'
  end.

(** The bytes of a C string literal. *)
Definition bytes_of_string (s : string) : list Z :=
  map (fun a => Z.of_nat (nat_of_ascii a)) (list_ascii_of_string s).

(** [bytes[off .. off + len)]. *)
Definition slice (off len : Z) (bytes : list Z) : list Z :=
  firstn (Z.to_nat len) (skipn (Z.to_nat off) bytes).

End CTypes.

(** ** simpleprof.c: the gmon.out header *)

Module Gmon.
Import CTypes.

(** Constants of [<sys/gmon_out.h>] (glibc): the magic cookie, the
    format version and the tag of a histogram record. *)
Definition GMON_MAGIC : string := "gmon".
Definition GMON_VERSION : Z := 1.
Definition GMON_TAG_TIME_HIST : Z := 0.

(** [sizeof(struct gmon_hdr)] and [sizeof(struct gmon_hist_hdr)]; the
    source asserts that its own [my_gmon_hdr] and [my_hist_hdr] have
    these sizes. *)
Definition sizeof_gmon_hdr : Z := 4 + 4 + 3 * 4.
Definition sizeof_gmon_hist_hdr (P : platform) : Z :=
  ptr_bytes P + ptr_bytes P + 4 + 4 + 15 + 1.

Definition BASE_HEADER_SIZE (P : platform) : Z :=
  sizeof_gmon_hdr + 1 + sizeof_gmon_hist_hdr P.

Definition NEED_DUMMY_HIST_HDR (P : platform) : bool :=
  negb (BASE_HEADER_SIZE P mod alignof_ushort P =? 0).

Definition HEADER_SIZE (P : platform) : Z :=
  if NEED_DUMMY_HIST_HDR P
  then BASE_HEADER_SIZE P + sizeof_ushort + 1 + sizeof_gmon_hist_hdr P
  else BASE_HEADER_SIZE P.

(** The object representation of [ghdr]. *)
Definition ghdr_bytes : list Z :=
  bytes_of_string GMON_MAGIC ++ le_bytes 4 GMON_VERSION ++ repeat 0 (3 * 4).

(** [struct my_hist_hdr]. *)
Record my_hist_hdr : Type := mkHist {
  low_pc : Z;
  high_pc : Z;
  hist_size : Z;
  prof_rate : Z;
  dimen : list Z;
  dimen_abbrev : Z
}.

(** [strncpy(dst, src, n)]: the characters of [src], at most [n], and
    NUL padding up to [n]. *)
Definition strncpy (src : string) (n : nat) : list Z :=
  let b := firstn n (bytes_of_string src) in
  b ++ repeat 0 (n - List.length b).

(** The object representation of a [my_hist_hdr] (it has no padding). *)
Definition hist_hdr_bytes (P : platform) (h : my_hist_hdr) : list Z :=
  le_bytes (Z.to_nat (ptr_bytes P)) (low_pc h) ++
  le_bytes (Z.to_nat (ptr_bytes P)) (high_pc h) ++
  le_bytes 4 (hist_size h) ++
  le_bytes 4 (prof_rate h) ++
  dimen h ++ [dimen_abbrev h].

(** [65536 * 2 / scale], the width of a histogram bin.  [scale] is a
    [uint_fast32_t], never 0 when the function is called. *)
Definition bin_width (scale : Z) : Z := 65536 * 2 / scale.

(** The dummy histogram record written when [NEED_DUMMY_HIST_HDR]. *)
Definition dummy_hist_hdr (P : platform) (frequency scale : Z) : my_hist_hdr :=
  mkHist 0 (to_word P (0 + bin_width scale)) 1 (to_u32 frequency)
         (strncpy "seconds" 15) 115.

(** The main histogram record. *)
Definition main_hist_hdr (P : platform) (frequency lowpc nsamples scale : Z)
  : my_hist_hdr :=
  mkHist lowpc (to_word P (lowpc + nsamples * bin_width scale))
         (to_u32 nsamples) (to_u32 frequency) (strncpy "seconds" 15) 115.

(** The bytes the dummy record adds to the header: its tag, the record
    and [sizeof(unsigned short)] zero bytes. *)
Definition dummy_record_bytes (P : platform) (frequency scale : Z) : list Z :=
  [GMON_TAG_TIME_HIST] ++ hist_hdr_bytes P (dummy_hist_hdr P frequency scale) ++
  repeat 0 (Z.to_nat sizeof_ushort).

(** [make_gmon_header(header, lowpc, nsamples, scale)]: the bytes
    written to [header].  [frequency] is what [PROFILE_FREQUENCY()]
    returns. *)
Definition make_gmon_header (P : platform) (frequency lowpc nsamples scale : Z)
  : list Z :=
  ghdr_bytes ++
  (if NEED_DUMMY_HIST_HDR P then dummy_record_bytes P frequency scale else []) ++
  [GMON_TAG_TIME_HIST] ++
  hist_hdr_bytes P (main_hist_hdr P frequency lowpc nsamples scale).

(** Offset of the main histogram record in the header. *)
Definition main_record_offset (P : platform) : Z :=
  HEADER_SIZE P - sizeof_gmon_hist_hdr P.

(** The [low_pc] and [high_pc] fields of the main record, read back
    from header bytes. *)
Definition header_low_pc (P : platform) (header : list Z) : Z :=
  le_value (slice (main_record_offset P) (ptr_bytes P) header).

Definition header_high_pc (P : platform) (header : list Z) : Z :=
  le_value (slice (main_record_offset P + ptr_bytes P) (ptr_bytes P) header).

(** The bytes of the header in front of the main record. *)
Definition header_prefix (P : platform) (frequency scale : Z) : list Z :=
  ghdr_bytes ++
  (if NEED_DUMMY_HIST_HDR P then dummy_record_bytes P frequency scale else []) ++
  [GMON_TAG_TIME_HIST].

(** The bytes of a histogram record after [low_pc] and [high_pc]. *)
Definition hist_hdr_tail (h : my_hist_hdr) : list Z :=
  le_bytes 4 (hist_size h) ++ le_bytes 4 (prof_rate h) ++
  dimen h ++ [dimen_abbrev h].

(** The [high_pc] field of the dummy record, when there is one. *)
Definition header_dummy_high_pc (P : platform) (header : list Z) : Z :=
  le_value (slice (sizeof_gmon_hdr + 1 + ptr_bytes P) (ptr_bytes P) header).

End Gmon.

(** ** simpleprof.c: the process the bootstrap runs in *)

Module Proc.
Import CTypes.

(** The members of [ElfW(Phdr)] the bootstrap reads. *)
Record Elf_Phdr : Type := mkPhdr {
  p_type : Z;
  p_flags : Z;
  p_vaddr : Z;
  p_memsz : Z
}.

(** Constants of [<elf.h>]. *)
Definition PT_LOAD : Z := 1.
Definition PT_PHDR : Z := 6.
Definition PF_X : Z := 1.

(** [sizeof(ElfW(Phdr))]: [Elf64_Phdr] or [Elf32_Phdr]. *)
Definition sizeof_Phdr (P : platform) : Z :=
  if ptr_bytes P =? 8 then 56 else 32.

(** The auxiliary-vector entries read as numbers. *)
Inductive auxv_type : Type := AT_PHDR | AT_PHENT | AT_PHNUM.

(** Everything [la_preinit] reads from its environment. *)
Record process : Type := mkProcess {
  (** [getenv]: [None] is the null pointer. *)
  getenv : string -> option string;
  (** [getauxval]: 0 when the entry is absent. *)
  getauxval : auxv_type -> Z;
  (** The string [getauxval(AT_EXECFN)] points to; [None] when
      [getauxval] returns 0. *)
  execfn : option string;
  (** glibc's [program_invocation_name] and
      [program_invocation_short_name]. *)
  program_invocation_name : string;
  program_invocation_short_name : string;
  (** The array at address [getauxval(AT_PHDR)], by index. *)
  phdr_at : nat -> Elf_Phdr;
  (** [l_addr] of the [link_map] the cookie points to. *)
  l_addr : Z;
  (** What [PROFILE_FREQUENCY()] returns. *)
  frequency : Z
}.

Definition ENV_PREFIX : string := "SP_".

End Proc.

(** ** simpleprof.c: [match_program_name] *)

Module Select.
Import Proc.

Definition is_char (c : ascii) (d : string) : bool :=
  match d with
  | String x EmptyString => Ascii.eqb c x
  | _ => false
  end.

(** [strchr(p, c) != NULL] for a character [c <> 0]. *)
Fixpoint has_char (p : string) (c : string) : bool :=
  match p with
  | EmptyString => false
  | String x p' => is_char x c || has_char p' c
  end.

(** [strrchr(s, '/') + 1], when [strrchr] finds a slash. *)
Fixpoint after_last_slash (s : string) : option string :=
  match s with
  | EmptyString => None
  | String c s' =>
      match after_last_slash s' with
      | Some r => Some r
      | None => if is_char c "/" then Some s' else None
      end
  end.

(** GNU [basename] of [<string.h>]. *)
Definition basename (s : string) : string :=
  match after_last_slash s with
  | Some r => r
  | None => s
  end.

(** [strtok_r] with the delimiter set [":"]: first the delimiters in
    front of the token are skipped ... *)
Fixpoint skip_delim (s : string) : string :=
  match s with
  | EmptyString => EmptyString
  | String c s' => if is_char c ":" then skip_delim s' else s
  end.

(** ... then the token runs up to the next delimiter, which is
    overwritten with NUL; the second component is where the next call
    resumes. *)
Fixpoint scan_token (s : string) : string * string :=
  match s with
  | EmptyString => (EmptyString, EmptyString)
  | String c s' =>
      if is_char c ":" then (EmptyString, s')
      else let '(t, r) := scan_token s' in (String c t, r)
  end.

(** One call of [strtok_r] on the remaining input: [None] is the null
    pointer. *)
Definition strtok_r (s : string) : option (string * string) :=
  match skip_delim s with
  | EmptyString => None
  | s1 => Some (scan_token s1)
  end.

(** [FNM_PATHNAME], the only flag the source passes. *)
Definition FNM_PATHNAME : Z := 1.

(** What [match_program_name] does. *)
Inductive selection : Type :=
| sel_null                       (* returns NULL *)
| sel_name (retval : string)     (* returns the program name *)
| sel_undefined                  (* passes a null string to fnmatch *)
| sel_fuel.                      (* the model ran out of fuel *)

Section WithFnmatch.

(** libc's [fnmatch(pattern, string, flags)], [true] when it returns 0. *)
Variable fnmatch : string -> string -> Z -> bool.

(** [!fnmatch(p, s, FNM_PATHNAME)] for a possibly null [s]. *)
Definition fnmatch0 (p : string) (s : option string) : option bool :=
  match s with
  | None => None
  | Some s => Some (fnmatch p s FNM_PATHNAME)
  end.

(** The condition of the [if] that returns [retval], for one token
    [p]: [None] when a null pointer reaches [fnmatch]. *)
Definition pattern_test (execfn execfn_base : option string)
    (invocation_name invocation_short_name : string) (p : string)
  : option bool :=
  if has_char p "/" then
    match fnmatch0 p execfn with
    | None => None
    | Some true => Some true
    | Some false => Some (fnmatch p invocation_name FNM_PATHNAME)
    end
  else
    match fnmatch0 p execfn_base with
    | None => None
    | Some true => Some true
    | Some false => Some (fnmatch p invocation_short_name FNM_PATHNAME)
    end.

(** The [for] loop over the tokens of [envcopy]. *)
Fixpoint token_loop (fuel : nat) (execfn execfn_base : option string)
    (invocation_name invocation_short_name retval : string) (rest : string)
  : selection :=
  match fuel with
  | O => sel_fuel
  | S fuel' =>
      match strtok_r rest with
      | None => sel_null
      | Some (p, rest') =>
          match pattern_test execfn execfn_base invocation_name
                  invocation_short_name p with
          | None => sel_undefined
          | Some true => sel_name retval
          | Some false =>
              token_loop fuel' execfn execfn_base invocation_name
                invocation_short_name retval rest'
          end
      end
  end.

(** [match_program_name()]. *)
Definition match_program_name (pr : process) : selection :=
  match getenv pr (ENV_PREFIX ++ "PROFILE") with
  | None => sel_null
  | Some env =>
      let execfn_base := option_map basename (execfn pr) in
      let retval :=
        match execfn_base with
        | Some b => b
        | None => program_invocation_short_name pr
        end in
      token_loop (S (String.length env)) (execfn pr) execfn_base
        (program_invocation_name pr) (program_invocation_short_name pr)
        retval env
  end.

End WithFnmatch.

(** The enable-pattern list of a configuration value: its non-empty
    colon-separated fields, in order. *)
Fixpoint split_colon (s : string) : list string :=
  match s with
  | EmptyString => [EmptyString]
  | String c s' =>
      if is_char c ":" then EmptyString :: split_colon s'
      else
        match split_colon s' with
        | t :: ts => String c t :: ts
        | [] => [String c EmptyString]
        end
  end.

Definition nonempty (s : string) : bool :=
  match s with
  | EmptyString => false
  | _ => true
  end.

Definition pattern_list (s : string) : list string :=
  filter nonempty (split_colon s).

(** The matching rule in the words of the specification: a pattern
    with a separator is matched against the resolved execution path and
    the invocation name, a pattern without one against the base names of
    both. *)
Definition pattern_enables (fnmatch : string -> string -> Z -> bool)
    (path invocation_name invocation_short_name p : string) : bool :=
  if has_char p "/"
  then fnmatch p path FNM_PATHNAME || fnmatch p invocation_name FNM_PATHNAME
  else fnmatch p (basename path) FNM_PATHNAME
       || fnmatch p invocation_short_name FNM_PATHNAME.

(** A stand-in for [fnmatch] on patterns without any special
    character, where matching is string equality. *)
Definition fnmatch_literal (p s : string) (flags : Z) : bool := String.eqb p s.

End Select.

(** ** simpleprof.c: the program header walk of [la_preinit] *)

Module Locate.
Import CTypes Proc.

(** The test of the [else if] that selects a segment. *)
Definition is_exec_load (ph : Elf_Phdr) : bool :=
  (p_type ph =? PT_LOAD) && negb (Z.land (p_flags ph) PF_X =? 0)
  && negb (p_memsz ph =? 0).

(** What the walk found. *)
Record segment : Type := mkSegment {
  load_addr : Z;
  lowpc : Z;
  memsz : Z
}.

(** The [for (unsigned int i = phnum; ; ph++)] loop, at entry [ph[k]]
    with [i] entries left: [None] when [--i] reaches 0 without a
    [break]. *)
Fixpoint phdr_loop (P : platform) (pr : process) (phdr : Z) (k i : nat)
    (la : Z) : option segment :=
  match i with
  | O => None
  | S i' =>
      let ph := phdr_at pr k in
      if p_type ph =? PT_PHDR
      then phdr_loop P pr phdr (S k) i' (to_word P (phdr - p_vaddr ph))
      else if is_exec_load ph
      then Some (mkSegment la (to_word P (la + p_vaddr ph)) (p_memsz ph))
      else phdr_loop P pr phdr (S k) i' la
  end.

(** Why the segment locator gave up. *)
Inductive locate_error : Type :=
| phent_mismatch (val expected : Z)
| bad_phnum
| no_program_header
| no_exec_segment
| load_address_mismatch (linker probed : Z).

(** From [getauxval(AT_PHENT)] to the comparison with [l_addr]. *)
Definition locate_segment (P : platform) (pr : process)
  : locate_error + segment :=
  let val := getauxval pr AT_PHENT in
  if negb (val =? 0) && negb (val =? sizeof_Phdr P)
  then inl (phent_mismatch (to_u32 val) (to_u32 (sizeof_Phdr P)))
  else
    let val := getauxval pr AT_PHNUM in
    if (val =? 0) || negb (to_u32 val =? val) then inl bad_phnum
    else
      let phnum := to_u32 val in
      let val := getauxval pr AT_PHDR in
      if val =? 0 then inl no_program_header
      else
        match phdr_loop P pr val O (Z.to_nat phnum) 0 with
        | None => inl no_exec_segment
        | Some seg =>
            if negb (l_addr pr =? load_addr seg)
            then inl (load_address_mismatch (l_addr pr) (load_addr seg))
            else inr seg
        end.

(** The load bias the walk holds when it reaches entry [k]: taken from
    the last [PT_PHDR] entry in front of [k], 0 when there is none. *)
Fixpoint probed_bias (P : platform) (pr : process) (phdr : Z) (k : nat) : Z :=
  match k with
  | O => 0
  | S k' =>
      if p_type (phdr_at pr k') =? PT_PHDR
      then to_word P (phdr - p_vaddr (phdr_at pr k'))
      else probed_bias P pr phdr k'
  end.

(** Entry [k] is the first of the [phnum] entries that is loadable,
    executable and of non-zero memory size. *)
Definition first_exec_load (pr : process) (phnum k : nat) : Prop :=
  (k < phnum)%nat /\ is_exec_load (phdr_at pr k) = true /\
  forall j, (j < k)%nat -> is_exec_load (phdr_at pr j) = false.

End Locate.

(** ** simpleprof.c: scale and buffer sizes in [la_preinit] *)

Module Sizer.
Import CTypes Gmon.

(** [isspace] in the C locale. *)
Definition isspace (c : ascii) : bool :=
  let n := Z.of_nat (nat_of_ascii c) in
  (n =? 32) || ((9 <=? n) && (n <=? 13)).

Fixpoint skip_space (s : string) : string :=
  match s with
  | EmptyString => EmptyString
  | String c s' => if isspace c then skip_space s' else s
  end.

Definition digit_of (c : ascii) : option Z :=
  let n := Z.of_nat (nat_of_ascii c) in
  if (48 <=? n) && (n <=? 57) then Some (n - 48) else None.

(** The longest prefix of decimal digits of [s], read from the value
    [acc]: the value, whether a digit was read, what follows. *)
Fixpoint scan_digits (s : string) (acc : Z) (seen : bool)
  : Z * bool * string :=
  match s with
  | EmptyString => (acc, seen, EmptyString)
  | String c s' =>
      match digit_of c with
      | Some d => scan_digits s' (10 * acc + d) true
      | None => (acc, seen, s)
      end
  end.

(** What [sscanf(env, "%u %c", &scale, dummy)] does. *)
Inductive scan_result : Type :=
| scan_none                (* returns 0 or EOF, [scale] is not assigned *)
| scan_one (scale : Z)     (* returns 1: the input ends after the number *)
| scan_two (scale : Z).    (* returns 2: a further character was read *)

(** Modelled on glibc's [sscanf]: [%u] skips white space, accepts a
    sign, converts the digits as [strtoul] does ([ULONG_MAX] when the
    value does not fit [unsigned long], negation modulo [ULONG_MAX + 1])
    and stores the result as [unsigned int]; the blank in the format
    skips white space; [%c] reads one character if there is one. *)
Definition sscanf_u_c (P : platform) (env : string) : scan_result :=
  let s := skip_space env in
  let '(negative, s) :=
    match s with
    | String "-" s' => (true, s')
    | String "+" s' => (false, s')
    | _ => (false, s)
    end in
  match scan_digits s 0 false with
  | (_, false, _) => scan_none
  | (v, true, rest) =>
      let ul :=
        if word_modulus P <=? v then word_modulus P - 1
        else if negative then to_word P (- v) else v in
      let scale := to_u32 ul in
      match skip_space rest with
      | EmptyString => scan_one scale
      | String _ _ => scan_two scale
      end
  end.

Definition SCALE_1_TO_1 : Z := 65536.
Definition DEFAULT_SCALE : Z := 4.

(** The initial value of [s_scale]. *)
Definition default_s_scale : Z :=
  to_u32 (SCALE_1_TO_1 * sizeof_ushort / DEFAULT_SCALE).

(** The [if (env)] block on [SP_SCALE]: [None] when the value is
    rejected, otherwise the final [s_scale]. *)
Definition scale_override (P : platform) (env : option string) : option Z :=
  match env with
  | None => Some default_s_scale
  | Some e =>
      match sscanf_u_c P e with
      | scan_one scale =>
          if scale =? 0 then None
          else
            let s_scale := to_u32 (SCALE_1_TO_1 * sizeof_ushort / scale) in
            if s_scale =? 0 then None else Some s_scale
      | _ => None
      end
  end.

(** [nsamples], [bufsiz] and [mapsiz]. *)
Record sizes : Type := mkSizes {
  nsamples : Z;
  bufsiz : Z;
  mapsiz : Z
}.

(** The four overflow tests on the way from [memsz] and [s_scale] to
    [mapsiz]: [None] when one of them fires. *)
Definition buffer_sizes (P : platform) (memsz s_scale : Z) : option sizes :=
  match builtin_mul_overflow uintmax_modulus
          (to_word P (memsz + 1) / 2) s_scale with
  | None => None
  | Some nsamples_tmp =>
      let nsamples := to_word P (nsamples_tmp / 65536) in
      if negb (nsamples =? nsamples_tmp / 65536) then None
      else
        match builtin_mul_overflow (word_modulus P) nsamples sizeof_ushort with
        | None => None
        | Some bufsiz =>
            match builtin_add_overflow (word_modulus P) bufsiz (HEADER_SIZE P) with
            | None => None
            | Some mapsiz => Some (mkSizes nsamples bufsiz mapsiz)
            end
        end
  end.

End Sizer.

(** ** simpleprof.c: [la_preinit] *)

Module Bootstrap.
Import CTypes Gmon Proc Select Locate Sizer.

(** The messages handed to [eprintf], with their arguments. *)
Inductive message : Type :=
| msg_entering
| msg_range (lowpc last memsz load_addr : Z)
| msg_scale (s_scale nsamples : Z)
| msg_file (fnbuf : string)
| msg_profil_call (buf bufsiz lowpc s_scale : Z)
| msg_phent_mismatch (val expected : Z)
| msg_no_program_header
| msg_no_exec_segment
| msg_load_address_mismatch (linker probed : Z)
| msg_invalid_scale (env : string)
| msg_size_overflow (memsz s_scale : Z)
| msg_fstat
| msg_cannot_allocate (mapsiz : Z) (fnbuf : string) (e : Z)
| msg_size_mismatch (mapsiz : Z)
| msg_mmap
| msg_header_mismatch
| msg_profil.

(** The calls [la_preinit] makes, in program order. *)
Inductive event : Type :=
| ev_eprintf (tag : string) (m : message)
| ev_open (path : string) (fd : Z)
| ev_fstat (fd : Z)
| ev_posix_fallocate (fd offset len : Z)
| ev_mmap (len fd base : Z)
| ev_close (fd : Z)
| ev_memcpy (dst : Z) (bytes : list Z)
| ev_memcmp (base len : Z)
| ev_munmap (base len : Z)
| ev_profil (buf bufsiz lowpc scale : Z).

(** The kernel's answers to the system calls of one run. *)
Record kernel : Type := mkKernel {
  open_result : Z;              (* a descriptor, or -1 *)
  fstat_result : Z;             (* 0, or -1 *)
  posix_fallocate_result : Z;   (* 0, or an error number *)
  mmap_result : Z;              (* an address, or MAP_FAILED *)
  profil_result : Z             (* 0, or -1 *)
}.

Definition MAP_FAILED : Z := -1.

(** The state a run acts on: the bytes of the profile file (empty when
    [open] has just created it), the descriptors and mappings the
    process holds, the profil buffer in use, and the calls made. *)
Record world : Type := mkWorld {
  file : list Z;
  open_fds : list Z;
  mappings : list (Z * Z);
  sampling : option (Z * Z * Z * Z);
  trace : list event
}.

Definition initial_world (file0 : list Z) : world :=
  mkWorld file0 [] [] None [].

(** A statement either falls through with a value or returns from
    [la_preinit]; [Undefined] stands for a call with undefined
    behaviour. *)
Inductive step (A : Type) : Type :=
| Next (a : A)
| Returned
| Undefined.
Arguments Next {A} a.
Arguments Returned {A}.
Arguments Undefined {A}.

Definition M (A : Type) : Type := world -> step A * world.

Definition ret {A : Type} (a : A) : M A := fun w => (Next a, w).

Definition bind {A B : Type} (m : M A) (f : A -> M B) : M B :=
  fun w =>
    match m w with
    | (Next a, w') => f a w'
    | (Returned, w') => (Returned, w')
    | (Undefined, w') => (Undefined, w')
    end.

Notation "x <- m ;; f" := (bind m (fun x => f))
  (at level 61, m at next level, right associativity).
Notation "m ;;; f" := (bind m (fun _ => f))
  (at level 61, right associativity).

(** [return;] *)
Definition return_ {A : Type} : M A := fun w => (Returned, w).

Definition undefined {A : Type} : M A := fun w => (Undefined, w).

Definition emit (e : event) : M unit :=
  fun w => (Next tt,
            mkWorld (file w) (open_fds w) (mappings w) (sampling w)
                    (trace w ++ [e])).

Definition EPRINTF (m : message) : M unit := emit (ev_eprintf "error" m).

(** [if (debug) DPRINTF(...)] *)
Definition DPRINTF (debug : bool) (m : message) : M unit :=
  if debug then emit (ev_eprintf "debug" m) else ret tt.

Definition remove_fd (fd : Z) (l : list Z) : list Z :=
  filter (fun x => negb (x =? fd)) l.

Definition remove_mapping (base len : Z) (l : list (Z * Z)) : list (Z * Z) :=
  filter (fun m => negb ((fst m =? base) && (snd m =? len))) l.

(** [open(path, O_RDWR | O_CREAT, DEFFILEMODE)] *)
Definition sys_open (k : kernel) (path : string) : M Z :=
  fun w =>
    let fd := open_result k in
    (Next fd,
     mkWorld (file w) (if 0 <=? fd then fd :: open_fds w else open_fds w)
             (mappings w) (sampling w) (trace w ++ [ev_open path fd])).

(** [fstat(fd, &statbuf)]: [None] when it fails, else [st_size]. *)
Definition sys_fstat (k : kernel) (fd : Z) : M (option Z) :=
  fun w =>
    (Next (if (fd <? 0) || negb (fstat_result k =? 0) then None
           else Some (Z.of_nat (List.length (file w)))),
     mkWorld (file w) (open_fds w) (mappings w) (sampling w)
             (trace w ++ [ev_fstat fd])).

(** [posix_fallocate(fd, 0, len)]: on success the file has at least
    [len] bytes, the new ones zero. *)
Definition sys_posix_fallocate (k : kernel) (fd len : Z) : M Z :=
  fun w =>
    let e := posix_fallocate_result k in
    (Next e,
     mkWorld (if e =? 0
              then file w ++ repeat 0 (Z.to_nat len - List.length (file w))
              else file w)
             (open_fds w) (mappings w) (sampling w)
             (trace w ++ [ev_posix_fallocate fd 0 len])).

(** [mmap(NULL, len, PROT_READ | PROT_WRITE, MAP_SHARED | MAP_FILE, fd, 0)] *)
Definition sys_mmap (k : kernel) (len fd : Z) : M Z :=
  fun w =>
    let base := mmap_result k in
    (Next base,
     mkWorld (file w) (open_fds w)
             (if base =? MAP_FAILED then mappings w
              else (base, len) :: mappings w)
             (sampling w) (trace w ++ [ev_mmap len fd base])).

Definition sys_close (fd : Z) : M unit :=
  fun w =>
    (Next tt,
     mkWorld (file w) (remove_fd fd (open_fds w)) (mappings w) (sampling w)
             (trace w ++ [ev_close fd])).

Definition sys_munmap (base len : Z) : M unit :=
  fun w =>
    (Next tt,
     mkWorld (file w) (open_fds w) (remove_mapping base len (mappings w))
             (sampling w) (trace w ++ [ev_munmap base len])).

(** [memcpy(mapbase, bytes, n)] into the shared mapping of the file:
    the first bytes of the file are replaced. *)
Definition map_memcpy (base : Z) (bytes : list Z) : M unit :=
  fun w =>
    (Next tt,
     mkWorld (bytes ++ skipn (List.length bytes) (file w)) (open_fds w)
             (mappings w) (sampling w) (trace w ++ [ev_memcpy base bytes])).

(** [memcmp(mapbase, bytes, n) != 0] on the shared mapping. *)
Definition map_memcmp (base : Z) (bytes : list Z) : M bool :=
  fun w =>
    (Next (if list_eq_dec Z.eq_dec (firstn (List.length bytes) (file w)) bytes
           then false else true),
     mkWorld (file w) (open_fds w) (mappings w) (sampling w)
             (trace w ++ [ev_memcmp base (Z.of_nat (List.length bytes))])).

(** [profil(buf, bufsiz, lowpc, scale)] *)
Definition sys_profil (k : kernel) (buf bufsiz lowpc scale : Z) : M Z :=
  fun w =>
    let r := profil_result k in
    (Next r,
     mkWorld (file w) (open_fds w) (mappings w)
             (if r =? 0 then Some (buf, bufsiz, lowpc, scale) else sampling w)
             (trace w ++ [ev_profil buf bufsiz lowpc scale])).

(** What [la_preinit] has computed when it opens the profile file. *)
Record plan : Type := mkPlan {
  pl_debug : bool;
  pl_progname : string;
  pl_segment : segment;
  pl_s_scale : Z;
  pl_sizes : sizes;
  pl_fnbuf : string
}.

(** [debug_env && *debug_env != '\0'] *)
Definition debug_enabled (pr : process) : bool :=
  match getenv pr (ENV_PREFIX ++ "DEBUG") with
  | Some (String _ _) => true
  | _ => false
  end.

(** The last character of a non-empty string is a slash ([p[-1] == '/']). *)
Fixpoint ends_with_slash (s : string) : bool :=
  match s with
  | EmptyString => false
  | String c EmptyString => is_char c "/"
  | String _ s' => ends_with_slash s'
  end.

(** The contents of [fnbuf]. *)
Definition profile_path (outputenv progname : string) : string :=
  (outputenv ++
   (if nonempty outputenv && negb (ends_with_slash outputenv)
    then "/" else EmptyString)
   ++ progname ++ ".profile")%string.

Section WithFnmatch.

Variable fnmatch : string -> string -> Z -> bool.
Variable P : platform.

(** [la_preinit] up to the computation of the file name. *)
Definition prepare (pr : process) : M plan :=
  let debug := debug_enabled pr in
  DPRINTF debug msg_entering ;;;
  progname <-
    match match_program_name fnmatch pr with
    | sel_name progname => ret progname
    | sel_null => return_
    | sel_undefined | sel_fuel => undefined
    end ;;
  seg <-
    match locate_segment P pr with
    | inr seg => ret seg
    | inl (phent_mismatch val expected) =>
        EPRINTF (msg_phent_mismatch val expected) ;;; return_
    | inl bad_phnum => return_
    | inl no_program_header => EPRINTF msg_no_program_header ;;; return_
    | inl no_exec_segment => EPRINTF msg_no_exec_segment ;;; return_
    | inl (load_address_mismatch linker probed) =>
        EPRINTF (msg_load_address_mismatch linker probed) ;;; return_
    end ;;
  DPRINTF debug
    (msg_range (lowpc seg) (to_word P (lowpc seg + (memsz seg - 1)))
       (memsz seg) (load_addr seg)) ;;;
  s_scale <-
    match scale_override P (getenv pr (ENV_PREFIX ++ "SCALE")) with
    | Some s_scale => ret s_scale
    | None =>
        EPRINTF (msg_invalid_scale
                   (match getenv pr (ENV_PREFIX ++ "SCALE") with
                    | Some env => env
                    | None => EmptyString
                    end)) ;;;
        return_
    end ;;
  sz <-
    match buffer_sizes P (memsz seg) s_scale with
    | Some sz => ret sz
    | None => EPRINTF (msg_size_overflow (memsz seg) s_scale) ;;; return_
    end ;;
  DPRINTF debug (msg_scale s_scale (nsamples sz)) ;;;
  let outputenv :=
    match getenv pr (ENV_PREFIX ++ "PROFILE_OUTPUT") with
    | Some o => o
    | None => "/var/tmp"%string
    end in
  let fnbuf := profile_path outputenv progname in
  DPRINTF debug (msg_file fnbuf) ;;;
  ret (mkPlan debug progname seg s_scale sz fnbuf).

(** The header [la_preinit] builds in its local array [header]. *)
Definition built_header (pr : process) (pl : plan) : list Z :=
  make_gmon_header P (frequency pr)
    (to_word P (lowpc (pl_segment pl) - load_addr (pl_segment pl)))
    (nsamples (pl_sizes pl)) (pl_s_scale pl).

(** [la_preinit] from [open] to its end. *)
Definition store_and_activate (pr : process) (k : kernel) (pl : plan)
  : M unit :=
  let mapsiz := mapsiz (pl_sizes pl) in
  fd <- sys_open k (pl_fnbuf pl) ;;
  st <- sys_fstat k fd ;;
  st_size <-
    match st with
    | Some st_size => ret st_size
    | None => EPRINTF msg_fstat ;;; sys_close fd ;;; return_
    end ;;
  (if st_size =? 0 then
     e <- sys_posix_fallocate k fd mapsiz ;;
     if negb (e =? 0)
     then EPRINTF (msg_cannot_allocate mapsiz (pl_fnbuf pl) e) ;;;
          sys_close fd ;;; return_
     else ret tt
   else if negb (st_size =? mapsiz)
   then EPRINTF (msg_size_mismatch mapsiz) ;;; sys_close fd ;;; return_
   else ret tt) ;;;
  mapbase <- sys_mmap k mapsiz fd ;;
  (if mapbase =? MAP_FAILED
   then EPRINTF msg_mmap ;;; sys_close fd ;;; return_
   else ret tt) ;;;
  sys_close fd ;;;
  let header := built_header pr pl in
  (if st_size =? 0 then map_memcpy mapbase header
   else
     differ <- map_memcmp mapbase header ;;
     if (differ : bool)
     then EPRINTF msg_header_mismatch ;;; sys_munmap mapbase mapsiz ;;; return_
     else ret tt) ;;;
  DPRINTF (pl_debug pl)
    (msg_profil_call (mapbase + HEADER_SIZE P) (bufsiz (pl_sizes pl))
       (lowpc (pl_segment pl)) (pl_s_scale pl)) ;;;
  r <- sys_profil k (mapbase + HEADER_SIZE P) (bufsiz (pl_sizes pl))
         (lowpc (pl_segment pl)) (pl_s_scale pl) ;;
  if negb (r =? 0)
  then EPRINTF msg_profil ;;; sys_munmap mapbase mapsiz ;;; return_
  else ret tt.

(** [la_preinit(cookie)] *)
Definition la_preinit (pr : process) (k : kernel) : M unit :=
  pl <- prepare pr ;;
  store_and_activate pr k pl.

End WithFnmatch.

End Bootstrap.

(** ** Concrete runs *)

Module Runs.
Import CTypes Proc Bootstrap.

(** A position-independent executable [/usr/bin/prog] on x86-64, loaded
    at [0x555555554000]: its program header table is at file offset
    [0x40] and its code segment at virtual address [0x1000]. *)
Definition pie_phdrs : list Elf_Phdr :=
  [ mkPhdr PT_PHDR 4 64 168;
    mkPhdr PT_LOAD 4 0 1536;
    mkPhdr PT_LOAD 5 4096 16 ].

Definition pie_getenv (name : string) : option string :=
  if String.eqb name "SP_PROFILE" then Some "prog"%string else None.

Definition pie_getauxval (t : auxv_type) : Z :=
  match t with
  | AT_PHDR => 93824992231488
  | AT_PHENT => 56
  | AT_PHNUM => 3
  end.

Definition pie_process : process :=
  mkProcess pie_getenv pie_getauxval (Some "/usr/bin/prog"%string)
    "./prog" "prog" (fun k => nth k pie_phdrs (mkPhdr 0 0 0 0))
    93824992231424 100.

(** A kernel under which every call succeeds. *)
Definition kind_kernel : kernel := mkKernel 3 0 0 139637976727552 0.

(** The same executable when the kernel passes no [AT_PHENT] entry. *)
Definition no_phent_process : process :=
  mkProcess pie_getenv
    (fun t => match t with AT_PHENT => 0 | _ => pie_getauxval t end)
    (Some "/usr/bin/prog"%string) "./prog" "prog"
    (fun k => nth k pie_phdrs (mkPhdr 0 0 0 0)) 93824992231424 100.

(** The same executable with a code segment of [SIZE_MAX] bytes in its
    program header. *)
Definition huge_phdrs : list Elf_Phdr :=
  [ mkPhdr PT_PHDR 4 64 168;
    mkPhdr PT_LOAD 4 0 1536;
    mkPhdr PT_LOAD 5 4096 18446744073709551615 ].

Definition huge_process : process :=
  mkProcess pie_getenv pie_getauxval (Some "/usr/bin/prog"%string)
    "./prog" "prog" (fun k => nth k huge_phdrs (mkPhdr 0 0 0 0))
    93824992231424 100.

(** The executable of [pie_process] run with a list of two patterns,
    the first with a slash and the second without. *)
Definition two_pattern_getenv (name : string) : option string :=
  if String.eqb name "SP_PROFILE" then Some "/opt/bin/prog:prog"%string
  else None.

Definition two_pattern_process : process :=
  mkProcess two_pattern_getenv pie_getauxval (Some "/usr/bin/prog"%string)
    "./prog" "prog" (fun k => nth k pie_phdrs (mkPhdr 0 0 0 0))
    93824992231424 100.

(** The same executable when the auxiliary vector has no [AT_EXECFN]
    entry: [getauxval(AT_EXECFN)] returns 0. *)
Definition no_execfn_process : process :=
  mkProcess pie_getenv pie_getauxval None
    "./prog" "prog" (fun k => nth k pie_phdrs (mkPhdr 0 0 0 0))
    93824992231424 100.

End Runs.

(** ** eprintf.c: [veprintf] *)

Module Veprintf.
Import CTypes Eprintf.

Definition NIOV_MAX : nat := 32.
Definition CANON_NAME : string := "simpleprof.so".

(** The flag bits of [veprintf]. *)
Definition ISLONG : Z := Z.shiftl 1 0.
Definition ISPTR : Z := Z.shiftl 1 1.
Definition ISSIZE : Z := Z.shiftl 1 2.
Definition ISDIFF : Z := Z.shiftl 1 3.
Definition ALT : Z := Z.shiftl 1 8.
Definition PADSP : Z := Z.shiftl 1 9.
Definition PLUS : Z := Z.shiftl 1 10.
Definition LEFT : Z := Z.shiftl 1 11.
Definition HEX : Z := Z.shiftl 1 15.
Definition UPPER : Z := Z.shiftl 1 16.
Definition NEGATIVE : Z := Z.shiftl 1 17.

(** [flags & f] as a condition. *)
Definition has_flag (flags f : Z) : bool := negb (Z.land flags f =? 0).

(** One variable argument: an integer of the type the conversion reads
    (by its value), a pointer, or a pointer to a string ([None] is the
    null pointer, [Some bytes] the object pointed to, as for
    [my_strvis]). *)
Inductive va : Type :=
| va_integer (v : Z)
| va_pointer (p : Z)
| va_string (s : option (list Z)).

(** Why a call has no defined behaviour. *)
Inductive fault : Type :=
| bad_va_arg              (* no argument, or one of another type *)
| read_past_format        (* [fmt] is moved past the terminating NUL and read *)
| prec_overflow           (* signed overflow in [prec * 10] *)
| read_past_string        (* a string argument is read past its end *)
| null_store              (* a store through the null destination *)
| alloca_overflow         (* a store outside the [alloca] block *)
| iov_overflow            (* a store outside [iov] *)
| number_overflow.        (* a store in front of the number buffer *)

(** What a call of [veprintf] does: the segments it hands to [writev],
    a failed [assert], or undefined behaviour. *)
Inductive outcome : Type :=
| wrote (iov : list (list Z))
| assertion_failed
| undefined (why : fault)
| out_of_fuel.

(** [va_arg(arg, T)] for an integer type [T] with the values
    [lo <= v < hi]. *)
Definition va_arg_integer (lo hi : Z) (args : list va)
  : option (Z * list va) :=
  match args with
  | va_integer v :: rest =>
      if (lo <=? v) && (v <? hi) then Some (v, rest) else None
  | _ => None
  end.

(** [while ( *fmt && *fmt != '%') fmt++;]: the characters passed over
    and the rest of the format. *)
Fixpoint literal_run (fmt : list Z) : list Z * list Z :=
  match fmt with
  | [] => ([], [])
  | c :: fmt' =>
      if (c =? 0) || (c =? 37) then ([], fmt)
      else let '(run, rest) := literal_run fmt' in (c :: run, rest)
  end.

(** The [for (;;) switch ( *++fmt)] loop over the flag characters;
    [fmt] is what follows the character [fmt] points to. *)
Fixpoint parse_flags (fmt : list Z) (flags : Z) : Z * list Z :=
  match fmt with
  | [] => (flags, [])
  | c :: fmt' =>
      if c =? 32 then parse_flags fmt' (Z.lor flags PADSP)
      else if c =? 43 then parse_flags fmt' (Z.lor flags PLUS)
      else if c =? 35 then parse_flags fmt' (Z.lor flags ALT)
      else (flags, fmt)
  end.

(** The [switch ( *fmt)] on the length modifiers. *)
Definition parse_length (fmt : list Z) (flags : Z) : Z * list Z :=
  match fmt with
  | c :: fmt' =>
      if c =? 108 then (Z.lor flags ISLONG, fmt')
      else if c =? 122 then (Z.lor flags ISSIZE, fmt')
      else if c =? 116 then (Z.lor flags ISDIFF, fmt')
      else (flags, fmt)
  | [] => (flags, [])
  end.

(** Conversion of an [unsigned int] to [int]. *)
Definition to_int (v : Z) : Z :=
  let u := to_u32 v in if u <? 2 ^ 31 then u else u - 2 ^ 32.

(** [while ((digit = *++fmt - '0') < 10) prec = prec * 10 + digit;]
    [None] when [prec * 10] overflows [int]. *)
Fixpoint parse_prec_digits (fmt : list Z) (prec : Z) : option (Z * list Z) :=
  match fmt with
  | [] => Some (prec, [])
  | c :: fmt' =>
      if (48 <=? c) && (c <=? 57) then
        if (prec * 10 <? - 2 ^ 31) || (2 ^ 31 <=? prec * 10) then None
        else parse_prec_digits fmt' (to_int (prec * 10 + (c - 48)))
      else Some (prec, fmt)
  end.

(** The [if ( *fmt == '.')] block: the precision (-1 without one), the
    rest of the format and of the arguments. *)
Definition parse_precision (fmt : list Z) (args : list va)
  : fault + (Z * list Z * list va) :=
  match fmt with
  | 46 :: fmt' =>
      match fmt' with
      | 42 :: fmt'' =>
          match va_arg_integer (- 2 ^ 31) (2 ^ 31) args with
          | Some (prec, args') => inr (prec, fmt'', args')
          | None => inl bad_va_arg
          end
      | _ =>
          match parse_prec_digits fmt' 0 with
          | Some (prec, rest) => inr (prec, rest, args)
          | None => inl prec_overflow
          end
      end
  | _ => inr (-1, fmt, args)
  end.

(** [maxlen = 2 + (sizeof(unsigned long) * 8 + 2) / 3] *)
Definition number_maxlen (P : platform) : nat :=
  Z.to_nat (2 + (word_bits P + 2) / 3).

(** [*--p = c] with [room] bytes between the start of the buffer and
    [p]: [None] when there is none. *)
Definition store_before (room : nat) (c : Z) (text : list Z)
  : option (nat * list Z) :=
  match room with
  | O => None
  | S room' => Some (room', c :: text)
  end.

(** The [do ... while ((ulval >>= 4) != 0)] loop. *)
Fixpoint hex_digits (room : nat) (flags ulval : Z) (text : list Z)
  : option (nat * list Z) :=
  match room with
  | O => None
  | S room' =>
      let digit := 48 + Z.land ulval 15 in
      let digit :=
        if 57 <? digit then
          let digit := digit + (65 - 57 - 1) in
          if has_flag flags UPPER then digit else digit + (97 - 65)
        else digit in
      let ulval := Z.shiftr ulval 4 in
      if ulval =? 0 then Some (room', digit :: text)
      else hex_digits room' flags ulval (digit :: text)
  end.

(** The [do ... while ((ulval /= 10) != 0)] loop. *)
Fixpoint dec_digits (room : nat) (ulval : Z) (text : list Z)
  : option (nat * list Z) :=
  match room with
  | O => None
  | S room' =>
      let digit := 48 + ulval mod 10 in
      let ulval := ulval / 10 in
      if ulval =? 0 then Some (room', digit :: text)
      else dec_digits room' ulval (digit :: text)
  end.

(** The number formatting at the end of the loop body: the text
    between [p] and [buf], [None] when it does not fit the buffer. *)
Definition format_number (P : platform) (flags ulval : Z)
  : option (list Z) :=
  let room := number_maxlen P in
  if has_flag flags HEX then
    let flags := if ulval =? 0 then Z.ldiff flags ALT else flags in
    match hex_digits room flags ulval [] with
    | None => None
    | Some (room, text) =>
        if has_flag flags ALT then
          match store_before room (if has_flag flags UPPER then 88 else 120)
                  text with
          | None => None
          | Some (room, text) => option_map snd (store_before room 48 text)
          end
        else Some text
    end
  else
    match dec_digits room ulval [] with
    | None => None
    | Some (room, text) =>
        if has_flag flags NEGATIVE
        then option_map snd (store_before room 45 text)
        else if has_flag flags PLUS
        then option_map snd (store_before room 43 text)
        else if has_flag flags PADSP
        then option_map snd (store_before room 32 text)
        else Some text
    end.

(** [strnlen(s, maxlen)]; [None] when it reads past the object. *)
Fixpoint strnlen (s : list Z) (maxlen : Z) : option Z :=
  if maxlen <=? 0 then Some 0
  else
    match s with
    | [] => None
    | c :: s' =>
        if c =? 0 then Some 0
        else option_map Z.succ (strnlen s' (maxlen - 1))
    end.

(** [iov[niov] = seg; niov++] *)
Definition push_iov (seg : list Z) (iov : list (list Z))
  : fault + list (list Z) :=
  if (List.length iov <? NIOV_MAX)%nat then inr (iov ++ [seg])
  else inl iov_overflow.

(** The arguments of the numeric conversions: the value of [ulval]
    and the flags after the [switch]. *)
Definition integer_argument (P : platform) (c flags : Z) (args : list va)
  : option (Z * Z * list va) :=
  let half := word_modulus P / 2 in
  if c =? 100 then
    match
      (if has_flag flags ISDIFF then va_arg_integer (- half) half args
       else if has_flag flags ISSIZE then va_arg_integer (- half) half args
       else if has_flag flags ISLONG then va_arg_integer (- half) half args
       else va_arg_integer (- 2 ^ 31) (2 ^ 31) args)
    with
    | Some (lval, args') =>
        if lval <? 0
        then Some (to_word P (- to_word P lval), Z.lor flags NEGATIVE, args')
        else Some (lval, flags, args')
    | None => None
    end
  else if c =? 112 then
    match args with
    | va_pointer p :: args' =>
        Some (to_word P p, Z.lor flags (Z.lor (Z.lor ISPTR HEX) ALT), args')
    | _ => None
    end
  else
    let flags := if c =? 88 then Z.lor flags UPPER else flags in
    let flags := if (c =? 88) || (c =? 120) then Z.lor flags HEX else flags in
    match
      (if has_flag flags ISSIZE then va_arg_integer 0 (word_modulus P) args
       else if has_flag flags ISLONG then va_arg_integer 0 (word_modulus P) args
       else va_arg_integer 0 (2 ^ 32) args)
    with
    | Some (ulval, args') => Some (ulval, flags, args')
    | None => None
    end.

Section WithProcess.

Variable P : platform.
(** glibc's [program_invocation_name], and the address [alloca]
    returns for the escaped string. *)
Variable program_invocation_name : list Z.
Variable alloca_addr : Z.

(** The [case 's'] of the conversion [switch], up to [fmt++]: the
    segment added to [iov], if any. *)
Definition string_segment (flags prec : Z) (str : option (list Z))
  : fault + option (list Z) :=
  let maxlen := if 0 <=? prec then prec else SIZE_MAX P in
  if has_flag flags ALT then
    match my_strvis 0 str false maxlen with
    | None => inl read_past_string
    | Some sizing =>
        match sv_stores sizing with
        | _ :: _ => inl null_store
        | [] =>
            match my_strvis alloca_addr str false maxlen with
            | None => inl read_past_string
            | Some writing =>
                if list_eq_dec Z.eq_dec (map st_addr (sv_stores writing))
                     (addr_range alloca_addr (Z.to_nat (sv_ret sizing)))
                then inr (Some (map st_val (sv_stores writing)))
                else inl alloca_overflow
            end
        end
    end
  else
    match str with
    | Some s =>
        match strnlen s maxlen with
        | Some len => inr (Some (firstn (Z.to_nat len) s))
        | None => inl read_past_string
        end
    | None =>
        if (prec <? 0) || (5 <=? prec)
        then inr (Some (bytes_of_string "(nil)"))
        else inr None
    end.

(** After the loop: [assert(niov < NIOV_MAX)], the newline, [writev]. *)
Definition finish (iov : list (list Z)) : outcome :=
  if (List.length iov <? NIOV_MAX)%nat then wrote (iov ++ [[10]])
  else assertion_failed.

(** The test of the [while] and the [assert] at the head of its body. *)
Definition while_top (body : list Z -> list va -> list (list Z) -> outcome)
    (fmt : list Z) (args : list va) (iov : list (list Z)) : outcome :=
  if hd 0 fmt =? 0 then finish iov
  else if (List.length iov <? NIOV_MAX)%nat then body fmt args iov
  else assertion_failed.

(** The body of the [while] loop from the label [fixed] on;
    [pending] holds the characters between [iov[niov].iov_base] and
    [fmt]. *)
Fixpoint fixed (fuel : nat) (pending fmt : list Z) (args : list va)
    (iov : list (list Z)) : outcome :=
  match fuel with
  | O => out_of_fuel
  | S fuel' =>
      let '(run, rest) := literal_run fmt in
      let seg := pending ++ run in
      match
        (match seg with
         | [] => inr iov
         | _ :: _ =>
             match push_iov seg iov with
             | inl f => inl (undefined f)
             | inr iov' =>
                 if (List.length iov' <? NIOV_MAX)%nat then inr iov'
                 else inl assertion_failed
             end
         end)
      with
      | inl o => o
      | inr iov =>
          if hd 0 rest =? 0 then finish iov
          else
            let '(flags, fmt) := parse_flags (tl rest) 0 in
            let '(flags, fmt) := parse_length fmt flags in
            match parse_precision fmt args with
            | inl f => undefined f
            | inr (prec, fmt, args) =>
                let c := hd 0 fmt in
                if c =? 115 then
                  match args with
                  | va_string str :: args =>
                      match string_segment flags prec str with
                      | inl f => undefined f
                      | inr None =>
                          while_top (fixed fuel' []) (tl fmt) args iov
                      | inr (Some seg) =>
                          match push_iov seg iov with
                          | inl f => undefined f
                          | inr iov =>
                              while_top (fixed fuel' []) (tl fmt) args iov
                          end
                      end
                  | _ => undefined bad_va_arg
                  end
                else if (c =? 100) || (c =? 112) || (c =? 88) || (c =? 120)
                        || (c =? 117) then
                  match integer_argument P c flags args with
                  | None => undefined bad_va_arg
                  | Some (ulval, flags, args) =>
                      match format_number P flags ulval with
                      | None => undefined number_overflow
                      | Some text =>
                          match push_iov text iov with
                          | inl f => undefined f
                          | inr iov =>
                              while_top (fixed fuel' []) (tl fmt) args iov
                          end
                      end
                  end
                else
                  (* default: iov[niov].iov_base = fmt; fmt++; goto fixed *)
                  if (NIOV_MAX <=? List.length iov)%nat
                  then undefined iov_overflow
                  else if c =? 0 then undefined read_past_format
                  else fixed fuel' [c] (tl fmt) args iov
            end
      end
  end.

(** [veprintf(tag, fmt, arg)]; [tag = None] is the null pointer. *)
Definition veprintf (tag : option (list Z)) (fmt : list Z) (args : list va)
  : outcome :=
  let iov :=
    [program_invocation_name;
     bytes_of_string (" (" ++ CANON_NAME ++ "): ")] ++
    match tag with
    | Some t => [t; bytes_of_string ": "]
    | None => []
    end in
  while_top (fixed (S (List.length fmt)) []) fmt args iov.

(** The bytes [writev] puts on standard error. *)
Definition output (o : outcome) : option (list Z) :=
  match o with
  | wrote iov => Some (List.concat iov)
  | _ => None
  end.

End WithProcess.

(** Reading a number back from its text: the value of a string of
    decimal digits, of a decimal text with its sign character, and of a
    string of hexadecimal digits of either case. *)
Definition decimal_value (digits : list Z) : Z :=
  fold_left (fun a c => 10 * a + (c - 48)) digits 0.

Definition signed_decimal_value (text : list Z) : Z :=
  match text with
  | 45 :: digits => - decimal_value digits
  | 43 :: digits => decimal_value digits
  | 32 :: digits => decimal_value digits
  | _ => decimal_value text
  end.

Definition hex_digit_value (c : Z) : Z :=
  if c <=? 57 then c - 48 else if c <=? 70 then c - 55 else c - 87.

Definition hex_value (digits : list Z) : Z :=
  fold_left (fun a c => 16 * a + hex_digit_value c) digits 0.

Definition is_decimal_digit (c : Z) : bool := (48 <=? c) && (c <=? 57).

(** The hexadecimal digits of the given case. *)
Definition is_hex_digit (upper : bool) (c : Z) : bool :=
  is_decimal_digit c ||
  (if upper then (65 <=? c) && (c <=? 70) else (97 <=? c) && (c <=? 102)).

(** The sign character of a decimal conversion. *)
Definition sign_text (flags : Z) : list Z :=
  if has_flag flags NEGATIVE then [45]
  else if has_flag flags PLUS then [43]
  else if has_flag flags PADSP then [32]
  else [].

(** Reading an escaped text back, as a C compiler reads the inside of
    a string literal: a backslash followed by up to three octal digits
    or by one of the letters of [CTRL2]. *)
Definition is_octal_digit (c : Z) : bool := (48 <=? c) && (c <=? 55).

Definition unescape (e : Z) : Z :=
  match strchr CTRL2 e with
  | Some p => nth p CTRL1 0
  | None => e
  end.

Fixpoint unvis (text : list Z) : list Z :=
  match text with
  | [] => []
  | c :: rest =>
      if c =? 92 then
        match rest with
        | [] => []
        | e :: rest1 =>
            if is_octal_digit e then
              match rest1 with
              | [] => [e - 48]
              | d2 :: rest2 =>
                  if is_octal_digit d2 then
                    match rest2 with
                    | [] => [8 * (e - 48) + (d2 - 48)]
                    | d3 :: rest3 =>
                        if is_octal_digit d3
                        then (64 * (e - 48) + 8 * (d2 - 48) + (d3 - 48))
                               :: unvis rest3
                        else (8 * (e - 48) + (d2 - 48)) :: unvis rest2
                    end
                  else (e - 48) :: unvis rest1
              end
            else unescape e :: unvis rest1
        end
      else c :: unvis rest
  end.

(** What may follow an escape of fewer than three octal digits. *)
Definition starts_apart (tail : list Z) : Prop :=
  match tail with
  | [] => True
  | b :: _ => is_octal_digit b = false
  end.

End Veprintf.

(** ** simpleprof.c: the array [fnbuf] *)

Module Fnbuf.
(** [sizeof(".profile")] and the size of the array [fnbuf]:
    [strlen(outputenv) + 1 + strlen(progname) + sizeof(".profile")]. *)
Definition sizeof_profile_suffix : Z := Z.of_nat (String.length ".profile") + 1.

Definition fnbuf_size (outputenv progname : string) : Z :=
  Z.of_nat (String.length outputenv) + 1 +
  Z.of_nat (String.length progname) + sizeof_profile_suffix.
End Fnbuf.

(** ** simpleprof.c: the scale value as text *)

Module ScaleText.
(** A scale value as it is written: the decimal numeral of a list of
    digits (most significant first), with or without a minus sign, and
    the number it denotes. *)
Definition numeral_char (d : Z) : ascii := ascii_of_nat (Z.to_nat (48 + d)).

Fixpoint numeral (ds : list Z) : string :=
  match ds with
  | [] => EmptyString
  | d :: ds' => String (numeral_char d) (numeral ds')
  end.


Definition signed_numeral (negative : bool) (ds : list Z) : string :=
  if negative then String "-" (numeral ds) else numeral ds.
End ScaleText.

(** ** simpleprof.c: the calls of [make_gmon_header] *)

Module Calls.
Import CTypes Gmon Sizer.


End Calls.

(** ** Theorems *)

(** *** The string escaping of [eprintf] *)

Section EprintfFacts.
Import Eprintf.

Lemma addr_range_shift (a : Z) (k s : nat) :
  map (fun i => a + Z.of_nat i) (seq s k) = addr_range (a + Z.of_nat s) k.
Proof.
  unfold addr_range. revert s. induction k as [|k IH]; intro s.
  - reflexivity.
  - cbn [seq map]. f_equal; [ lia | ].
    rewrite IH, <- (seq_shift k 0), map_map.
    apply map_ext. intro i. lia.
Qed.

Lemma addr_range_app (a : Z) (k1 k2 : nat) :
  addr_range a (k1 + k2) = addr_range a k1 ++ addr_range (a + Z.of_nat k1) k2.
Proof.
  unfold addr_range at 1 2. rewrite seq_app, map_app. f_equal.
  apply addr_range_shift.
Qed.

Lemma addr_range_step (dst n n' : Z) (acc st : list store) :
  0 <= n <= n' ->
  map st_addr acc = addr_range dst (Z.to_nat n) ->
  map st_addr st = addr_range (dst + n) (Z.to_nat (n' - n)) ->
  map st_addr (acc ++ st) = addr_range dst (Z.to_nat n').
Proof.
  intros Hn Hacc Hst.
  replace (Z.to_nat n') with (Z.to_nat n + Z.to_nat (n' - n))%nat by lia.
  rewrite map_app, addr_range_app, Hacc, Hst. do 2 f_equal. lia.
Qed.

Lemma guarded_store_writes (dst n v : Z) :
  dst <> 0 -> guarded_store dst n v = [mkStore (dst + n) v].
Proof.
  intro H. unfold guarded_store. apply Z.eqb_neq in H. now rewrite H.
Qed.

Ltac escape_cases :=
  cbv beta zeta delta [escape_char];
  repeat match goal with
         | |- context [match ?x with Some _ => _ | None => _ end] => destruct x
         | |- context [if ?x then _ else _] => destruct x
         end.

Lemma escape_char_writes (dst c next maxlen n : Z) :
  dst <> 0 ->
  n <= fst (escape_char dst c next maxlen n) /\
  map st_addr (snd (escape_char dst c next maxlen n))
  = addr_range (dst + n)
      (Z.to_nat (fst (escape_char dst c next maxlen n) - n)).
Proof.
  intro H. pose proof (guarded_store_writes dst) as Hg.
  specialize (fun n v => Hg n v H).
  apply Z.eqb_neq in H.
  cbv beta zeta delta [escape_char]. rewrite H.
  repeat match goal with
         | |- context [match ?x with Some _ => _ | None => _ end] => destruct x
         | |- context [if ?x then _ else _] => destruct x
         end;
    rewrite ?Hg; cbn [fst snd app map st_addr]; (split; [ lia | ]).
  all: match goal with
       | |- _ = addr_range _ (Z.to_nat ?d) =>
           first [ replace (Z.to_nat d) with 1%nat by lia
                 | replace (Z.to_nat d) with 2%nat by lia
                 | replace (Z.to_nat d) with 3%nat by lia
                 | replace (Z.to_nat d) with 4%nat by lia ]
       end.
  all: unfold addr_range; cbn [seq map]; repeat (f_equal; try lia).
Qed.

Lemma escape_char_count (dst c next maxlen n : Z) :
  fst (escape_char dst c next maxlen n) = fst (escape_char 0 c next maxlen n).
Proof.
  escape_cases; reflexivity.
Qed.

Lemma escape_char_sizing (c next maxlen n : Z) :
  snd (escape_char 0 c next maxlen n) = [].
Proof.
  cbv beta zeta delta [escape_char guarded_store].
  change (0 =? 0) with true. cbv beta iota.
  repeat match goal with
         | |- context [match ?x with Some _ => _ | None => _ end] => destruct x
         | |- context [if ?x then _ else _] => destruct x
         end; reflexivity.
Qed.

Lemma strvis_loop_writes (dst : Z) (binary : bool) (src : list Z) :
  dst <> 0 ->
  forall maxlen n acc e,
    0 <= n -> map st_addr acc = addr_range dst (Z.to_nat n) ->
    strvis_loop dst binary src maxlen n acc = Some e ->
    0 <= ex_n e /\
    map st_addr (ex_stores e) = addr_range dst (Z.to_nat (ex_n e)).
Proof.
  intro Hdst. induction src as [|c src IH]; intros maxlen n acc e Hn Hacc H.
  - discriminate.
  - cbn [strvis_loop] in H.
    destruct ((c =? 0) && negb binary).
    + injection H as <-. cbn [ex_n ex_stores]. now split.
    + pose proof (escape_char_writes dst c (hd 0 src) maxlen n Hdst)
        as [Hle Hst].
      destruct (escape_char dst c (hd 0 src) maxlen n) as [n' st].
      cbn [fst snd] in *.
      assert (Hacc' : map st_addr (acc ++ st) = addr_range dst (Z.to_nat n'))
        by (apply (addr_range_step dst n n'); [ lia | assumption | assumption ]).
      destruct (maxlen - 1 =? 0).
      * injection H as <-. cbn [ex_n ex_stores]. split; [ lia | assumption ].
      * apply (IH _ _ _ _ (Z.le_trans _ _ _ Hn Hle) Hacc' H).
Qed.

Lemma strvis_loop_sizing (binary : bool) (src : list Z) :
  forall maxlen n e,
    strvis_loop 0 binary src maxlen n [] = Some e -> ex_stores e = [].
Proof.
  induction src as [|c src IH]; intros maxlen n e H.
  - discriminate.
  - cbn [strvis_loop] in H.
    destruct ((c =? 0) && negb binary).
    + now injection H as <-.
    + pose proof (escape_char_sizing c (hd 0 src) maxlen n) as Hst.
      destruct (escape_char 0 c (hd 0 src) maxlen n) as [n' st].
      cbn [snd] in Hst. subst st. cbn [app] in H.
      destruct (maxlen - 1 =? 0).
      * now injection H as <-.
      * apply (IH _ _ _ H).
Qed.

(** The loop leaves with the same [src], [maxlen] and [n] whatever the
    destination. *)
Lemma strvis_loop_count (dst : Z) (binary : bool) (src : list Z) :
  forall maxlen n acc acc',
    option_map (fun e => (ex_src e, ex_maxlen e, ex_n e))
      (strvis_loop dst binary src maxlen n acc)
    = option_map (fun e => (ex_src e, ex_maxlen e, ex_n e))
        (strvis_loop 0 binary src maxlen n acc').
Proof.
  induction src as [|c src IH]; intros maxlen n acc acc'.
  - reflexivity.
  - cbn [strvis_loop].
    destruct ((c =? 0) && negb binary); [ reflexivity | ].
    pose proof (escape_char_count dst c (hd 0 src) maxlen n) as Hc.
    destruct (escape_char dst c (hd 0 src) maxlen n) as [n1 st1].
    destruct (escape_char 0 c (hd 0 src) maxlen n) as [n2 st2].
    cbn [fst] in Hc. subst n2.
    destruct (maxlen - 1 =? 0); [ reflexivity | apply IH ].
Qed.

(** In writing mode, for a source that is not null, the stores of
    [my_strvis] go to [dst[0]], ..., [dst[n - 1]] in this order, where
    [n] is the value returned. *)
Lemma my_strvis_writing_covers (dst : Z) (bytes : list Z) (binary : bool)
    (maxlen : Z) (r : strvis_result) :
  dst <> 0 ->
  my_strvis dst (Some bytes) binary maxlen = Some r ->
  map st_addr (sv_stores r) = addr_range dst (Z.to_nat (sv_ret r)).
Proof.
  intros Hdst H. unfold my_strvis in H.
  rewrite (guarded_store_writes dst 0 34 Hdst) in H.
  assert (H0 : map st_addr [mkStore (dst + 0) 34] = addr_range dst (Z.to_nat 1))
    by reflexivity.
  destruct (if 0 <? maxlen
            then strvis_loop dst binary bytes maxlen 1 [mkStore (dst + 0) 34]
            else Some (mkExit bytes maxlen 1 [mkStore (dst + 0) 34]))
    as [e | ] eqn:He; [ | discriminate ].
  assert (Hn : 0 <= ex_n e /\
               map st_addr (ex_stores e) = addr_range dst (Z.to_nat (ex_n e))).
  { destruct (0 <? maxlen).
    - apply (strvis_loop_writes dst binary bytes Hdst maxlen 1
               [mkStore (dst + 0) 34] e); [ lia | exact H0 | exact He ].
    - injection He as <-. cbn [ex_n ex_stores]. split; [ lia | exact H0 ]. }
  destruct Hn as [Hn Hst].
  rewrite (guarded_store_writes dst (ex_n e) 34 Hdst) in H.
  assert (Hq : map st_addr (ex_stores e ++ [mkStore (dst + ex_n e) 34])
               = addr_range dst (Z.to_nat (ex_n e + 1))).
  { apply (addr_range_step dst (ex_n e)); [ lia | assumption | ].
    replace (ex_n e + 1 - ex_n e) with 1 by lia.
    change (Z.to_nat 1) with 1%nat.
    unfold addr_range. cbn [seq map st_addr]. f_equal. lia. }
  destruct (binary || negb (ex_maxlen e =? 0)).
  - injection H as <-. exact Hq.
  - destruct (ex_src e) as [|c rest]; [ discriminate | ].
    destruct (c =? 0); injection H as <-; [ exact Hq | ].
    cbn [sv_stores sv_ret app].
    match goal with
    | |- map st_addr (?a ++ ?q :: ?ds) = _ =>
        replace (a ++ q :: ds) with ((a ++ [q]) ++ ds)
          by (now rewrite <- app_assoc)
    end.
    apply (addr_range_step dst (ex_n e + 1)); [ lia | exact Hq | ].
    replace (ex_n e + 1 + 3 - (ex_n e + 1)) with 3 by lia.
    change (Z.to_nat 3) with 3%nat. unfold addr_range. cbn [seq map st_addr]. repeat (f_equal; try lia).
Qed.

(** The value returned does not depend on the destination. *)
Lemma my_strvis_ret_any_dst (dst : Z) (src : option (list Z)) (binary : bool)
    (maxlen : Z) :
  option_map sv_ret (my_strvis dst src binary maxlen)
  = option_map sv_ret (my_strvis 0 src binary maxlen).
Proof.
  unfold my_strvis. destruct src as [bytes | ]; [ | reflexivity ].
  assert (He : option_map (fun e => (ex_src e, ex_maxlen e, ex_n e))
                 (if 0 <? maxlen
                  then strvis_loop dst binary bytes maxlen 1
                         (guarded_store dst 0 34)
                  else Some (mkExit bytes maxlen 1 (guarded_store dst 0 34)))
               = option_map (fun e => (ex_src e, ex_maxlen e, ex_n e))
                   (if 0 <? maxlen
                    then strvis_loop 0 binary bytes maxlen 1
                           (guarded_store 0 0 34)
                    else Some (mkExit bytes maxlen 1 (guarded_store 0 0 34)))).
  { destruct (0 <? maxlen); [ apply strvis_loop_count | reflexivity ]. }
  destruct (if 0 <? maxlen
            then strvis_loop dst binary bytes maxlen 1 (guarded_store dst 0 34)
            else Some (mkExit bytes maxlen 1 (guarded_store dst 0 34)))
    as [[s1 m1 n1 st1] | ];
  destruct (if 0 <? maxlen
            then strvis_loop 0 binary bytes maxlen 1 (guarded_store 0 0 34)
            else Some (mkExit bytes maxlen 1 (guarded_store 0 0 34)))
    as [[s2 m2 n2 st2] | ]; cbn [option_map ex_src ex_maxlen ex_n] in He;
    try discriminate; [ | reflexivity ].
  injection He as -> -> ->. cbn [ex_src ex_maxlen ex_n ex_stores].
  destruct (binary || negb (m2 =? 0)); [ reflexivity | ].
  destruct s2 as [|c rest]; [ reflexivity | ].
  now destruct (c =? 0).
Qed.

(** In sizing mode [my_strvis] stores nothing, except for the three
    dots when the string is cut. *)
Lemma my_strvis_sizing_stores (src : option (list Z)) (binary : bool)
    (maxlen : Z) (r : strvis_result) :
  my_strvis 0 src binary maxlen = Some r ->
  sv_stores r = [] \/
  binary = false /\
  sv_stores r = [mkStore (0 + (sv_ret r - 3)) 46;
                 mkStore (0 + (sv_ret r - 3) + 1) 46;
                 mkStore (0 + (sv_ret r - 3) + 2) 46].
Proof.
  unfold my_strvis. destruct src as [bytes | ].
  2: { intro H. injection H as <-. now left. }
  change (guarded_store 0 0 34) with (@nil store).
  assert (He : forall e,
             (if 0 <? maxlen then strvis_loop 0 binary bytes maxlen 1 []
              else Some (mkExit bytes maxlen 1 [])) = Some e ->
             ex_stores e = []).
  { intros e He. destruct (0 <? maxlen).
    - apply (strvis_loop_sizing binary bytes maxlen 1 e He).
    - now injection He as <-. }
  destruct (if 0 <? maxlen then strvis_loop 0 binary bytes maxlen 1 []
            else Some (mkExit bytes maxlen 1 [])) as [e | ];
    [ | discriminate ].
  rewrite (He e eq_refl).
  change (guarded_store 0 (ex_n e) 34) with (@nil store). cbn [app].
  destruct binary; cbn [orb].
  - intro H. injection H as <-. now left.
  - destruct (negb (ex_maxlen e =? 0)).
    + intro H. injection H as <-. now left.
    + destruct (ex_src e) as [|c rest]; [ discriminate | ].
      destruct (c =? 0); intro H; injection H as <-; [ now left | ].
      right. split; [ reflexivity | ]. cbn [sv_stores sv_ret].
      repeat (f_equal; try lia).
Qed.

(** C10 (defect in the code): the sizing call [my_strvis(NULL, "ab", 0, 1)]
    cuts the string and then stores the three dots through the null
    destination, at offsets 3, 4 and 5: the stores of the ellipsis are the
    only ones not guarded by [if (dst)].  And for a null source the sizing
    call returns 4, for which [veprintf] allocates 4 bytes, while the
    writing call stores the 5 bytes of ["NULL"] and its terminator. *)
Theorem my_strvis_sizing_stores_when_truncated :
  my_strvis 0 (Some (c_string "ab")) false 1
  = Some (mkResult 6 [mkStore 3 46; mkStore 4 46; mkStore 5 46]) /\
  veprintf_alt_s 4096 None 18446744073709551615
  = Some (mkResult 4 [],
          mkResult 4 [mkStore 4096 78; mkStore 4097 85; mkStore 4098 76;
                      mkStore 4099 76; mkStore 4100 0]).
Proof. split; reflexivity. Qed.

(** The two calls of [veprintf] on a string that is not cut: the sizing
    call stores nothing and returns the number of bytes the writing call
    stores. *)
Example veprintf_alt_s_tab :
  veprintf_alt_s 4096 (Some (c_string (String "a" (String "009" "b")))) 18446744073709551615
  = Some (mkResult 6 [],
          mkResult 6 [mkStore 4096 34; mkStore 4097 97; mkStore 4098 92;
                      mkStore 4099 116; mkStore 4100 98; mkStore 4101 34]).
Proof. reflexivity. Qed.

End EprintfFacts.

(** *** Bytes and words *)

Section ByteFacts.
Import CTypes.

Lemma le_bytes_length (n : nat) (v : Z) : List.length (le_bytes n v) = n.
Proof.
  revert v; induction n as [|n IH]; intro v; simpl; [reflexivity|].
  now rewrite IH.
Qed.

Lemma le_value_le_bytes (n : nat) (v : Z) :
  le_value (le_bytes n v) = v mod 256 ^ Z.of_nat n.
Proof.
  revert v; induction n as [|n IH]; intro v.
  - simpl. now rewrite Z.mod_1_r.
  - cbn [le_bytes le_value]. rewrite IH, Nat2Z.inj_succ, Z.pow_succ_r by lia.
    rewrite Z.rem_mul_r by lia. reflexivity.
Qed.



Lemma slice_exact (pre mid post : list Z) (off len : Z) :
  0 <= off -> 0 <= len ->
  Z.of_nat (List.length pre) = off -> Z.of_nat (List.length mid) = len ->
  slice off len (pre ++ mid ++ post) = mid.
Proof.
  intros Hoff Hlen Hp Hm. unfold slice.
  replace (Z.to_nat off) with (List.length pre) by lia.
  replace (Z.to_nat len) with (List.length mid) by lia.
  rewrite skipn_app, skipn_all, Nat.sub_diag. simpl.
  rewrite firstn_app, firstn_all, Nat.sub_diag. simpl.
  now rewrite app_nil_r.
Qed.

Lemma supported_cases (P : platform) :
  supported P = true ->
  P = mkPlatform 4 1 \/ P = mkPlatform 4 2 \/
  P = mkPlatform 8 1 \/ P = mkPlatform 8 2.
Proof.
  destruct P as [pb al]; unfold supported; cbn [ptr_bytes alignof_ushort].
  intro H. apply andb_prop in H as [H1 H2].
  apply orb_prop in H1; apply orb_prop in H2.
  destruct H1 as [H1|H1], H2 as [H2|H2];
    apply Z.eqb_eq in H1; apply Z.eqb_eq in H2; subst; auto.
Qed.

Lemma word_modulus_cases (P : platform) :
  supported P = true ->
  word_modulus P = 2 ^ 32 \/ word_modulus P = 2 ^ 64.
Proof.
  intro H. destruct (supported_cases P H) as [-> | [-> | [-> | ->]]]; auto.
Qed.

Lemma to_word_small (P : platform) (v : Z) :
  0 <= v < word_modulus P -> to_word P v = v.
Proof. intro H. unfold to_word, wrap. now apply Z.mod_small. Qed.

Lemma to_word_idem (P : platform) (v : Z) :
  to_word P (to_word P v) = to_word P v.
Proof. unfold to_word, wrap. apply Zmod_mod. Qed.

End ByteFacts.

(** *** The gmon.out header *)

Section HeaderFacts.
Import CTypes Gmon.

Lemma make_gmon_header_split (P : platform) (f l n s : Z) :
  make_gmon_header P f l n s =
  header_prefix P f s ++
  le_bytes (Z.to_nat (ptr_bytes P)) l ++
  le_bytes (Z.to_nat (ptr_bytes P)) (to_word P (l + n * bin_width s)) ++
  hist_hdr_tail (main_hist_hdr P f l n s).
Proof.
  unfold make_gmon_header, header_prefix, hist_hdr_bytes, hist_hdr_tail.
  cbn [low_pc high_pc main_hist_hdr].
  now rewrite <- !app_assoc.
Qed.

Lemma header_prefix_length (P : platform) (f s : Z) :
  supported P = true ->
  List.length (header_prefix P f s) = Z.to_nat (main_record_offset P).
Proof.
  intro H. destruct (supported_cases P H) as [-> | [-> | [-> | ->]]];
    reflexivity.
Qed.

Lemma hist_hdr_tail_length (h : my_hist_hdr) :
  List.length (dimen h) = 15%nat -> List.length (hist_hdr_tail h) = 24%nat.
Proof.
  intro H. unfold hist_hdr_tail.
  rewrite !length_app, !le_bytes_length, H. reflexivity.
Qed.

Lemma make_gmon_header_length (P : platform) (f l n s : Z) :
  supported P = true ->
  Z.of_nat (List.length (make_gmon_header P f l n s)) = HEADER_SIZE P.
Proof.
  intro H. rewrite make_gmon_header_split.
  rewrite !length_app, !le_bytes_length, header_prefix_length by assumption.
  rewrite hist_hdr_tail_length by reflexivity.
  destruct (supported_cases P H) as [-> | [-> | [-> | ->]]]; reflexivity.
Qed.

Lemma pow256_ptr (P : platform) :
  supported P = true ->
  256 ^ Z.of_nat (Z.to_nat (ptr_bytes P)) = word_modulus P.
Proof.
  intro H. destruct (supported_cases P H) as [-> | [-> | [-> | ->]]];
    reflexivity.
Qed.

Lemma word_modulus_pos (P : platform) :
  supported P = true -> 0 < word_modulus P.
Proof.
  intro H. destruct (word_modulus_cases P H) as [-> | ->]; lia.
Qed.

Lemma main_record_offset_nonneg (P : platform) :
  supported P = true -> 0 <= main_record_offset P /\ 0 <= ptr_bytes P.
Proof.
  intro H. destruct (supported_cases P H) as [-> | [-> | [-> | ->]]];
    vm_compute; split; discriminate.
Qed.

Lemma header_low_pc_make (P : platform) (f l n s : Z) :
  supported P = true -> 0 <= l < word_modulus P ->
  header_low_pc P (make_gmon_header P f l n s) = l.
Proof.
  intros H Hl. unfold header_low_pc. rewrite make_gmon_header_split.
  destruct (main_record_offset_nonneg P H) as [H0 H1].
  rewrite slice_exact; try assumption.
  - rewrite le_value_le_bytes, pow256_ptr by assumption.
    now apply Z.mod_small.
  - rewrite header_prefix_length by assumption. lia.
  - rewrite le_bytes_length. lia.
Qed.

Lemma header_high_pc_make (P : platform) (f l n s : Z) :
  supported P = true ->
  header_high_pc P (make_gmon_header P f l n s)
  = to_word P (l + n * bin_width s).
Proof.
  intros H. unfold header_high_pc. rewrite make_gmon_header_split.
  destruct (main_record_offset_nonneg P H) as [H0 H1].
  rewrite app_assoc.
  rewrite slice_exact; try assumption; try lia.
  - rewrite le_value_le_bytes, pow256_ptr by assumption.
    apply to_word_idem.
  - rewrite length_app, le_bytes_length, header_prefix_length by assumption.
    lia.
  - rewrite le_bytes_length. lia.
Qed.





(** C4 (as amended): on every supported target the header size is a
    multiple of the alignment of [unsigned short] and is the length of the
    built header; the dummy record is part of the header exactly when the
    size of the magic/version record plus one tagged histogram record is
    not such a multiple; the bytes in front of the main record do not
    depend on [lowpc] and [nsamples]; and the dummy record has [low_pc] 0,
    [hist_size] 1 and for [high_pc] the bin width [65536 * 2 / scale], so
    that it follows the scale. *)
Theorem header_alignment_and_dummy (P : platform) (f l n s : Z) :
  supported P = true ->
  HEADER_SIZE P mod alignof_ushort P = 0 /\
  Z.of_nat (List.length (make_gmon_header P f l n s)) = HEADER_SIZE P /\
  make_gmon_header P f l n s =
    ghdr_bytes ++
    (if BASE_HEADER_SIZE P mod alignof_ushort P =? 0 then []
     else dummy_record_bytes P f s) ++
    [GMON_TAG_TIME_HIST] ++ hist_hdr_bytes P (main_hist_hdr P f l n s) /\
  (forall l' n',
     firstn (Z.to_nat (main_record_offset P)) (make_gmon_header P f l n s)
     = firstn (Z.to_nat (main_record_offset P)) (make_gmon_header P f l' n' s)) /\
  low_pc (dummy_hist_hdr P f s) = 0 /\
  hist_size (dummy_hist_hdr P f s) = 1 /\
  high_pc (dummy_hist_hdr P f s) = to_word P (bin_width s).
Proof.
  intro HP. repeat split.
  - destruct (supported_cases P HP) as [-> | [-> | [-> | ->]]]; reflexivity.
  - now apply make_gmon_header_length.
  - unfold make_gmon_header, NEED_DUMMY_HIST_HDR.
    now destruct (BASE_HEADER_SIZE P mod alignof_ushort P =? 0).
  - intros l' n'. rewrite !make_gmon_header_split.
    rewrite <- (header_prefix_length P f s HP).
    now rewrite !firstn_app, !firstn_all, !Nat.sub_diag, !firstn_O.
Qed.

Lemma header_alignment_and_dummy_witness :
  HEADER_SIZE lp64 mod alignof_ushort lp64 = 0 /\
  Z.of_nat (List.length (make_gmon_header lp64 100 4096 8 32768))
  = HEADER_SIZE lp64.
Proof.
  pose proof (header_alignment_and_dummy lp64 100 4096 8 32768 eq_refl) as H.
  split; [ exact (proj1 H) | exact (proj1 (proj2 H)) ].
Defined.

(** C4 (the claim as stated fails): on x86-64 the dummy record is written,
    and its [high_pc] field is 4 for the scale 32768 and 2 for the scale
    65536, all other inputs being equal: the field depends on the scale
    handed to the bootstrap. *)
Lemma dummy_record_follows_scale :
  NEED_DUMMY_HIST_HDR lp64 = true /\
  header_dummy_high_pc lp64 (make_gmon_header lp64 100 4096 8 32768) = 4 /\
  header_dummy_high_pc lp64 (make_gmon_header lp64 100 4096 8 65536) = 2.
Proof. repeat split. Qed.

End HeaderFacts.

(** *** Scale and buffer sizes *)

Section SizerFacts.
Import CTypes Gmon Sizer ScaleText.

(** For a segment size below [SIZE_MAX] the four tests of the source
    fire exactly when the exact product, sample count, buffer size or
    file size does not fit its type, and otherwise the three sizes are
    the exact ones. *)
Lemma buffer_sizes_exact (P : platform) (memsz s_scale : Z) :
  supported P = true ->
  0 <= memsz < SIZE_MAX P -> 0 <= s_scale ->
  let half := (memsz + 1) / 2 in
  let n := half * s_scale / 65536 in
  buffer_sizes P memsz s_scale =
  if (half * s_scale <? uintmax_modulus) && (n <? word_modulus P)
     && (n * sizeof_ushort <? word_modulus P)
     && (n * sizeof_ushort + HEADER_SIZE P <? word_modulus P)
  then Some (mkSizes n (n * sizeof_ushort) (n * sizeof_ushort + HEADER_SIZE P))
  else None.
Proof.
  intros HP Hm Hs half n. unfold buffer_sizes, SIZE_MAX in *.
  rewrite to_word_small by lia. fold half.
  unfold builtin_mul_overflow, builtin_add_overflow.
  destruct (half * s_scale <? uintmax_modulus) eqn:E1; [ | reflexivity ].
  fold n. cbn [andb].
  assert (Hn : 0 <= n).
  { unfold n. apply Z.div_pos; [ | lia ].
    apply Z.mul_nonneg_nonneg; [ | lia ]. unfold half.
    apply Z.div_pos; lia. }
  destruct (n <? word_modulus P) eqn:E2; cbn [andb].
  - apply Z.ltb_lt in E2. rewrite to_word_small by lia.
    rewrite Z.eqb_refl. cbn [negb].
    destruct (n * sizeof_ushort <? word_modulus P); cbn [andb];
      [ | reflexivity ].
    now destruct (n * sizeof_ushort + HEADER_SIZE P <? word_modulus P).
  - apply Z.ltb_ge in E2.
    assert (Hw := word_modulus_pos P HP).
    assert (Hlt : to_word P n < word_modulus P)
      by (unfold to_word, wrap; apply Z.mod_pos_bound; lia).
    destruct (to_word P n =? n) eqn:E3; [ apply Z.eqb_eq in E3; lia | ].
    reflexivity.
Qed.

(** C2 (defect in the code): for a segment of [SIZE_MAX] bytes and the
    default scale, [memsz + 1] wraps to 0 before any of the overflow
    tests, so the sizes come out as 0 samples and a file of [HEADER_SIZE]
    bytes, although the exact product [floor((memsz + 1) / 2) * s_scale]
    does not fit [uintmax_t]; the bootstrap of such an executable prints
    no diagnostic and calls [profil] with a buffer of 0 bytes. *)
Theorem buffer_sizes_wraps_at_SIZE_MAX :
  buffer_sizes lp64 (SIZE_MAX lp64) default_s_scale
  = Some (mkSizes 0 0 (HEADER_SIZE lp64)) /\
  uintmax_modulus <= (SIZE_MAX lp64 + 1) / 2 * default_s_scale /\
  Bootstrap.trace
    (snd (Bootstrap.la_preinit Select.fnmatch_literal lp64 Runs.huge_process
            Runs.kind_kernel (Bootstrap.initial_world [])))
  = [ Bootstrap.ev_open "/var/tmp/prog.profile" 3;
      Bootstrap.ev_fstat 3;
      Bootstrap.ev_posix_fallocate 3 0 104;
      Bootstrap.ev_mmap 104 3 139637976727552;
      Bootstrap.ev_close 3;
      Bootstrap.ev_memcpy 139637976727552
        (make_gmon_header lp64 100 4096 0 32768);
      Bootstrap.ev_profil 139637976727656 0 93824992235520 32768 ].
Proof.
  split; [ reflexivity | ].
  split; [ vm_compute; discriminate | vm_compute; reflexivity ].
Qed.

(** The end-to-end example of the specification: 65536 bytes at the
    default scale. *)
Example buffer_sizes_64k :
  buffer_sizes lp64 65536 default_s_scale
  = Some (mkSizes 16384 32768 (32768 + HEADER_SIZE lp64)).
Proof. reflexivity. Qed.

(** [sscanf] stores an [unsigned int]. *)
Lemma sscanf_u_c_range (P : platform) (env : string) (v : Z) :
  sscanf_u_c P env = scan_one v -> 0 <= v < uint_modulus.
Proof.
  unfold sscanf_u_c.
  destruct (match skip_space env with
            | String "-" s' => (true, s')
            | String "+" s' => (false, s')
            | _ => (false, skip_space env)
            end) as [negative s0].
  destruct (scan_digits s0 0 false) as [[v0 seen] rest].
  destruct seen; [ | discriminate ].
  destruct (skip_space rest); [ | discriminate ].
  intro H. injection H as <-. unfold to_u32, wrap.
  apply Z.mod_pos_bound. reflexivity.
Qed.

(** What [scale_override] does with a value that is present, in terms
    of the result of [sscanf]. *)
Lemma scale_override_some (P : platform) (env : string) :
  scale_override P (Some env) =
  match sscanf_u_c P env with
  | scan_one v =>
      if (1 <=? v) && (v <=? SCALE_1_TO_1 * sizeof_ushort)
      then Some (SCALE_1_TO_1 * sizeof_ushort / v) else None
  | _ => None
  end.
Proof.
  unfold scale_override.
  destruct (sscanf_u_c P env) as [ | v | v ] eqn:E; try reflexivity.
  apply sscanf_u_c_range in E.
  change (SCALE_1_TO_1 * sizeof_ushort) with 131072.
  destruct (v =? 0) eqn:E0.
  - apply Z.eqb_eq in E0. subst v. reflexivity.
  - apply Z.eqb_neq in E0.
    assert (E1 : (1 <=? v) = true) by (apply Z.leb_le; lia).
    rewrite E1. cbn [andb].
    destruct (v <=? 131072) eqn:E2.
    + apply Z.leb_le in E2.
      assert (1 <= 131072 / v) by (apply Z.div_le_lower_bound; lia).
      assert (131072 / v <= 131072)
        by (apply Z.div_le_upper_bound; lia).
      unfold to_u32, wrap, uint_modulus.
      rewrite Z.mod_small by lia.
      destruct (131072 / v =? 0) eqn:E3; [ apply Z.eqb_eq in E3; lia | ].
      reflexivity.
    + apply Z.leb_gt in E2. rewrite Z.div_small by lia. reflexivity.
Qed.








(** The value is what [sscanf] stores in an [unsigned int]:
    [4294967297] and [-4294967295] are stored as 1 and accepted. *)
Example scale_is_stored_as_unsigned_int :
  scale_override lp64 (Some "4294967297"%string) = Some 131072 /\
  scale_override lp64 (Some "-4294967295"%string) = Some 131072 /\
  "4294967297"%string = signed_numeral false [4; 2; 9; 4; 9; 6; 7; 2; 9; 7] /\
  "-4294967295"%string = signed_numeral true [4; 2; 9; 4; 9; 6; 7; 2; 9; 5].
Proof. repeat split; reflexivity. Qed.




End SizerFacts.

(** *** Target selection *)

Section SelectFacts.
Import CTypes Proc Select Bootstrap.

Variable fnmatch : string -> string -> Z -> bool.

Lemma scan_token_split (s : string) :
  exists tl,
    split_colon s = fst (scan_token s) :: tl /\
    filter nonempty tl = pattern_list (snd (scan_token s)).
Proof.
  induction s as [|c s IH].
  - exists []. split; reflexivity.
  - cbn [split_colon scan_token]. destruct (is_char c ":").
    + exists (split_colon s). split; reflexivity.
    + destruct IH as [tl [H1 H2]]. rewrite H1.
      destruct (scan_token s) as [t r]. exists tl. split; [ reflexivity | ].
      exact H2.
Qed.

Lemma scan_token_rest_length (s : string) :
  (String.length (snd (scan_token s)) <= String.length s)%nat.
Proof.
  induction s as [|c s IH]; [ apply Nat.le_refl | ].
  cbn [scan_token]. destruct (is_char c ":").
  - cbn. apply Nat.le_succ_diag_r.
  - destruct (scan_token s) as [t r]. cbn in *. now apply Nat.le_le_succ_r.
Qed.

(** Each call of [strtok_r] yields the next pattern of the list and
    resumes on a strictly shorter input. *)
Lemma strtok_r_pattern_list (s : string) :
  match strtok_r s with
  | None => pattern_list s = []
  | Some (p, r) =>
      pattern_list s = p :: pattern_list r /\
      (String.length r < String.length s)%nat
  end.
Proof.
  induction s as [|c s IH]; [ reflexivity | ].
  unfold strtok_r in *. cbn [skip_delim].
  destruct (is_char c ":") eqn:E.
  - assert (Hp : pattern_list (String c s) = pattern_list s).
    { unfold pattern_list. cbn [split_colon]. now rewrite E. }
    rewrite Hp. destruct (skip_delim s) as [|c' s'] eqn:Es; [ exact IH | ].
    destruct (scan_token (String c' s')) as [p r].
    destruct IH as [IH1 IH2]. split; [ exact IH1 | ].
    cbn. now apply Nat.lt_lt_succ_r.
  - destruct (scan_token_split (String c s)) as [tl [H1 H2]].
    pose proof (scan_token_rest_length s) as Hlen.
    cbn [scan_token] in *. rewrite E in *.
    destruct (scan_token s) as [t r]. cbn [fst snd] in *.
    split.
    + unfold pattern_list at 1. rewrite H1. cbn [filter nonempty].
      now rewrite H2.
    + cbn. now apply Nat.lt_succ_r.
Qed.

Lemma pattern_test_enables (path inv short p : string) :
  pattern_test fnmatch (Some path) (Some (basename path)) inv short p
  = Some (pattern_enables fnmatch path inv short p).
Proof.
  unfold pattern_test, pattern_enables, fnmatch0.
  destruct (has_char p "/").
  - now destruct (fnmatch p path FNM_PATHNAME).
  - now destruct (fnmatch p (basename path) FNM_PATHNAME).
Qed.

(** With enough fuel the loop over the tokens returns the program name
    exactly when some pattern of the list enables profiling. *)
Lemma token_loop_exists (path inv short retval : string) (fuel : nat)
    (rest : string) :
  (String.length rest < fuel)%nat ->
  token_loop fnmatch fuel (Some path) (Some (basename path)) inv short
    retval rest
  = if existsb (pattern_enables fnmatch path inv short) (pattern_list rest)
    then sel_name retval else sel_null.
Proof.
  revert rest. induction fuel as [|fuel IH]; intros rest Hlen.
  - inversion Hlen.
  - cbn [token_loop]. pose proof (strtok_r_pattern_list rest) as Hs.
    destruct (strtok_r rest) as [[p r]|].
    + destruct Hs as [Hs Hr]. rewrite Hs. cbn [existsb].
      rewrite pattern_test_enables.
      destruct (pattern_enables fnmatch path inv short p); [ reflexivity | ].
      cbn [orb]. apply IH. lia.
    + rewrite Hs. reflexivity.
Qed.

(** The fuel [match_program_name] gives the loop is never used up. *)
Lemma token_loop_total (e b : option string) (inv short retval : string)
    (fuel : nat) (rest : string) :
  (String.length rest < fuel)%nat ->
  token_loop fnmatch fuel e b inv short retval rest <> sel_fuel.
Proof.
  revert rest. induction fuel as [|fuel IH]; intros rest Hlen.
  - inversion Hlen.
  - cbn [token_loop]. pose proof (strtok_r_pattern_list rest) as Hs.
    destruct (strtok_r rest) as [[p r]|]; [ | discriminate ].
    destruct Hs as [_ Hr].
    destruct (pattern_test fnmatch e b inv short p) as [[|]|];
      try discriminate.
    apply IH. lia.
Qed.

Lemma match_program_name_total (pr : process) :
  match_program_name fnmatch pr <> sel_fuel.
Proof.
  unfold match_program_name.
  destruct (getenv pr (ENV_PREFIX ++ "PROFILE")) as [env | ];
    [ | discriminate ].
  apply token_loop_total. apply Nat.lt_succ_diag_r.
Qed.

(** Without [AT_EXECFN] the first pattern reaches [fnmatch] with a null
    string. *)
Lemma token_loop_null_execfn (inv short retval : string) (fuel : nat)
    (rest : string) :
  (String.length rest < fuel)%nat ->
  token_loop fnmatch fuel None None inv short retval rest
  = match pattern_list rest with
    | [] => sel_null
    | _ :: _ => sel_undefined
    end.
Proof.
  intro Hlen. destruct fuel as [|fuel]; [ inversion Hlen | ].
  cbn [token_loop]. pose proof (strtok_r_pattern_list rest) as Hs.
  destruct (strtok_r rest) as [[p r]|].
  - destruct Hs as [-> _]. unfold pattern_test, fnmatch0.
    now destruct (has_char p "/").
  - now rewrite Hs.
Qed.

(** C7 (defect in the code): for every invocation, (1) without
    [SP_PROFILE] the selector returns NULL, and [la_preinit] returns at
    once, with no diagnostic and no call other than the debug trace of
    its entry; (2) with [SP_PROFILE] set and the execution path known,
    the selector returns the program name exactly when some pattern of
    the list enables profiling, where a pattern with a slash is matched
    by [fnmatch] under [FNM_PATHNAME] against the execution path and the
    invocation name, and a pattern without one against the base names
    of both; (3) the first pattern of the list that enables profiling
    decides: the patterns after it are not looked at; (4) with
    [SP_PROFILE] set and no [AT_EXECFN] entry, for which the source
    falls back on [program_invocation_short_name], the first pattern of
    the list is matched against a null pointer: the call of [fnmatch]
    has no defined behaviour, and so has [la_preinit]. *)
Theorem match_program_name_spec (pr : process) :
  let enables path :=
    pattern_enables fnmatch path (program_invocation_name pr)
      (program_invocation_short_name pr) in
  (getenv pr "SP_PROFILE" = None ->
   match_program_name fnmatch pr = sel_null /\
   forall P k w,
     la_preinit fnmatch P pr k w
     = (Returned, snd (DPRINTF (debug_enabled pr) msg_entering w))) /\
  (forall env path,
     getenv pr "SP_PROFILE" = Some env -> execfn pr = Some path ->
     match_program_name fnmatch pr
     = if existsb (enables path) (pattern_list env)
       then sel_name (basename path) else sel_null) /\
  (forall env path before p after,
     getenv pr "SP_PROFILE" = Some env -> execfn pr = Some path ->
     pattern_list env = before ++ p :: after ->
     enables path p = true ->
     match_program_name fnmatch pr = sel_name (basename path)) /\
  (forall env,
     getenv pr "SP_PROFILE" = Some env -> execfn pr = None ->
     match_program_name fnmatch pr
     = match pattern_list env with
       | [] => sel_null
       | _ :: _ => sel_undefined
       end /\
     (pattern_list env <> [] ->
      forall P k w,
        la_preinit fnmatch P pr k w
        = (Undefined, snd (DPRINTF (debug_enabled pr) msg_entering w)))).
Proof.
  intro enables.
  assert (Hsome : forall env path,
            getenv pr "SP_PROFILE" = Some env -> execfn pr = Some path ->
            match_program_name fnmatch pr
            = if existsb (enables path) (pattern_list env)
              then sel_name (basename path) else sel_null).
  { intros env path Henv Hexec. unfold match_program_name.
    change (ENV_PREFIX ++ "PROFILE")%string with "SP_PROFILE"%string.
    rewrite Henv, Hexec. cbn [option_map].
    apply token_loop_exists. apply Nat.lt_succ_diag_r. }
  assert (Hnull : forall env,
            getenv pr "SP_PROFILE" = Some env -> execfn pr = None ->
            match_program_name fnmatch pr
            = match pattern_list env with
              | [] => sel_null
              | _ :: _ => sel_undefined
              end).
  { intros env Henv Hexec. unfold match_program_name.
    change (ENV_PREFIX ++ "PROFILE")%string with "SP_PROFILE"%string.
    rewrite Henv, Hexec. cbn [option_map].
    apply token_loop_null_execfn. apply Nat.lt_succ_diag_r. }
  split; [ | split; [ | split ] ].
  - intro H. split.
    + unfold match_program_name.
      change (ENV_PREFIX ++ "PROFILE")%string with "SP_PROFILE"%string.
      now rewrite H.
    + intros P k w. unfold la_preinit, prepare, bind, match_program_name.
      change (ENV_PREFIX ++ "PROFILE")%string with "SP_PROFILE"%string.
      rewrite H. unfold DPRINTF. now destruct (debug_enabled pr).
  - exact Hsome.
  - intros env path before p after Henv Hexec Hlist Hp.
    rewrite (Hsome env path Henv Hexec), Hlist.
    rewrite existsb_app. cbn [existsb]. rewrite Hp.
    now rewrite orb_true_r.
  - intros env Henv Hexec. split; [ now apply Hnull | ].
    intros Hne P k w. unfold la_preinit, prepare, bind.
    rewrite (Hnull env Henv Hexec).
    destruct (pattern_list env) as [|p l]; [ contradiction | ].
    unfold DPRINTF. now destruct (debug_enabled pr).
Qed.

End SelectFacts.

Lemma match_program_name_spec_witness :
  Select.match_program_name Select.fnmatch_literal Runs.two_pattern_process
  = Select.sel_name "prog" /\
  Select.match_program_name Select.fnmatch_literal Runs.no_execfn_process
  = Select.sel_undefined /\
  fst (Bootstrap.la_preinit Select.fnmatch_literal CTypes.lp64
         Runs.no_execfn_process Runs.kind_kernel (Bootstrap.initial_world []))
  = Bootstrap.Undefined.
Proof.
  destruct (match_program_name_spec Select.fnmatch_literal
              Runs.two_pattern_process) as (_ & H & _).
  destruct (match_program_name_spec Select.fnmatch_literal
              Runs.no_execfn_process) as (_ & _ & _ & H').
  destruct (H' "prog"%string eq_refl eq_refl) as [Hm Hl].
  split; [ | split ].
  - rewrite (H "/opt/bin/prog:prog"%string "/usr/bin/prog"%string
               eq_refl eq_refl).
    reflexivity.
  - rewrite Hm. reflexivity.
  - rewrite Hl; [ reflexivity | discriminate ].
Defined.

(** *** The segment locator *)

Section LocateFacts.
Import CTypes Proc Locate.

Lemma PT_PHDR_not_exec_load (ph : Elf_Phdr) :
  (p_type ph =? PT_PHDR) = true -> is_exec_load ph = false.
Proof.
  intro H. apply Z.eqb_eq in H. unfold is_exec_load. rewrite H. reflexivity.
Qed.

(** The walk, entered at entry [k] with [i] entries left and the bias
    probed so far, stops at the first eligible entry at or after [k], or
    finds none among the [i] entries. *)
Lemma phdr_loop_spec (P : platform) (pr : process) (phdr : Z) (i k : nat) :
  (forall j, (j < k)%nat -> is_exec_load (phdr_at pr j) = false) ->
  match phdr_loop P pr phdr k i (probed_bias P pr phdr k) with
  | Some seg =>
      exists j, first_exec_load pr (k + i) j /\
        seg = mkSegment (probed_bias P pr phdr j)
                (to_word P (probed_bias P pr phdr j + p_vaddr (phdr_at pr j)))
                (p_memsz (phdr_at pr j))
  | None =>
      forall j, (j < k + i)%nat -> is_exec_load (phdr_at pr j) = false
  end.
Proof.
  revert k. induction i as [|i IH]; intros k Hk.
  - cbn [phdr_loop]. intros j Hj. apply Hk. lia.
  - cbn [phdr_loop].
    assert (Hstep : is_exec_load (phdr_at pr k) = false ->
                    forall j, (j < S k)%nat ->
                              is_exec_load (phdr_at pr j) = false).
    { intros Hf j Hj. destruct (Nat.eq_dec j k) as [-> | Hne];
        [ exact Hf | apply Hk; lia ]. }
    destruct (p_type (phdr_at pr k) =? PT_PHDR) eqn:Et.
    + specialize (IH (S k) (Hstep (PT_PHDR_not_exec_load _ Et))).
      cbn [probed_bias] in IH. rewrite Et in IH.
      replace (k + S i)%nat with (S k + i)%nat by lia. exact IH.
    + destruct (is_exec_load (phdr_at pr k)) eqn:Ee.
      * exists k. split; [ | reflexivity ].
        repeat split; [ lia | exact Ee | exact Hk ].
      * specialize (IH (S k) (Hstep eq_refl)).
        cbn [probed_bias] in IH. rewrite Et in IH.
        replace (k + S i)%nat with (S k + i)%nat by lia. exact IH.
Qed.

Lemma first_exec_load_unique (pr : process) (n j k : nat) :
  first_exec_load pr n j -> first_exec_load pr n k -> j = k.
Proof.
  intros (_ & Hj & Hjm) (_ & Hk & Hkm).
  destruct (Nat.lt_trichotomy j k) as [Hlt | [Heq | Hgt]]; [ | exact Heq | ].
  - rewrite (Hkm j Hlt) in Hj. discriminate.
  - rewrite (Hjm k Hgt) in Hk. discriminate.
Qed.

Ltac eqb_hyps :=
  repeat match goal with
  | H : (_ =? _) = true |- _ => apply Z.eqb_eq in H
  | H : (_ =? _) = false |- _ => apply Z.eqb_neq in H
  end.

(** C6 (as amended): the segment locator yields a segment exactly when
    [AT_PHENT] is absent (0) or equal to the size of a program header,
    [AT_PHNUM] is non-zero and fits [unsigned int], [AT_PHDR] is non-zero,
    one of the [AT_PHNUM] entries is loadable, executable and of non-zero
    memory size, and [l_addr] equals the bias probed in front of the
    first such entry ([AT_PHDR] minus the [p_vaddr] of the last [PT_PHDR]
    entry in front of it, 0 without one); it then yields
    [low_pc = load bias + p_vaddr] (as [uintptr_t]) and [mem_size = p_memsz]
    of that first entry.  In every other case it aborts. *)
Theorem locate_segment_spec (P : platform) (pr : process) :
  let phent := getauxval pr AT_PHENT in
  let phnum := getauxval pr AT_PHNUM in
  let phdr := getauxval pr AT_PHDR in
  let accepted (seg : segment) :=
    (phent = 0 \/ phent = sizeof_Phdr P) /\
    phnum <> 0 /\ to_u32 phnum = phnum /\ phdr <> 0 /\
    exists k, first_exec_load pr (Z.to_nat phnum) k /\
      l_addr pr = probed_bias P pr phdr k /\
      seg = mkSegment (l_addr pr)
              (to_word P (l_addr pr + p_vaddr (phdr_at pr k)))
              (p_memsz (phdr_at pr k)) in
  (forall seg, locate_segment P pr = inr seg <-> accepted seg) /\
  ((exists e, locate_segment P pr = inl e) <-> ~ exists seg, accepted seg).
Proof.
  intros phent phnum phdr accepted.
  assert (Hloop :
    match phdr_loop P pr phdr 0 (Z.to_nat phnum) 0 with
    | Some seg =>
        exists j, first_exec_load pr (Z.to_nat phnum) j /\
          seg = mkSegment (probed_bias P pr phdr j)
                  (to_word P (probed_bias P pr phdr j + p_vaddr (phdr_at pr j)))
                  (p_memsz (phdr_at pr j))
    | None =>
        forall j, (j < Z.to_nat phnum)%nat ->
                  is_exec_load (phdr_at pr j) = false
    end).
  { apply (phdr_loop_spec P pr phdr (Z.to_nat phnum) O).
    intros j Hj. inversion Hj. }
  assert (Hinr : forall seg, locate_segment P pr = inr seg <-> accepted seg).
  { intro seg. unfold locate_segment, accepted. fold phent phnum phdr. split.
    - destruct (phent =? 0) eqn:E0; destruct (phent =? sizeof_Phdr P) eqn:E1;
        cbn [negb andb]; try discriminate.
      all: destruct (phnum =? 0) eqn:E2; cbn [orb]; try discriminate.
      all: destruct (to_u32 phnum =? phnum) eqn:E3; cbn [negb];
        try discriminate.
      all: destruct (phdr =? 0) eqn:E4; try discriminate.
      all: eqb_hyps; rewrite E3.
      all: destruct (phdr_loop P pr phdr 0 (Z.to_nat phnum) 0) as [s | ];
        try discriminate.
      all: destruct Hloop as [j [Hj ->]]; cbn [load_addr].
      all: destruct (l_addr pr =? probed_bias P pr phdr j) eqn:E5;
        cbn [negb]; try discriminate.
      all: eqb_hyps; intro H; injection H as <-.
      all: repeat split; auto; exists j; rewrite E5; auto.
    - intros (Hent & Hnum & Hfit & Hphdr & k & Hk & Hb & ->).
      replace (negb (phent =? 0) && negb (phent =? sizeof_Phdr P))
        with false
        by (destruct Hent as [-> | ->]; rewrite Z.eqb_refl;
            now rewrite ?andb_false_r).
      apply Z.eqb_neq in Hnum, Hphdr. rewrite Hnum, Hphdr, Hfit, Z.eqb_refl.
      cbn [orb negb].
      destruct (phdr_loop P pr phdr 0 (Z.to_nat phnum) 0) as [s | ].
      + destruct Hloop as [j [Hj ->]]. cbn [load_addr].
        rewrite (first_exec_load_unique pr _ j k Hj Hk), <- Hb, Z.eqb_refl.
        reflexivity.
      + destruct Hk as (Hk & He & _). rewrite (Hloop k Hk) in He.
        discriminate. }
  split; [ exact Hinr | ].
  split.
  - intros [e He] [seg Hseg]. apply Hinr in Hseg. congruence.
  - intro H. destruct (locate_segment P pr) as [e | seg] eqn:E.
    + now exists e.
    + exfalso. apply H. exists seg. now apply Hinr.
Qed.

(** C6 (the claim as stated fails): when the auxiliary vector has no
    [AT_PHENT] entry, [getauxval] returns 0, which is not the size of a
    program header (56 on x86-64), and the segment locator does not
    abort: it yields the code segment of the executable. *)
Lemma locate_segment_accepts_absent_phent :
  getauxval Runs.no_phent_process AT_PHENT <> sizeof_Phdr lp64 /\
  locate_segment lp64 Runs.no_phent_process
  = inr (mkSegment 93824992231424 93824992235520 16).
Proof. split; [ discriminate | reflexivity ]. Qed.

End LocateFacts.

(** *** The profile store and sampling activation *)

Section BootstrapFacts.
Import CTypes Gmon Proc Select Locate Sizer Bootstrap.

Ltac only_eprintf :=
  let e := fresh "e" in
  let He := fresh "He" in
  intros e He; cbn [In] in He;
  repeat (destruct He as [<- | He]; [ eauto | ]); contradiction.

(** Up to the file name, [la_preinit] only prints: it leaves the file,
    the descriptors, the mappings and the sampler alone; and the plan it
    yields is made of what the segment locator, the scale override and
    the buffer sizer return. *)
Lemma prepare_quiet fnmatch P pr w :
  let run := prepare fnmatch P pr w in
  file (snd run) = file w /\ open_fds (snd run) = open_fds w /\
  mappings (snd run) = mappings w /\ sampling (snd run) = sampling w /\
  (exists evs, trace (snd run) = trace w ++ evs /\
     forall e, In e evs -> exists tag m, e = ev_eprintf tag m) /\
  (forall pl, fst run = Next pl ->
     pl_debug pl = debug_enabled pr /\
     locate_segment P pr = inr (pl_segment pl) /\
     scale_override P (getenv pr "SP_SCALE") = Some (pl_s_scale pl) /\
     buffer_sizes P (memsz (pl_segment pl)) (pl_s_scale pl) = Some (pl_sizes pl)).
Proof.
  unfold prepare.
  change (ENV_PREFIX ++ "SCALE")%string with "SP_SCALE"%string.
  unfold bind, DPRINTF, EPRINTF, emit, ret, return_, undefined.
  destruct (debug_enabled pr); cbn [fst snd];
  destruct (match_program_name fnmatch pr); cbn [fst snd];
  try (destruct (locate_segment P pr) as [[] | seg] eqn:El; cbn [fst snd]);
  try (destruct (scale_override P (getenv pr "SP_SCALE")) as [s_scale | ]
         eqn:Es; cbn [fst snd]);
  try (destruct (buffer_sizes P (memsz seg) s_scale) as [sz | ] eqn:Eb;
       cbn [fst snd]);
  cbn [file open_fds mappings sampling trace];
  (split; [ reflexivity | split; [ reflexivity | split; [ reflexivity |
    split; [ reflexivity | split ] ] ] ]);
  try (intros pl Hpl; try discriminate; injection Hpl as <-;
       cbn [pl_debug pl_segment pl_s_scale pl_sizes];
       repeat split; assumption || reflexivity);
  rewrite <- ?app_assoc; cbn [app];
  try (eexists; split; [ reflexivity | only_eprintf ]);
  try (exists []; split; [ now rewrite app_nil_r | only_eprintf ]).
Qed.

Ltac unfold_store :=
  unfold store_and_activate, bind, sys_open, sys_fstat, sys_posix_fallocate,
    sys_mmap, sys_close, sys_munmap, map_memcpy, map_memcmp, sys_profil,
    DPRINTF, EPRINTF, emit, ret, return_;
  cbn [fst snd file open_fds mappings sampling trace].

Ltac split_ifs :=
  repeat (match goal with
          | |- context [if ?c then _ else _] => destruct c eqn:?
          end;
          cbn [fst snd file open_fds mappings sampling trace negb]).

Ltac in_cases H :=
  cbn [In] in H;
  repeat (destruct H as [H | H]; [ try discriminate H | ]);
  try contradiction.

Lemma remove_fd_self (fd : Z) : remove_fd fd [fd] = [].
Proof. unfold remove_fd. cbn. now rewrite Z.eqb_refl. Qed.

Lemma remove_mapping_self (b l : Z) : remove_mapping b l [(b, l)] = [].
Proof. unfold remove_mapping. cbn. now rewrite !Z.eqb_refl. Qed.

(** The calls of the store stage: every [open] is followed by a [close]
    of its descriptor, every successful [mmap] by a [munmap] unless
    sampling is activated, and [profil] is called with the buffer behind
    the header, on a file that starts with the built header. *)
Lemma store_trace P pr k pl w :
  let run := store_and_activate P pr k pl w in
  exists evs,
    trace (snd run) = trace w ++ evs /\
    (forall path fd, In (ev_open path fd) evs -> In (ev_close fd) evs) /\
    (forall len fd base,
       In (ev_mmap len fd base) evs -> base <> MAP_FAILED ->
       fst run <> Next tt -> In (ev_munmap base len) evs) /\
    (forall buf bufsiz lowpc scale,
       In (ev_profil buf bufsiz lowpc scale) evs ->
       buf = mmap_result k + HEADER_SIZE P /\
       bufsiz = Sizer.bufsiz (pl_sizes pl) /\
       lowpc = Locate.lowpc (pl_segment pl) /\
       scale = pl_s_scale pl /\
       firstn (List.length (built_header P pr pl)) (file (snd run))
       = built_header P pr pl).
Proof.
  unfold_store. split_ifs.
  all: rewrite <- ?app_assoc; cbn [app].
  all: eexists; split; [ reflexivity | ].
  all: split; [ | split ].
  all: try (intros path fd H; in_cases H; injection H as <- <-;
            cbn [In]; auto 12).
  all: try (intros len fd base H Hb Hr; in_cases H; injection H as <- <- <-;
            try (exfalso; apply Hr; reflexivity);
            try (exfalso; apply Hb; apply Z.eqb_eq; assumption);
            cbn [In]; auto 12).
  all: intros buf bufsiz lowpc scale H; in_cases H.
  all: injection H as <- <- <- <-.
  all: repeat split; try reflexivity; try assumption.
  all: try (rewrite firstn_app, firstn_all, Nat.sub_diag, firstn_O;
    apply app_nil_r).
  all: match goal with
       | H : (if list_eq_dec Z.eq_dec ?a ?b then _ else _) = false |- _ =>
           destruct (list_eq_dec Z.eq_dec a b); [ assumption | discriminate ]
       end.
Qed.

(** The descriptors and mappings held when the store stage is over. *)
Lemma store_resources P pr k pl w :
  open_fds w = [] -> mappings w = [] ->
  let run := store_and_activate P pr k pl w in
  open_fds (snd run) = [] /\
  (fst run = Next tt ->
   mappings (snd run) = [(mmap_result k, mapsiz (pl_sizes pl))] /\
   sampling (snd run)
   = Some (mmap_result k + HEADER_SIZE P, bufsiz (pl_sizes pl),
           lowpc (pl_segment pl), pl_s_scale pl)) /\
  (fst run = Returned -> mappings (snd run) = []) /\
  fst run <> Undefined.
Proof.
  intros Hfd Hmap. unfold_store. rewrite Hfd, Hmap.
  split_ifs.
  all: rewrite ?remove_fd_self, ?remove_mapping_self.
  all: repeat split; try reflexivity; try discriminate.
Qed.

(** The store stage on a file that is not empty when it is opened. *)
Lemma store_existing_file P pr k pl w :
  0 <= open_result k -> fstat_result k = 0 -> file w <> [] ->
  let run := store_and_activate P pr k pl w in
  let fd := open_result k in
  let mapsiz := mapsiz (pl_sizes pl) in
  (Z.of_nat (List.length (file w)) <> mapsiz ->
   fst run = Returned /\ file (snd run) = file w /\
   trace (snd run)
   = trace w ++ [ev_open (pl_fnbuf pl) fd; ev_fstat fd;
                 ev_eprintf "error" (msg_size_mismatch mapsiz);
                 ev_close fd]) /\
  (Z.of_nat (List.length (file w)) = mapsiz ->
   firstn (List.length (built_header P pr pl)) (file w)
   <> built_header P pr pl ->
   fst run = Returned /\ file (snd run) = file w /\
   (trace (snd run)
    = trace w ++ [ev_open (pl_fnbuf pl) fd; ev_fstat fd;
                  ev_mmap mapsiz fd (mmap_result k);
                  ev_eprintf "error" msg_mmap; ev_close fd] \/
    trace (snd run)
    = trace w ++ [ev_open (pl_fnbuf pl) fd; ev_fstat fd;
                  ev_mmap mapsiz fd (mmap_result k); ev_close fd;
                  ev_memcmp (mmap_result k)
                    (Z.of_nat (List.length (built_header P pr pl)));
                  ev_eprintf "error" msg_header_mismatch;
                  ev_munmap (mmap_result k) mapsiz])).
Proof.
  intros Hopen Hfstat Hfile run fd mapsiz. subst run fd mapsiz.
  assert (Hlen : (Z.of_nat (List.length (file w)) =? 0) = false).
  { apply Z.eqb_neq. destruct (file w); [ contradiction | cbn; lia ]. }
  assert (Hok : (open_result k <? 0) || negb (fstat_result k =? 0) = false).
  { rewrite Hfstat. cbn. rewrite orb_false_r. apply Z.ltb_ge. exact Hopen. }
  unfold_store. rewrite Hok, Hlen.
  cbn [fst snd file open_fds mappings sampling trace negb].
  split.
  - intro Hne. apply Z.eqb_neq in Hne. rewrite Hne.
    cbn [fst snd file open_fds mappings sampling trace negb].
    rewrite <- ?app_assoc. repeat split.
  - intros Heq Hhdr. apply Z.eqb_eq in Heq. rewrite Heq.
    cbn [fst snd file open_fds mappings sampling trace negb].
    split_ifs; rewrite <- ?app_assoc; cbn [app].
    all: try match goal with
         | H : (if list_eq_dec Z.eq_dec ?a ?b then _ else _) = false |- _ =>
             destruct (list_eq_dec Z.eq_dec a b);
             [ contradiction | discriminate ]
         end.
    all: repeat split; auto.
Qed.


(** A rejected scale value ends the bootstrap with the diagnostic that
    quotes it. *)
Lemma prepare_rejects_scale fnmatch P pr w name seg env :
  match_program_name fnmatch pr = sel_name name ->
  locate_segment P pr = inr seg ->
  getenv pr "SP_SCALE" = Some env ->
  scale_override P (Some env) = None ->
  fst (prepare fnmatch P pr w) = Returned /\
  last (trace (snd (prepare fnmatch P pr w))) (ev_close 0)
  = ev_eprintf "error" (msg_invalid_scale env).
Proof.
  intros Hm Hl He Hs. unfold prepare.
  change (ENV_PREFIX ++ "SCALE")%string with "SP_SCALE"%string.
  unfold bind, DPRINTF, EPRINTF, emit, ret, return_.
  rewrite Hm, Hl, He, Hs.
  destruct (debug_enabled pr);
    cbn [fst snd file open_fds mappings sampling trace];
    (split; [ reflexivity | now rewrite last_last ]).
Qed.

(** An overflow of the buffer sizes ends the bootstrap with the
    diagnostic that names the segment size and the scale. *)
Lemma prepare_reports_overflow fnmatch P pr w name seg s_scale :
  match_program_name fnmatch pr = sel_name name ->
  locate_segment P pr = inr seg ->
  scale_override P (getenv pr "SP_SCALE") = Some s_scale ->
  buffer_sizes P (memsz seg) s_scale = None ->
  fst (prepare fnmatch P pr w) = Returned /\
  last (trace (snd (prepare fnmatch P pr w))) (ev_close 0)
  = ev_eprintf "error" (msg_size_overflow (memsz seg) s_scale).
Proof.
  intros Hm Hl Hs Hb. unfold prepare.
  change (ENV_PREFIX ++ "SCALE")%string with "SP_SCALE"%string.
  unfold bind, DPRINTF, EPRINTF, emit, ret, return_.
  rewrite Hm, Hl, Hs, Hb.
  destruct (debug_enabled pr);
    cbn [fst snd file open_fds mappings sampling trace];
    (split; [ reflexivity | now rewrite last_last ]).
Qed.

Lemma la_preinit_unfold fnmatch P pr k w :
  la_preinit fnmatch P pr k w =
  match prepare fnmatch P pr w with
  | (Next pl, w1) => store_and_activate P pr k pl w1
  | (Returned, w1) => (Returned, w1)
  | (Undefined, w1) => (Undefined, w1)
  end.
Proof. reflexivity. Qed.

Lemma locate_segment_load_addr P pr seg :
  locate_segment P pr = inr seg -> load_addr seg = l_addr pr.
Proof.
  unfold locate_segment.
  repeat match goal with
         | |- context [if ?c then _ else _] => destruct c eqn:?
         | |- context [match ?c with Some _ => _ | None => _ end] =>
             destruct c eqn:?
         end; try discriminate.
  intro H. injection H as <-.
  match goal with
  | H : negb (_ =? _) = false |- _ =>
      apply negb_false_iff, Z.eqb_eq in H; now rewrite H
  end.
Qed.

Lemma built_header_length P pr pl :
  supported P = true ->
  List.length (built_header P pr pl) = Z.to_nat (HEADER_SIZE P).
Proof.
  intro H. unfold built_header.
  rewrite <- (make_gmon_header_length P (frequency pr)
                (to_word P (lowpc (pl_segment pl) - load_addr (pl_segment pl)))
                (nsamples (pl_sizes pl)) (pl_s_scale pl) H).
  now rewrite Nat2Z.id.
Qed.

Lemma not_in_eprintf (evs : list event) (e : event) :
  (forall x, In x evs -> exists tag m, x = ev_eprintf tag m) ->
  (forall tag m, e <> ev_eprintf tag m) -> ~ In e evs.
Proof.
  intros H Hne Hin. destruct (H e Hin) as [tag [m ->]]. now apply (Hne tag m).
Qed.

(** C9: whatever the kernel answers, when [la_preinit] is over no
    descriptor is open, and unless sampling has been activated no mapping
    is left; in terms of the calls, a run that calls [open] also calls
    [close] on the descriptor it got, and a run that maps the file and
    does not activate sampling also calls [munmap] on the mapped range.
    This covers the returns after a failure of [fstat], [posix_fallocate],
    [mmap] and [profil], and after a size or header mismatch. *)
Theorem la_preinit_releases_resources
    (fnmatch : string -> string -> Z -> bool) (P : platform) (pr : process)
    (k : kernel) (file0 : list Z) :
  let run := la_preinit fnmatch P pr k (initial_world file0) in
  open_fds (snd run) = [] /\
  (fst run <> Next tt -> mappings (snd run) = []) /\
  (forall path fd,
     In (ev_open path fd) (trace (snd run)) ->
     In (ev_close fd) (trace (snd run))) /\
  (forall len fd base,
     In (ev_mmap len fd base) (trace (snd run)) -> base <> MAP_FAILED ->
     fst run <> Next tt -> In (ev_munmap base len) (trace (snd run))).
Proof.
  intro run. subst run. rewrite la_preinit_unfold.
  pose proof (prepare_quiet fnmatch P pr (initial_world file0)) as Hq.
  cbv zeta in Hq.
  destruct (prepare fnmatch P pr (initial_world file0)) as [[pl | | ] w1].
  all: cbn [fst snd initial_world file open_fds mappings sampling trace] in Hq.
  all: destruct Hq as (Hfile & Hfds & Hmaps & Hsamp & (evs0 & Htr & Hev) & _).
  all: cbn [app] in Htr.
  2, 3: cbn [fst snd]; rewrite Hfds, Hmaps, Htr; repeat split;
    try (intros; exfalso; eapply not_in_eprintf;
         [ exact Hev | | eassumption ]; discriminate).
  pose proof (store_resources P pr k pl w1 Hfds Hmaps) as Hres.
  pose proof (store_trace P pr k pl w1) as Htrace.
  cbv zeta in Hres, Htrace.
  destruct (store_and_activate P pr k pl w1) as [r w2].
  cbn [fst snd] in *.
  destruct Hres as (Hfd2 & _ & Hret & Hund).
  destruct Htrace as (evs & Htr2 & Hopen & Hmmap & _).
  rewrite Htr2, Htr. repeat split.
  - exact Hfd2.
  - intro Hr. apply Hret. destruct r as [[] | | ]; congruence.
  - intros path fd H. apply in_app_or in H as [H | H].
    + exfalso. eapply not_in_eprintf; [ exact Hev | | exact H ]. discriminate.
    + apply in_or_app. right. now apply (Hopen path).
  - intros len fd base H Hb Hr. apply in_app_or in H as [H | H].
    + exfalso. eapply not_in_eprintf; [ exact Hev | | exact H ]. discriminate.
    + apply in_or_app. right. now apply (Hmmap len fd).
Qed.

(** C1: when the bootstrap reaches the profile store and the file it
    opens is not empty, then (1) if the size of the file is not [mapsiz],
    it prints the size-mismatch diagnostic and returns after [open],
    [fstat] and [close] only, with no [mmap] and no store, the file being
    what it was; (2) if the size is [mapsiz] and the first [HEADER_SIZE]
    bytes are not the built header, it returns (after a failed [mmap], or
    after the comparison and [munmap]) and the file is what it was. *)
Theorem existing_profile_file_is_validated
    (fnmatch : string -> string -> Z -> bool) (P : platform) (pr : process)
    (k : kernel) (file0 : list Z) (pl : plan) (w1 : world) :
  supported P = true ->
  prepare fnmatch P pr (initial_world file0) = (Next pl, w1) ->
  0 <= open_result k -> fstat_result k = 0 -> file0 <> [] ->
  let run := la_preinit fnmatch P pr k (initial_world file0) in
  let fd := open_result k in
  let mapsiz := mapsiz (pl_sizes pl) in
  (Z.of_nat (List.length file0) <> mapsiz ->
   fst run = Returned /\ file (snd run) = file0 /\
   trace (snd run)
   = trace w1 ++ [ev_open (pl_fnbuf pl) fd; ev_fstat fd;
                  ev_eprintf "error" (msg_size_mismatch mapsiz);
                  ev_close fd]) /\
  (Z.of_nat (List.length file0) = mapsiz ->
   firstn (Z.to_nat (HEADER_SIZE P)) file0 <> built_header P pr pl ->
   fst run = Returned /\ file (snd run) = file0 /\
   (trace (snd run)
    = trace w1 ++ [ev_open (pl_fnbuf pl) fd; ev_fstat fd;
                   ev_mmap mapsiz fd (mmap_result k);
                   ev_eprintf "error" msg_mmap; ev_close fd] \/
    trace (snd run)
    = trace w1 ++ [ev_open (pl_fnbuf pl) fd; ev_fstat fd;
                   ev_mmap mapsiz fd (mmap_result k); ev_close fd;
                   ev_memcmp (mmap_result k) (HEADER_SIZE P);
                   ev_eprintf "error" msg_header_mismatch;
                   ev_munmap (mmap_result k) mapsiz])).
Proof.
  intros HP Hprep Hopen Hfstat Hfile run fd mapsiz. subst run fd mapsiz.
  rewrite la_preinit_unfold, Hprep.
  pose proof (prepare_quiet fnmatch P pr (initial_world file0)) as Hq.
  cbv zeta in Hq. rewrite Hprep in Hq. cbn [fst snd initial_world file] in Hq.
  destruct Hq as (Hf & _).
  pose proof (store_existing_file P pr k pl w1 Hopen Hfstat) as Hs.
  cbv zeta in Hs. rewrite Hf in Hs. specialize (Hs Hfile).
  rewrite (built_header_length P pr pl HP) in Hs.
  rewrite Z2Nat.id in Hs
    by (rewrite <- (make_gmon_header_length P 0 0 0 1 HP); lia).
  exact Hs.
Qed.

(** C3 (as amended): in every run in which [profil] is called, the main
    histogram record at the head of the profile file has for [low_pc] the
    [lowpc] handed to [profil] minus the load bias [l_addr] (the
    link-time address of the segment), as [uintptr_t], and for [high_pc]
    that [low_pc] plus [nsamples * (65536 * 2 / scale)], as [uintptr_t]. *)
Theorem profil_range_and_header
    (fnmatch : string -> string -> Z -> bool) (P : platform) (pr : process)
    (k : kernel) (file0 : list Z) (buf bufsiz lowpc scale : Z) :
  supported P = true ->
  let run := la_preinit fnmatch P pr k (initial_world file0) in
  In (ev_profil buf bufsiz lowpc scale) (trace (snd run)) ->
  let header := firstn (Z.to_nat (HEADER_SIZE P)) (file (snd run)) in
  exists seg sz,
    locate_segment P pr = inr seg /\
    buffer_sizes P (memsz seg) scale = Some sz /\
    lowpc = Locate.lowpc seg /\ bufsiz = Sizer.bufsiz sz /\
    header_low_pc P header = to_word P (lowpc - l_addr pr) /\
    header_high_pc P header
    = to_word P (header_low_pc P header + nsamples sz * (65536 * 2 / scale)).
Proof.
  intros HP run. subst run. rewrite la_preinit_unfold.
  pose proof (prepare_quiet fnmatch P pr (initial_world file0)) as Hq.
  cbv zeta in Hq.
  destruct (prepare fnmatch P pr (initial_world file0)) as [[pl | | ] w1].
  all: cbn [fst snd initial_world file open_fds mappings sampling trace] in Hq.
  all: destruct Hq as (_ & _ & _ & _ & (evs0 & Htr & Hev) & Hpl).
  all: cbn [app] in Htr.
  2, 3: cbn [fst snd]; rewrite Htr; intro H; exfalso;
    (eapply not_in_eprintf; [ exact Hev | | exact H ]); discriminate.
  destruct (Hpl pl eq_refl) as (_ & Hseg & _ & Hsz).
  pose proof (store_trace P pr k pl w1) as Htrace. cbv zeta in Htrace.
  destruct (store_and_activate P pr k pl w1) as [r w2].
  cbn [fst snd] in *.
  destruct Htrace as (evs & Htr2 & _ & _ & Hprofil).
  rewrite Htr2, Htr. intro H. apply in_app_or in H as [H | H].
  { exfalso. eapply not_in_eprintf; [ exact Hev | | exact H ]. discriminate. }
  destruct (Hprofil _ _ _ _ H) as (_ & -> & -> & -> & Hhdr).
  rewrite (built_header_length P pr pl HP) in Hhdr.
  exists (pl_segment pl), (pl_sizes pl).
  rewrite Hhdr. unfold built_header.
  rewrite (locate_segment_load_addr P pr _ Hseg).
  assert (Hw := word_modulus_pos P HP).
  rewrite header_low_pc_make, header_high_pc_make;
    [ | assumption | assumption
      | unfold to_word, wrap; apply Z.mod_pos_bound; assumption ].
  repeat split; auto.
Qed.

(** C3 (the claim as stated fails): for the position-independent
    executable loaded at [0x555555554000], [profil] is called with
    [lowpc = 0x555555555000] (93824992235520) and the [low_pc] field of
    the header written to the fresh profile file is [0x1000] (4096). *)
Lemma header_low_pc_is_link_time_address :
  last (trace (snd (la_preinit fnmatch_literal lp64 Runs.pie_process
                      Runs.kind_kernel (initial_world []))))
       (ev_close 0)
  = ev_profil 139637976727656 8 93824992235520 32768 /\
  header_low_pc lp64
    (firstn (Z.to_nat (HEADER_SIZE lp64))
       (file (snd (la_preinit fnmatch_literal lp64 Runs.pie_process
                     Runs.kind_kernel (initial_world [])))))
  = 4096.
Proof. split; vm_compute; reflexivity. Qed.

Lemma profil_range_and_header_witness :
  supported lp64 = true /\
  header_low_pc lp64
    (firstn (Z.to_nat (HEADER_SIZE lp64))
       (file (snd (la_preinit fnmatch_literal lp64 Runs.pie_process
                     Runs.kind_kernel (initial_world [])))))
  = to_word lp64 (93824992235520 - l_addr Runs.pie_process).
Proof.
  split; [ reflexivity | ].
  destruct (profil_range_and_header fnmatch_literal lp64 Runs.pie_process
              Runs.kind_kernel [] 139637976727656 8 93824992235520 32768
              eq_refl)
    as (seg & sz & _ & _ & _ & _ & H & _).
  - vm_compute. do 6 right. left. reflexivity.
  - exact H.
Defined.

Lemma existing_profile_file_is_validated_witness :
  [7] <> [] /\
  fst (la_preinit fnmatch_literal lp64 Runs.pie_process Runs.kind_kernel
         (initial_world [7])) = Returned /\
  file (snd (la_preinit fnmatch_literal lp64 Runs.pie_process
               Runs.kind_kernel (initial_world [7]))) = [7].
Proof.
  split; [ discriminate | ].
  pose proof (existing_profile_file_is_validated fnmatch_literal lp64
                Runs.pie_process Runs.kind_kernel [7]
                (mkPlan false "prog"
                   (mkSegment 93824992231424 93824992235520 16) 32768
                   (mkSizes 4 8 112) "/var/tmp/prog.profile")
                (initial_world [7]) eq_refl eq_refl) as H.
  destruct H as [H _].
  - vm_compute. discriminate.
  - reflexivity.
  - discriminate.
  - destruct H as (H1 & H2 & _); [ vm_compute; discriminate | ].
    split; assumption.
Defined.

End BootstrapFacts.

(** *** [veprintf]: the segments and the line *)

Section VeprintfFacts.
Import CTypes Eprintf Veprintf.

Lemma literal_run_length (fmt : list Z) :
  (List.length (snd (literal_run fmt)) <= List.length fmt)%nat.
Proof.
  induction fmt as [|c fmt IH]; [ apply Nat.le_refl | ].
  cbn [literal_run]. destruct ((c =? 0) || (c =? 37)); [ apply Nat.le_refl | ].
  destruct (literal_run fmt) as [run rest]. cbn [snd List.length] in *. lia.
Qed.

Lemma parse_flags_length (fmt : list Z) (flags : Z) :
  (List.length (snd (parse_flags fmt flags)) <= List.length fmt)%nat.
Proof.
  revert flags. induction fmt as [|c fmt IH]; intro flags;
    [ apply Nat.le_refl | ].
  cbn [parse_flags].
  repeat match goal with
         | |- context [if ?b then _ else _] => destruct b
         end; cbn [snd List.length];
    try (specialize (IH (Z.lor flags PADSP)); lia);
    try (specialize (IH (Z.lor flags PLUS)); lia);
    try (specialize (IH (Z.lor flags ALT)); lia); lia.
Qed.

Lemma parse_length_length (fmt : list Z) (flags : Z) :
  (List.length (snd (parse_length fmt flags)) <= List.length fmt)%nat.
Proof.
  destruct fmt as [|c fmt]; [ apply Nat.le_refl | ]. cbn [parse_length].
  repeat match goal with
         | |- context [if ?b then _ else _] => destruct b
         end; cbn [snd List.length]; lia.
Qed.

Lemma parse_prec_digits_length (fmt : list Z) (prec p : Z) (rest : list Z) :
  parse_prec_digits fmt prec = Some (p, rest) ->
  (List.length rest <= List.length fmt)%nat.
Proof.
  revert prec. induction fmt as [|c fmt IH]; intros prec H;
    cbn [parse_prec_digits] in H.
  - injection H as _ <-. apply Nat.le_refl.
  - destruct ((48 <=? c) && (c <=? 57)).
    + destruct ((prec * 10 <? - 2 ^ 31) || (2 ^ 31 <=? prec * 10));
        [ discriminate | ].
      apply IH in H. cbn [List.length]. lia.
    + injection H as _ <-. apply Nat.le_refl.
Qed.

Lemma parse_precision_length (fmt : list Z) (args args' : list va)
    (prec : Z) (rest : list Z) :
  parse_precision fmt args = inr (prec, rest, args') ->
  (List.length rest <= List.length fmt)%nat.
Proof.
  unfold parse_precision.
  destruct fmt as [|c fmt]; [ intro H; injection H as _ <- _; apply Nat.le_refl | ].
  destruct (Z.eq_dec c 46) as [-> | Hc].
  - destruct fmt as [|d fmt].
    + cbn. intro H. injection H as _ <- _. cbn. lia.
    + destruct (Z.eq_dec d 42) as [-> | Hd].
      * destruct (va_arg_integer (- 2 ^ 31) (2 ^ 31) args) as [[p a]|];
          [ | discriminate ].
        intro H. injection H as _ <- _. cbn [List.length]. lia.
      * assert (Hm : forall A (x y : A),
                  match d with 42 => x | _ => y end = y).
        { intros A x y. destruct d as [|d|d]; try reflexivity.
          repeat (destruct d as [d|d|]; try reflexivity). congruence. }
        rewrite Hm.
        destruct (parse_prec_digits (d :: fmt) 0) as [[p r]|] eqn:E;
          [ | discriminate ].
        intro H. injection H as _ <- _.
        apply parse_prec_digits_length in E. cbn [List.length] in *. lia.
  - assert (Hm : forall A (x y : A),
              match c with 46 => x | _ => y end = y).
    { intros A x y. destruct c as [|c|c]; try reflexivity.
      repeat (destruct c as [c|c|]; try reflexivity). congruence. }
    rewrite Hm. intro H. injection H as _ <- _. apply Nat.le_refl.
Qed.

Lemma push_iov_ok (seg : list Z) (iov : list (list Z)) :
  (List.length iov < NIOV_MAX)%nat -> push_iov seg iov = inr (iov ++ [seg]).
Proof.
  intro H. unfold push_iov. apply Nat.ltb_lt in H. now rewrite H.
Qed.

Section Rule.

Variable P : platform.
Variable name : list Z.
Variable alloca_addr : Z.
Variable I : list (list Z) -> Prop.
Variable Q : outcome -> Prop.

Hypothesis I_push :
  forall iov seg, I iov -> (List.length iov < NIOV_MAX)%nat -> I (iov ++ [seg]).
Hypothesis Q_wrote :
  forall iov, I iov -> (List.length iov < NIOV_MAX)%nat ->
              Q (wrote (iov ++ [[10]])).
Hypothesis Q_assert : Q assertion_failed.
Hypothesis Q_undefined : forall f, f <> iov_overflow -> Q (undefined f).

Lemma finish_rule (iov : list (list Z)) : I iov -> Q (finish iov).
Proof.
  intro Hi. unfold finish.
  destruct (List.length iov <? NIOV_MAX)%nat eqn:E; [ | exact Q_assert ].
  apply Nat.ltb_lt in E. now apply Q_wrote.
Qed.

Lemma while_top_rule (body : list Z -> list va -> list (list Z) -> outcome)
    (fmt : list Z) (args : list va) (iov : list (list Z)) :
  I iov ->
  (hd 0 fmt <> 0 -> (List.length iov < NIOV_MAX)%nat -> Q (body fmt args iov)) ->
  Q (while_top body fmt args iov).
Proof.
  intros Hi Hb. unfold while_top.
  destruct (hd 0 fmt =? 0) eqn:E0; [ now apply finish_rule | ].
  destruct (List.length iov <? NIOV_MAX)%nat eqn:E; [ | exact Q_assert ].
  apply Nat.ltb_lt in E. apply Z.eqb_neq in E0. now apply Hb.
Qed.

Lemma hd_nonzero_length (l : list Z) :
  hd 0 l <> 0 -> (List.length (tl l) < List.length l)%nat.
Proof. destruct l; cbn; [ congruence | lia ]. Qed.

Lemma fixed_rule (fuel : nat) :
  forall pending fmt args iov,
    (List.length fmt < fuel)%nat -> I iov ->
    (List.length iov < NIOV_MAX)%nat ->
    Q (fixed P alloca_addr fuel pending fmt args iov).
Proof.
  induction fuel as [|fuel IH]; intros pending fmt args iov Hfuel Hi Hlen.
  - inversion Hfuel.
  - cbn [fixed].
    pose proof (literal_run_length fmt) as Hrun.
    destruct (literal_run fmt) as [run rest]. cbn [snd] in Hrun.
    (* the literal segment *)
    assert (Hseg :
      forall iov', I iov' -> (List.length iov' < NIOV_MAX)%nat ->
        Q (if hd 0 rest =? 0 then finish iov'
           else
             let '(flags, fmt0) := parse_flags (tl rest) 0 in
             let '(flags0, fmt1) := parse_length fmt0 flags in
             match parse_precision fmt1 args with
             | inl f => undefined f
             | inr (prec, fmt2, args0) =>
                 let c := hd 0 fmt2 in
                 if c =? 115
                 then
                   match args0 with
                   | va_string str :: args1 =>
                       match string_segment P alloca_addr flags0 prec str with
                       | inl f => undefined f
                       | inr (Some seg) =>
                           match push_iov seg iov' with
                           | inl f => undefined f
                           | inr iov0 =>
                               while_top (fixed P alloca_addr fuel [])
                                 (tl fmt2) args1 iov0
                           end
                       | inr None =>
                           while_top (fixed P alloca_addr fuel [])
                             (tl fmt2) args1 iov'
                       end
                   | _ => undefined bad_va_arg
                   end
                 else
                   if (c =? 100) || (c =? 112) || (c =? 88) || (c =? 120)
                      || (c =? 117)
                   then
                     match integer_argument P c flags0 args0 with
                     | Some (ulval, flags1, args1) =>
                         match format_number P flags1 ulval with
                         | Some text =>
                             match push_iov text iov' with
                             | inl f => undefined f
                             | inr iov0 =>
                                 while_top (fixed P alloca_addr fuel [])
                                   (tl fmt2) args1 iov0
                             end
                         | None => undefined number_overflow
                         end
                     | None => undefined bad_va_arg
                     end
                   else
                     if (NIOV_MAX <=? List.length iov')%nat
                     then undefined iov_overflow
                     else
                       if c =? 0 then undefined read_past_format
                       else fixed P alloca_addr fuel [c] (tl fmt2) args0 iov'
             end)).
    { intros iov' Hi' Hlen'.
      destruct (hd 0 rest =? 0) eqn:E0; [ now apply finish_rule | ].
      apply Z.eqb_neq in E0. apply hd_nonzero_length in E0.
      pose proof (parse_flags_length (tl rest) 0) as Hf.
      destruct (parse_flags (tl rest) 0) as [flags fmt0]. cbn [snd] in Hf.
      pose proof (parse_length_length fmt0 flags) as Hl.
      destruct (parse_length fmt0 flags) as [flags0 fmt1]. cbn [snd] in Hl.
      destruct (parse_precision fmt1 args) as [f | [[prec fmt2] args0]] eqn:Ep.
      { apply Q_undefined. unfold parse_precision in Ep.
        repeat match type of Ep with
               | match ?x with _ => _ end = _ => destruct x
               end; try discriminate; injection Ep as <-; discriminate. }
      apply parse_precision_length in Ep.
      assert (Hnext : forall args1 iov0,
                 I iov0 ->
                 Q (while_top (fixed P alloca_addr fuel []) (tl fmt2) args1 iov0)).
      { intros args1 iov0 Hi0. apply while_top_rule; [ exact Hi0 | ].
        intros _ Hl0. apply IH; [ | exact Hi0 | exact Hl0 ].
        destruct fmt2; cbn [tl List.length] in *; lia. }
      cbv zeta.
      destruct (hd 0 fmt2 =? 115).
      { destruct args0 as [|[v | p | str] args1];
          try (apply Q_undefined; discriminate).
        destruct (string_segment P alloca_addr flags0 prec str)
          as [f | [seg | ]] eqn:Es.
        - apply Q_undefined. unfold string_segment in Es.
          repeat match type of Es with
                 | (if ?x then _ else _) = _ => destruct x
                 | match ?x with _ => _ end = _ => destruct x
                 end; try discriminate; injection Es as <-; discriminate.
        - rewrite push_iov_ok by assumption. apply Hnext.
          now apply I_push.
        - now apply Hnext. }
      destruct ((hd 0 fmt2 =? 100) || (hd 0 fmt2 =? 112) || (hd 0 fmt2 =? 88)
                || (hd 0 fmt2 =? 120) || (hd 0 fmt2 =? 117)).
      { destruct (integer_argument P (hd 0 fmt2) flags0 args0)
          as [[[ulval flags1] args1] | ];
          [ | apply Q_undefined; discriminate ].
        destruct (format_number P flags1 ulval) as [text | ];
          [ | apply Q_undefined; discriminate ].
        rewrite push_iov_ok by assumption. apply Hnext. now apply I_push. }
      replace (NIOV_MAX <=? List.length iov')%nat with false
        by (symmetry; apply Nat.leb_gt; exact Hlen').
      destruct (hd 0 fmt2 =? 0) eqn:Ec;
        [ apply Q_undefined; discriminate | ].
      apply IH; [ | exact Hi' | exact Hlen' ].
      destruct fmt2; cbn [tl List.length] in *; lia. }
    destruct (pending ++ run) as [|x seg].
    + now apply Hseg.
    + rewrite push_iov_ok by assumption.
      destruct (List.length (iov ++ [x :: seg]) <? NIOV_MAX)%nat eqn:E;
        [ | exact Q_assert ].
      apply Nat.ltb_lt in E. apply Hseg; [ now apply I_push | exact E ].
Qed.

Lemma veprintf_rule (tag : option (list Z)) (fmt : list Z) (args : list va) :
  I ([name; bytes_of_string (" (" ++ CANON_NAME ++ "): ")] ++
     match tag with
     | Some t => [t; bytes_of_string ": "]
     | None => []
     end) ->
  Q (veprintf P name alloca_addr tag fmt args).
Proof.
  intro Hi. unfold veprintf. apply while_top_rule; [ exact Hi | ].
  intros _ Hlen. apply fixed_rule; [ apply Nat.lt_succ_diag_r | exact Hi | exact Hlen ].
Qed.

End Rule.


(** X1: for every tag, format and argument list, [veprintf] never
    stores a segment behind the last element of [iov] (the asserts on
    [niov] come first), the loop over the format terminates (the fuel
    of the model, one more than the length of the format, is never used
    up), and a line it writes has at most [NIOV_MAX] segments. *)
Theorem veprintf_iov_bounded (P : platform) (name : list Z)
    (alloca_addr : Z) (tag : option (list Z)) (fmt : list Z)
    (args : list va) :
  veprintf P name alloca_addr tag fmt args <> undefined iov_overflow /\
  veprintf P name alloca_addr tag fmt args <> out_of_fuel /\
  forall iov, veprintf P name alloca_addr tag fmt args = wrote iov ->
              (List.length iov <= NIOV_MAX)%nat.
Proof.
  apply (veprintf_rule P name alloca_addr (fun _ => True)
           (fun o => o <> undefined iov_overflow /\ o <> out_of_fuel /\
                     forall iov, o = wrote iov ->
                                 (List.length iov <= NIOV_MAX)%nat)).
  - trivial.
  - intros iov _ Hlen. repeat split; try discriminate.
    intros iov' H. injection H as <-. rewrite length_app. cbn [List.length].
    lia.
  - repeat split; discriminate.
  - intros f Hf. repeat split; try discriminate. congruence.
  - trivial.
Qed.

Lemma literal_run_all (fmt : list Z) :
  Forall (fun c => c <> 0 /\ c <> 37) fmt -> literal_run fmt = (fmt, []).
Proof.
  induction 1 as [|c fmt [H0 H37] _ IH]; [ reflexivity | ].
  cbn [literal_run]. apply Z.eqb_neq in H0, H37. rewrite H0, H37, IH.
  reflexivity.
Qed.

Lemma literal_run_percent (l1 l2 : list Z) :
  Forall (fun c => c <> 0 /\ c <> 37) l1 ->
  literal_run (l1 ++ 37 :: l2) = (l1, 37 :: l2).
Proof.
  induction 1 as [|c fmt [H0 H37] _ IH]; [ reflexivity | ].
  cbn [literal_run app]. apply Z.eqb_neq in H0, H37. rewrite H0, H37, IH.
  reflexivity.
Qed.

(** X2: every line [veprintf] writes is the program name, the
    text [" (simpleprof.so): "], the tag and [": "] when there is a tag,
    what the format produces, and one newline at the end. *)
Theorem veprintf_line_frame (P : platform) (name : list Z)
    (alloca_addr : Z) (tag : option (list Z)) (fmt : list Z)
    (args : list va) (bytes : list Z) :
  output (veprintf P name alloca_addr tag fmt args) = Some bytes ->
  exists body,
    bytes = name ++ bytes_of_string " (simpleprof.so): " ++
            match tag with
            | Some t => t ++ bytes_of_string ": "
            | None => []
            end ++ body ++ [10].
Proof.
  set (iov0 := [name; bytes_of_string (" (" ++ CANON_NAME ++ "): ")] ++
               match tag with
               | Some t => [t; bytes_of_string ": "]
               | None => []
               end).
  assert (H : forall out,
             veprintf P name alloca_addr tag fmt args = wrote out ->
             exists mid, out = iov0 ++ mid ++ [[10]]).
  { apply (veprintf_rule P name alloca_addr
             (fun iov => exists mid, iov = iov0 ++ mid)
             (fun o => forall out, o = wrote out ->
                                   exists mid, out = iov0 ++ mid ++ [[10]])).
    - intros iov seg [mid ->] _. exists (mid ++ [seg]).
      now rewrite app_assoc.
    - intros iov [mid ->] _ out H. injection H as <-. exists mid.
      now rewrite app_assoc.
    - discriminate.
    - discriminate.
    - exists []. now rewrite app_nil_r. }
  destruct (veprintf P name alloca_addr tag fmt args) as [out | | | ];
    try discriminate.
  cbn [output]. intro Hb. injection Hb as <-.
  destruct (H out eq_refl) as [mid ->].
  exists (List.concat mid). unfold iov0.
  rewrite !concat_app. cbn [List.concat app].
  destruct tag as [t | ]; cbn [List.concat app];
    rewrite <- ?app_assoc, ?app_nil_r; reflexivity.
Qed.

(** From [fixed] to the end of a format that has no further [%]. *)
Lemma fixed_literal_end (P : platform) (alloca_addr : Z) (fuel : nat)
    (pending fmt : list Z) (args : list va) (iov : list (list Z)) :
  Forall (fun c => c <> 0 /\ c <> 37) fmt ->
  (List.length iov + 1 < NIOV_MAX)%nat ->
  fixed P alloca_addr (S fuel) pending fmt args iov
  = wrote (iov ++
           match pending ++ fmt with
           | [] => []
           | _ :: _ => [pending ++ fmt]
           end ++ [[10]]).
Proof.
  intros Hlit Hlen. cbn [fixed]. rewrite (literal_run_all _ Hlit).
  destruct (pending ++ fmt) as [|c seg].
  - cbn [hd]. change (0 =? 0) with true. cbv iota. unfold finish.
    replace (List.length iov <? NIOV_MAX)%nat with true
      by (symmetry; apply Nat.ltb_lt; lia).
    reflexivity.
  - rewrite push_iov_ok by lia.
    replace (List.length (iov ++ [c :: seg]) <? NIOV_MAX)%nat with true
      by (symmetry; apply Nat.ltb_lt; rewrite length_app; cbn [List.length];
          lia).
    cbn [hd]. change (0 =? 0) with true. cbv iota. unfold finish.
    replace (List.length (iov ++ [c :: seg]) <? NIOV_MAX)%nat with true
      by (symmetry; apply Nat.ltb_lt; rewrite length_app; cbn [List.length];
          lia).
    now rewrite <- app_assoc.
Qed.

(** From [fixed] over a literal text and [%%]. *)
Lemma fixed_percent_percent (P : platform) (alloca_addr : Z) (fuel : nat)
    (l1 l2 : list Z) (args : list va) (iov : list (list Z)) :
  Forall (fun c => c <> 0 /\ c <> 37) l1 ->
  (List.length iov + 1 < NIOV_MAX)%nat ->
  fixed P alloca_addr (S fuel) [] (l1 ++ 37 :: 37 :: l2) args iov
  = fixed P alloca_addr fuel [37] l2 args
      (iov ++ match l1 with
              | [] => []
              | _ :: _ => [l1]
              end).
Proof.
  intros Hlit Hlen. cbn [fixed].
  rewrite (literal_run_percent l1 (37 :: l2) Hlit). cbn [app].
  destruct l1 as [|c l1].
  - cbn [hd tl parse_flags parse_length parse_precision].
    change (37 =? 0) with false. cbv iota. cbn [hd tl].
    change (37 =? 115) with false. cbv iota.
    replace (NIOV_MAX <=? List.length iov)%nat with false
      by (symmetry; apply Nat.leb_gt; lia).
    now rewrite app_nil_r.
  - rewrite push_iov_ok by lia.
    replace (List.length (iov ++ [c :: l1]) <? NIOV_MAX)%nat with true
      by (symmetry; apply Nat.ltb_lt; rewrite length_app; cbn [List.length];
          lia).
    cbn [hd tl parse_flags parse_length parse_precision].
    change (37 =? 0) with false. cbv iota. cbn [hd tl].
    change (37 =? 115) with false. cbv iota.
    replace (NIOV_MAX <=? List.length (iov ++ [c :: l1]))%nat with false
      by (symmetry; apply Nat.leb_gt; rewrite length_app; cbn [List.length];
          lia).
    reflexivity.
Qed.

Lemma prefix_iov_length (name : list Z) (tag : option (list Z)) :
  (List.length ([name; bytes_of_string (" (" ++ CANON_NAME ++ "): ")] ++
                match tag with
                | Some t => [t; bytes_of_string ": "]
                | None => []
                end) + 2 < NIOV_MAX)%nat.
Proof. destruct tag; cbn [app List.length]; unfold NIOV_MAX; lia. Qed.

(** X3: a format without any [%] is written as it is: after the
    segments of the prefix comes one segment with the whole format (none
    when the format is empty), then the newline. *)
Theorem veprintf_literal (P : platform) (name : list Z) (alloca_addr : Z)
    (tag : option (list Z)) (fmt : list Z) (args : list va) :
  Forall (fun c => c <> 0 /\ c <> 37) fmt ->
  veprintf P name alloca_addr tag fmt args
  = wrote (([name; bytes_of_string " (simpleprof.so): "] ++
            match tag with
            | Some t => [t; bytes_of_string ": "]
            | None => []
            end) ++
           match fmt with
           | [] => []
           | _ :: _ => [fmt]
           end ++ [[10]]).
Proof.
  intro Hlit. unfold veprintf, while_top.
  pose proof (prefix_iov_length name tag) as Hlen.
  set (iov0 := [name; bytes_of_string (" (" ++ CANON_NAME ++ "): ")] ++
               match tag with
               | Some t => [t; bytes_of_string ": "]
               | None => []
               end) in *.
  change ([name; bytes_of_string " (simpleprof.so): "] ++
          match tag with
          | Some t => [t; bytes_of_string ": "]
          | None => []
          end) with iov0.
  replace (List.length iov0 <? NIOV_MAX)%nat with true
    by (symmetry; apply Nat.ltb_lt; lia).
  destruct fmt as [|c fmt].
  - cbn [hd]. change (0 =? 0) with true. cbv iota. unfold finish.
    replace (List.length iov0 <? NIOV_MAX)%nat with true
      by (symmetry; apply Nat.ltb_lt; lia).
    reflexivity.
  - inversion Hlit as [|? ? [Hc _] _]; subst.
    cbn [hd]. apply Z.eqb_neq in Hc. rewrite Hc.
    rewrite fixed_literal_end by (assumption || lia). reflexivity.
Qed.

(** X4: [%%] prints one percent sign: the text before it is a
    segment, and the second [%] starts the segment of the text that
    follows it. *)
Theorem veprintf_percent_percent (P : platform) (name : list Z) (alloca_addr : Z)
    (tag : option (list Z)) (l1 l2 : list Z) (args : list va) :
  Forall (fun c => c <> 0 /\ c <> 37) l1 ->
  Forall (fun c => c <> 0 /\ c <> 37) l2 ->
  veprintf P name alloca_addr tag (l1 ++ 37 :: 37 :: l2) args
  = wrote (([name; bytes_of_string " (simpleprof.so): "] ++
            match tag with
            | Some t => [t; bytes_of_string ": "]
            | None => []
            end) ++
           match l1 with
           | [] => []
           | _ :: _ => [l1]
           end ++ [37 :: l2] ++ [[10]]).
Proof.
  intros H1 H2. unfold veprintf, while_top.
  pose proof (prefix_iov_length name tag) as Hlen.
  set (iov0 := [name; bytes_of_string (" (" ++ CANON_NAME ++ "): ")] ++
               match tag with
               | Some t => [t; bytes_of_string ": "]
               | None => []
               end) in *.
  change ([name; bytes_of_string " (simpleprof.so): "] ++
          match tag with
          | Some t => [t; bytes_of_string ": "]
          | None => []
          end) with iov0.
  replace (List.length iov0 <? NIOV_MAX)%nat with true
    by (symmetry; apply Nat.ltb_lt; lia).
  assert (Hhd : (hd 0 (l1 ++ 37 :: 37 :: l2) =? 0) = false).
  { destruct l1 as [|c l1]; [ reflexivity | ].
    inversion H1 as [|? ? [Hc _] _]; subst. cbn [hd app].
    now apply Z.eqb_neq. }
  rewrite Hhd.
  assert (Hfuel : exists n, List.length (l1 ++ 37 :: 37 :: l2) = S n).
  { rewrite length_app. cbn [List.length]. eexists.
    rewrite Nat.add_succ_r. reflexivity. }
  destruct Hfuel as [n ->].
  rewrite fixed_percent_percent by (assumption || lia).
  rewrite fixed_literal_end; [ | assumption | ].
  - now rewrite <- app_assoc.
  - rewrite length_app. destruct l1; cbn [List.length]; lia.
Qed.
Lemma veprintf_line_frame_witness :
  exists body,
    bytes_of_string "prog (simpleprof.so): error: fstat: No such file" ++ [10]
    = bytes_of_string "prog" ++ bytes_of_string " (simpleprof.so): " ++
      (bytes_of_string "error" ++ bytes_of_string ": ") ++ body ++ [10].
Proof.
  apply (veprintf_line_frame lp64 (bytes_of_string "prog") 4096
           (Some (bytes_of_string "error")) (bytes_of_string "fstat: %s")
           [va_string (Some (c_string "No such file"))]).
  vm_compute. reflexivity.
Defined.

Lemma veprintf_literal_witness :
  veprintf lp64 (bytes_of_string "prog") 4096 (Some (bytes_of_string "error"))
    (bytes_of_string "no program header") []
  = wrote [bytes_of_string "prog"; bytes_of_string " (simpleprof.so): ";
           bytes_of_string "error"; bytes_of_string ": ";
           bytes_of_string "no program header"; [10]].
Proof.
  apply (veprintf_literal lp64 (bytes_of_string "prog") 4096
           (Some (bytes_of_string "error"))
           (bytes_of_string "no program header") []).
  repeat constructor; discriminate.
Defined.

Lemma veprintf_percent_percent_witness :
  veprintf lp64 (bytes_of_string "prog") 4096 None
    (bytes_of_string "100%% done") []
  = wrote [bytes_of_string "prog"; bytes_of_string " (simpleprof.so): ";
           bytes_of_string "100"; bytes_of_string "% done"; [10]].
Proof.
  apply (veprintf_percent_percent lp64 (bytes_of_string "prog") 4096 None
           (bytes_of_string "100") (bytes_of_string " done") []);
    repeat constructor; discriminate.
Defined.

End VeprintfFacts.

(** *** [veprintf]: the numeric conversions *)

Section NumberFacts.
Import CTypes Eprintf Veprintf.

Lemma decimal_value_snoc (ds : list Z) (d : Z) :
  decimal_value (ds ++ [d]) = 10 * decimal_value ds + (d - 48).
Proof. unfold decimal_value. now rewrite fold_left_app. Qed.

Lemma hex_value_snoc (ds : list Z) (d : Z) :
  hex_value (ds ++ [d]) = 16 * hex_value ds + hex_digit_value d.
Proof. unfold hex_value. now rewrite fold_left_app. Qed.

(** The decimal loop with room for [k] digits, on a value below
    [10 ^ k]. *)
Lemma dec_digits_spec (k : nat) :
  forall (room : nat) (v : Z) (text : list Z),
    (1 <= k <= room)%nat -> 0 <= v < 10 ^ Z.of_nat k ->
    exists ds,
      dec_digits room v text = Some ((room - List.length ds)%nat, ds ++ text) /\
      decimal_value ds = v /\
      (1 <= List.length ds <= k)%nat /\
      forallb is_decimal_digit ds = true.
Proof.
  induction k as [|k IH]; intros room v text Hk Hv; [ lia | ].
  destruct room as [|room]; [ lia | ]. cbn [dec_digits].
  assert (Hd : 0 <= v mod 10 < 10) by (apply Z.mod_pos_bound; lia).
  assert (Hdig : is_decimal_digit (48 + v mod 10) = true).
  { unfold is_decimal_digit. apply andb_true_intro.
    split; apply Z.leb_le; lia. }
  destruct (v / 10 =? 0) eqn:E.
  - apply Z.eqb_eq in E. exists [48 + v mod 10].
    repeat split; cbn [List.length app forallb]; try lia.
    + f_equal. f_equal. lia.
    + unfold decimal_value. cbn [fold_left].
      pose proof (Z.div_mod v 10). lia.
    + now rewrite Hdig.
  - apply Z.eqb_neq in E.
    assert (Hq : 0 < v / 10).
    { assert (0 <= v / 10) by (apply Z.div_pos; lia). lia. }
    assert (Hk1 : (1 <= k)%nat).
    { destruct k; [ | lia ]. exfalso.
      change (10 ^ Z.of_nat 1) with 10 in Hv.
      rewrite Z.div_small in Hq by lia. lia. }
    assert (Hv' : 0 <= v / 10 < 10 ^ Z.of_nat k).
    { split; [ lia | ]. apply Z.div_lt_upper_bound; [ lia | ].
      rewrite Nat2Z.inj_succ, Z.pow_succ_r in Hv by lia. lia. }
    destruct (IH room (v / 10) ((48 + v mod 10) :: text)) as
      (ds & Hds & Hval & Hlen & Hall); [ lia | exact Hv' | ].
    exists (ds ++ [48 + v mod 10]). rewrite Hds.
    repeat split.
    + f_equal. f_equal; [ rewrite length_app; cbn [List.length]; lia | ].
      now rewrite <- app_assoc.
    + rewrite decimal_value_snoc, Hval. pose proof (Z.div_mod v 10). lia.
    + rewrite length_app. cbn [List.length]. lia.
    + rewrite length_app. cbn [List.length]. lia.
    + rewrite forallb_app, Hall. cbn [forallb andb]. now rewrite Hdig.
Qed.

Lemma hex_digit_char (upper : bool) (d : Z) :
  0 <= d < 16 ->
  let c := (if 57 <? 48 + d
            then if upper then 48 + d + (65 - 57 - 1)
                 else 48 + d + (65 - 57 - 1) + (97 - 65)
            else 48 + d) in
  hex_digit_value c = d /\ is_hex_digit upper c = true.
Proof.
  intros Hd c. subst c. unfold hex_digit_value, is_hex_digit, is_decimal_digit.
  destruct (57 <? 48 + d) eqn:E;
    [ apply Z.ltb_lt in E | apply Z.ltb_ge in E ]; destruct upper;
    repeat match goal with
           | |- context [?a <=? ?b] =>
               let H := fresh in
               destruct (a <=? b) eqn:H;
               [ apply Z.leb_le in H | apply Z.leb_gt in H ]
           end; cbn [andb orb]; split; try reflexivity; lia.
Qed.

(** The hexadecimal loop with room for [k] digits, on a value below
    [16 ^ k]. *)
Lemma hex_digits_spec (k : nat) :
  forall (room : nat) (flags v : Z) (text : list Z),
    (1 <= k <= room)%nat -> 0 <= v < 16 ^ Z.of_nat k ->
    exists ds,
      hex_digits room flags v text
      = Some ((room - List.length ds)%nat, ds ++ text) /\
      hex_value ds = v /\
      (1 <= List.length ds <= k)%nat /\
      forallb (is_hex_digit (has_flag flags UPPER)) ds = true.
Proof.
  induction k as [|k IH]; intros room flags v text Hk Hv; [ lia | ].
  destruct room as [|room]; [ lia | ]. cbn [hex_digits].
  change 15 with (Z.ones 4). rewrite Z.land_ones, Z.shiftr_div_pow2 by lia.
  change (2 ^ 4) with 16.
  assert (Hd : 0 <= v mod 16 < 16) by (apply Z.mod_pos_bound; lia).
  destruct (hex_digit_char (has_flag flags UPPER) (v mod 16) Hd)
    as [Hval Hdig].
  cbv zeta in Hval, Hdig.
  set (c := if 57 <? 48 + v mod 16
            then if has_flag flags UPPER then 48 + v mod 16 + (65 - 57 - 1)
                 else 48 + v mod 16 + (65 - 57 - 1) + (97 - 65)
            else 48 + v mod 16) in *.
  destruct (v / 16 =? 0) eqn:E.
  - apply Z.eqb_eq in E. exists [c].
    repeat split; cbn [List.length app forallb andb]; try lia.
    + f_equal. f_equal. lia.
    + unfold hex_value. cbn [fold_left]. rewrite Hval.
      pose proof (Z.div_mod v 16). lia.
    + now rewrite Hdig.
  - apply Z.eqb_neq in E.
    assert (Hq : 0 < v / 16).
    { assert (0 <= v / 16) by (apply Z.div_pos; lia). lia. }
    assert (Hk1 : (1 <= k)%nat).
    { destruct k; [ | lia ]. exfalso.
      change (16 ^ Z.of_nat 1) with 16 in Hv.
      rewrite Z.div_small in Hq by lia. lia. }
    assert (Hv' : 0 <= v / 16 < 16 ^ Z.of_nat k).
    { split; [ lia | ]. apply Z.div_lt_upper_bound; [ lia | ].
      rewrite Nat2Z.inj_succ, Z.pow_succ_r in Hv by lia. lia. }
    destruct (IH room flags (v / 16) (c :: text)) as
      (ds & Hds & Hvalue & Hlen & Hall); [ lia | exact Hv' | ].
    exists (ds ++ [c]). rewrite Hds.
    repeat split.
    + f_equal. f_equal; [ rewrite length_app; cbn [List.length]; lia | ].
      now rewrite <- app_assoc.
    + rewrite hex_value_snoc, Hvalue, Hval. pose proof (Z.div_mod v 16). lia.
    + rewrite length_app. cbn [List.length]. lia.
    + rewrite length_app. cbn [List.length]. lia.
    + rewrite forallb_app, Hall. cbn [forallb andb]. now rewrite Hdig.
Qed.

(** Tests of flag bits. *)
Lemma has_flag_lor (a b f : Z) :
  has_flag (Z.lor a b) f = has_flag a f || has_flag b f.
Proof.
  unfold has_flag. rewrite Z.land_lor_distr_l.
  destruct (Z.eq_dec (Z.land a f) 0) as [Ea | Ea];
    destruct (Z.eq_dec (Z.land b f) 0) as [Eb | Eb].
  - rewrite Ea, Eb. reflexivity.
  - rewrite Ea, Z.lor_0_l. apply Z.eqb_neq in Eb. now rewrite Eb.
  - apply Z.eqb_neq in Ea as Ea'. rewrite Ea'. cbn [negb orb].
    apply negb_true_iff, Z.eqb_neq. intro H.
    apply Z.lor_eq_0_iff in H. tauto.
  - apply Z.eqb_neq in Ea as Ea'. rewrite Ea'. cbn [negb orb].
    apply negb_true_iff, Z.eqb_neq. intro H.
    apply Z.lor_eq_0_iff in H. tauto.
Qed.

Lemma has_flag_ldiff_same (a f : Z) : has_flag (Z.ldiff a f) f = false.
Proof. unfold has_flag. now rewrite Z.land_ldiff. Qed.

Lemma has_flag_ldiff_ALT_UPPER (a : Z) :
  has_flag (Z.ldiff a ALT) UPPER = has_flag a UPPER.
Proof.
  unfold has_flag. f_equal. f_equal. apply Z.bits_inj'. intros n Hn.
  rewrite !Z.land_spec, Z.ldiff_spec.
  change UPPER with (2 ^ 16). change ALT with (2 ^ 8).
  rewrite !Z.pow2_bits_eqb by lia.
  destruct (16 =? n) eqn:E; [ | now rewrite !andb_false_r ].
  apply Z.eqb_eq in E. subst n. cbn. now rewrite andb_true_r.
Qed.

Lemma number_maxlen_cases (P : platform) :
  supported P = true ->
  (number_maxlen P = 13%nat /\ word_modulus P = 2 ^ 32) \/
  (number_maxlen P = 24%nat /\ word_modulus P = 2 ^ 64).
Proof.
  intro H. destruct (supported_cases P H) as [-> | [-> | [-> | ->]]];
    (left; split; reflexivity) || (right; split; reflexivity).
Qed.

(** Decimal conversions: the text is the sign character the flags ask
    for and the decimal digits of the value; it always fits the buffer. *)
Lemma format_number_decimal (P : platform) (flags v : Z) :
  supported P = true -> 0 <= v < word_modulus P ->
  has_flag flags HEX = false ->
  exists ds,
    format_number P flags v = Some (sign_text flags ++ ds) /\
    decimal_value ds = v /\
    (1 <= List.length ds <= 20)%nat /\
    forallb is_decimal_digit ds = true.
Proof.
  intros HP Hv Hhex. unfold format_number. rewrite Hhex.
  assert (Hk : exists k, (1 <= k <= 20)%nat /\ (k + 1 <= number_maxlen P)%nat /\
                         v < 10 ^ Z.of_nat k).
  { destruct (number_maxlen_cases P HP) as [[-> Hw] | [-> Hw]]; rewrite Hw in Hv.
    - exists 10%nat. repeat split; lia.
    - exists 20%nat. repeat split; lia. }
  destruct Hk as (k & Hk & Hroom & Hvk).
  destruct (dec_digits_spec k (number_maxlen P) v []) as
    (ds & Hds & Hval & Hlen & Hall); [ lia | lia | ].
  rewrite Hds. rewrite app_nil_r. exists ds.
  split; [ | repeat split; try assumption; lia ].
  unfold sign_text.
  assert (Hs : forall c,
             option_map snd
               (store_before (number_maxlen P - List.length ds) c ds)
             = Some (c :: ds)).
  { intro c. destruct (number_maxlen P - List.length ds)%nat eqn:E;
      [ lia | reflexivity ]. }
  destruct (has_flag flags NEGATIVE); [ apply Hs | ].
  destruct (has_flag flags PLUS); [ apply Hs | ].
  destruct (has_flag flags PADSP); [ apply Hs | reflexivity ].
Qed.

(** Hexadecimal conversions: the text is ["0x"] or ["0X"] when the
    alternate form is asked for and the value is not 0, and the
    hexadecimal digits of the value in the case asked for; it always
    fits the buffer. *)
Lemma format_number_hex (P : platform) (flags v : Z) :
  supported P = true -> 0 <= v < word_modulus P ->
  has_flag flags HEX = true ->
  exists ds,
    format_number P flags v
    = Some ((if has_flag flags ALT && negb (v =? 0)
             then [48; if has_flag flags UPPER then 88 else 120]
             else []) ++ ds) /\
    hex_value ds = v /\
    (1 <= List.length ds <= 16)%nat /\
    forallb (is_hex_digit (has_flag flags UPPER)) ds = true.
Proof.
  intros HP Hv Hhex. unfold format_number. rewrite Hhex.
  assert (Hk : exists k, (1 <= k <= 16)%nat /\ (k + 2 <= number_maxlen P)%nat /\
                         v < 16 ^ Z.of_nat k).
  { destruct (number_maxlen_cases P HP) as [[-> Hw] | [-> Hw]]; rewrite Hw in Hv.
    - exists 8%nat. repeat split; lia.
    - exists 16%nat. repeat split; lia. }
  destruct Hk as (k & Hk & Hroom & Hvk).
  set (flags' := if v =? 0 then Z.ldiff flags ALT else flags).
  assert (Hup : has_flag flags' UPPER = has_flag flags UPPER).
  { unfold flags'. destruct (v =? 0); [ apply has_flag_ldiff_ALT_UPPER | reflexivity ]. }
  assert (Halt : has_flag flags' ALT = has_flag flags ALT && negb (v =? 0)).
  { unfold flags'. destruct (v =? 0).
    - rewrite has_flag_ldiff_same. now rewrite andb_false_r.
    - now rewrite andb_true_r. }
  destruct (hex_digits_spec k (number_maxlen P) flags' v []) as
    (ds & Hds & Hval & Hlen & Hall); [ lia | lia | ].
  rewrite Hds, app_nil_r, Halt, Hup. exists ds. rewrite Hup in Hall.
  split; [ | repeat split; try assumption; lia ].
  destruct (has_flag flags ALT && negb (v =? 0)); [ | reflexivity ].
  destruct (number_maxlen P - List.length ds)%nat as [|[|r]] eqn:E;
    try lia. reflexivity.
Qed.

(** The flags the parser of [veprintf] can set before the conversion
    character is looked at. *)
Lemma parse_flags_bits (fmt : list Z) (f : Z) :
  has_flag PADSP f = false -> has_flag PLUS f = false ->
  has_flag ALT f = false ->
  forall flags, has_flag flags f = false ->
                has_flag (fst (parse_flags fmt flags)) f = false.
Proof.
  intros H1 H2 H3. induction fmt as [|c fmt IH]; intros flags Hf;
    [ exact Hf | ].
  cbn [parse_flags].
  repeat match goal with
         | |- context [if ?b then _ else _] => destruct b
         end; try exact Hf; apply IH; rewrite has_flag_lor, Hf;
    cbn [orb]; assumption.
Qed.

Lemma parse_length_bits (fmt : list Z) (flags f : Z) :
  has_flag ISLONG f = false -> has_flag ISSIZE f = false ->
  has_flag ISDIFF f = false -> has_flag flags f = false ->
  has_flag (fst (parse_length fmt flags)) f = false.
Proof.
  intros H1 H2 H3 Hf. destruct fmt as [|c fmt]; [ exact Hf | ].
  cbn [parse_length].
  repeat match goal with
         | |- context [if ?b then _ else _] => destruct b
         end; cbn [fst]; try exact Hf; rewrite has_flag_lor, Hf;
    cbn [orb]; assumption.
Qed.

Lemma parsed_flags_bits (fmt : list Z) (f : Z) :
  f = HEX \/ f = UPPER \/ f = NEGATIVE ->
  has_flag
    (fst (parse_length (snd (parse_flags fmt 0)) (fst (parse_flags fmt 0))))
    f = false.
Proof.
  intros [-> | [-> | ->]]; apply parse_length_bits; try reflexivity;
    apply parse_flags_bits; reflexivity.
Qed.

Lemma signed_decimal_value_digits (ds : list Z) :
  forallb is_decimal_digit ds = true ->
  signed_decimal_value ds = decimal_value ds.
Proof.
  destruct ds as [|c ds]; [ reflexivity | ]. cbn [forallb].
  intro H. apply andb_prop in H as [H _]. unfold is_decimal_digit in H.
  apply andb_prop in H as [H1 H2].
  apply Z.leb_le in H1. apply Z.leb_le in H2.
  assert (Hc : c = 48 \/ c = 49 \/ c = 50 \/ c = 51 \/ c = 52 \/
               c = 53 \/ c = 54 \/ c = 55 \/ c = 56 \/ c = 57) by lia.
  repeat (destruct Hc as [-> | Hc]; [ reflexivity | ]). now subst c.
Qed.

Lemma sign_text_value (flags : Z) (ds : list Z) :
  forallb is_decimal_digit ds = true ->
  signed_decimal_value (sign_text flags ++ ds)
  = if has_flag flags NEGATIVE then - decimal_value ds else decimal_value ds.
Proof.
  intro H. unfold sign_text.
  destruct (has_flag flags NEGATIVE); [ reflexivity | ].
  destruct (has_flag flags PLUS); [ reflexivity | ].
  destruct (has_flag flags PADSP); [ reflexivity | ].
  now apply signed_decimal_value_digits.
Qed.

Lemma va_arg_integer_inv (lo hi v u : Z) (rest rest' : list va) :
  va_arg_integer lo hi (va_integer v :: rest) = Some (u, rest') ->
  u = v /\ rest' = rest /\ lo <= v < hi.
Proof.
  cbn [va_arg_integer].
  destruct ((lo <=? v) && (v <? hi)) eqn:E; [ | discriminate ].
  intro H. injection H as <- <-. apply andb_prop in E as [E1 E2].
  apply Z.leb_le in E1. apply Z.ltb_lt in E2. auto.
Qed.

(** X6: a [%d] or [%u] conversion, with any flags and length
    modifier the format can give it, consumes one argument and prints
    a minus sign when the argument is negative ([LONG_MIN] too), else a
    plus sign when the [+] flag is given, else a space when the blank
    flag is given, and then decimal digits only, at least one, whose
    value is the absolute value of the argument. *)
Theorem decimal_conversion_reads_back (P : platform) (fmt : list Z)
    (c v u flags' : Z) (rest rest' : list va) :
  supported P = true -> c = 100 \/ c = 117 ->
  let flags :=
    fst (parse_length (snd (parse_flags fmt 0)) (fst (parse_flags fmt 0))) in
  integer_argument P c flags (va_integer v :: rest) = Some (u, flags', rest') ->
  rest' = rest /\
  exists ds,
    format_number P flags' u
    = Some ((if v <? 0 then [45]
             else if has_flag flags PLUS then [43]
             else if has_flag flags PADSP then [32]
             else []) ++ ds) /\
    ds <> [] /\
    forallb is_decimal_digit ds = true /\
    decimal_value ds = Z.abs v /\
    signed_decimal_value
      ((if v <? 0 then [45]
        else if has_flag flags PLUS then [43]
        else if has_flag flags PADSP then [32]
        else []) ++ ds) = v.
Proof.
  intros HP Hc flags.
  assert (Hhex : has_flag flags HEX = false)
    by (apply parsed_flags_bits; auto).
  assert (Hneg : has_flag flags NEGATIVE = false)
    by (apply parsed_flags_bits; auto).
  assert (Hw := word_modulus_pos P HP).
  assert (Heven : word_modulus P = 2 * (word_modulus P / 2) /\
                  2 ^ 31 <= word_modulus P / 2).
  { destruct (word_modulus_cases P HP) as [-> | ->]; split;
      reflexivity || (vm_compute; discriminate). }
  destruct Heven as [Heven Hhalf].
  assert (Hpos : forall ds,
             0 <= v ->
             format_number P flags v = Some (sign_text flags ++ ds) ->
             decimal_value ds = v ->
             (1 <= List.length ds <= 20)%nat ->
             forallb is_decimal_digit ds = true ->
             exists ds,
               format_number P flags v
               = Some ((if v <? 0 then [45]
                        else if has_flag flags PLUS then [43]
                        else if has_flag flags PADSP then [32]
                        else []) ++ ds) /\
               ds <> [] /\
               forallb is_decimal_digit ds = true /\
               decimal_value ds = Z.abs v /\
               signed_decimal_value
                 ((if v <? 0 then [45]
                   else if has_flag flags PLUS then [43]
                   else if has_flag flags PADSP then [32]
                   else []) ++ ds) = v).
  { intros ds Hv Hf Hval Hlen Hall. exists ds.
    assert (Ev : (v <? 0) = false) by (apply Z.ltb_ge; exact Hv).
    rewrite Ev.
    assert (Hsign : sign_text flags
                    = if has_flag flags PLUS then [43]
                      else if has_flag flags PADSP then [32] else [])
      by (unfold sign_text; now rewrite Hneg).
    rewrite <- Hsign. split; [ exact Hf | ].
    split; [ intros ->; cbn [List.length] in Hlen; lia | ].
    split; [ exact Hall | ]. split; [ rewrite Z.abs_eq; assumption | ].
    rewrite sign_text_value by assumption. now rewrite Hneg. }
  unfold integer_argument. destruct Hc as [-> | ->].
  - change (100 =? 100) with true. cbv iota.
    match goal with
    | |- match ?x with _ => _ end = _ -> _ =>
        destruct x as [[lval args'] | ] eqn:Ea; [ | discriminate ]
    end.
    assert (Hl : lval = v /\ args' = rest /\
                 - (word_modulus P / 2) <= v < word_modulus P / 2).
    { repeat match type of Ea with
             | (if ?b then _ else _) = _ => destruct b
             end; apply va_arg_integer_inv in Ea; intuition lia. }
    destruct Hl as (-> & -> & Hr).
    destruct (v <? 0) eqn:Ev; intro H; injection H as <- <- <-;
      (split; [ reflexivity | ]).
    + apply Z.ltb_lt in Ev.
      assert (Hu : to_word P (- to_word P v) = - v).
      { unfold to_word, wrap.
        rewrite <- (Z.mod_add v 1 (word_modulus P)) by lia.
        rewrite (Z.mod_small (v + 1 * word_modulus P)) by lia.
        replace (- (v + 1 * word_modulus P))
          with (- v + (-1) * word_modulus P) by lia.
        rewrite Z.mod_add by lia. apply Z.mod_small. lia. }
      rewrite Hu.
      destruct (format_number_decimal P (Z.lor flags NEGATIVE) (- v) HP)
        as (ds & Hf & Hval & Hlen & Hall); [ lia | | ].
      { now rewrite has_flag_lor, Hhex. }
      assert (Hsign : sign_text (Z.lor flags NEGATIVE) = [45]).
      { unfold sign_text. rewrite has_flag_lor.
        replace (has_flag NEGATIVE NEGATIVE) with true by reflexivity.
        now rewrite orb_true_r. }
      rewrite Hsign in Hf. exists ds.
      split; [ exact Hf | ].
      split; [ intros ->; cbn [List.length] in Hlen; lia | ].
      split; [ exact Hall | ]. split; [ lia | ].
      cbn [app signed_decimal_value]. lia.
    + apply Z.ltb_ge in Ev.
      destruct (format_number_decimal P flags v HP)
        as (ds & Hf & Hval & Hlen & Hall); [ lia | exact Hhex | ].
      pose proof (Hpos ds Ev Hf Hval Hlen Hall) as Hp.
      replace (v <? 0) with false in Hp by (symmetry; now apply Z.ltb_ge).
      exact Hp.
  - change (117 =? 100) with false. change (117 =? 112) with false.
    change (117 =? 88) with false. change (117 =? 120) with false.
    cbv iota. cbn [orb]. cbv zeta.
    match goal with
    | |- match ?x with _ => _ end = _ -> _ =>
        destruct x as [[ulval args'] | ] eqn:Ea; [ | discriminate ]
    end.
    assert (Hl : ulval = v /\ args' = rest /\ 0 <= v < word_modulus P).
    { repeat match type of Ea with
             | (if ?b then _ else _) = _ => destruct b
             end; apply va_arg_integer_inv in Ea; intuition lia. }
    destruct Hl as (-> & -> & Hr).
    intro H. injection H as <- <- <-. split; [ reflexivity | ].
    destruct (format_number_decimal P flags v HP)
      as (ds & Hf & Hval & Hlen & Hall); [ lia | exact Hhex | ].
    apply (Hpos ds); try assumption. lia.
Qed.

(** X7: a [%x] or [%X] conversion prints hexadecimal digits of
    the case asked for that read back as the argument, after ["0x"] or
    ["0X"] exactly when the [#] flag is given and the argument is not
    0. *)
Theorem hex_conversion_reads_back (P : platform) (fmt : list Z)
    (c v u flags' : Z) (rest rest' : list va) :
  supported P = true -> c = 120 \/ c = 88 ->
  let flags :=
    fst (parse_length (snd (parse_flags fmt 0)) (fst (parse_flags fmt 0))) in
  integer_argument P c flags (va_integer v :: rest) = Some (u, flags', rest') ->
  rest' = rest /\
  exists ds,
    format_number P flags' u
    = Some ((if has_flag flags ALT && negb (v =? 0) then [48; c] else [])
            ++ ds) /\
    hex_value ds = v /\
    forallb (is_hex_digit (c =? 88)) ds = true.
Proof.
  intros HP Hc flags.
  assert (Hup : has_flag flags UPPER = false)
    by (apply parsed_flags_bits; auto).
  unfold integer_argument.
  assert (Hcc : (c =? 100) = false /\ (c =? 112) = false /\
                ((c =? 88) || (c =? 120)) = true).
  { destruct Hc as [-> | ->]; repeat split. }
  destruct Hcc as (-> & -> & ->). cbv zeta.
  set (flags1 := Z.lor (if c =? 88 then Z.lor flags UPPER else flags) HEX).
  assert (H1 : has_flag flags1 HEX = true).
  { unfold flags1. rewrite has_flag_lor. apply orb_true_r. }
  assert (H2 : has_flag flags1 UPPER = (c =? 88)).
  { unfold flags1. rewrite has_flag_lor.
    replace (has_flag HEX UPPER) with false by reflexivity.
    rewrite orb_false_r. destruct (c =? 88); [ | exact Hup ].
    rewrite has_flag_lor. apply orb_true_r. }
  assert (H3 : has_flag flags1 ALT = has_flag flags ALT).
  { unfold flags1. rewrite has_flag_lor.
    replace (has_flag HEX ALT) with false by reflexivity.
    rewrite orb_false_r. destruct (c =? 88); [ | reflexivity ].
    rewrite has_flag_lor. replace (has_flag UPPER ALT) with false
      by reflexivity. apply orb_false_r. }
  match goal with
  | |- match ?x with _ => _ end = _ -> _ =>
      destruct x as [[ulval args'] | ] eqn:Ea; [ | discriminate ]
  end.
  assert (Hl : ulval = v /\ args' = rest /\ 0 <= v < word_modulus P).
  { repeat match type of Ea with
           | (if ?b then _ else _) = _ => destruct b
           end; apply va_arg_integer_inv in Ea;
      assert (2 ^ 32 <= word_modulus P)
        by (destruct (word_modulus_cases P HP) as [-> | ->];
            vm_compute; discriminate);
      intuition lia. }
  destruct Hl as (-> & -> & Hr).
  intro H. injection H as <- <- <-. split; [ reflexivity | ].
  destruct (format_number_hex P flags1 v HP Hr H1)
    as (ds & Hf & Hval & _ & Hall).
  exists ds. rewrite Hf, H2, H3. rewrite H2 in Hall.
  repeat split; try assumption. do 2 f_equal.
  destruct (has_flag flags ALT && negb (v =? 0)); [ | reflexivity ].
  destruct Hc as [-> | ->]; reflexivity.
Qed.
Lemma decimal_conversion_reads_back_witness :
  [] = @nil va /\
  exists ds,
    format_number lp64 PLUS 42 = Some ([43] ++ ds) /\
    ds <> [] /\
    forallb is_decimal_digit ds = true /\
    decimal_value ds = 42 /\
    signed_decimal_value ([43] ++ ds) = 42.
Proof.
  apply (decimal_conversion_reads_back lp64 (bytes_of_string "+d") 100 42
           42 PLUS [] []).
  - reflexivity.
  - left. reflexivity.
  - vm_compute. reflexivity.
Defined.

Lemma hex_conversion_reads_back_witness :
  [] = @nil va /\
  exists ds,
    format_number lp64 (Z.lor (Z.lor ALT ISSIZE) HEX) 65536
    = Some ((if has_flag
                  (fst (parse_length (snd (parse_flags (bytes_of_string "#zx") 0))
                          (fst (parse_flags (bytes_of_string "#zx") 0)))) ALT
                && negb (65536 =? 0) then [48; 120] else []) ++ ds) /\
    hex_value ds = 65536 /\
    forallb (is_hex_digit (120 =? 88)) ds = true.
Proof.
  apply (hex_conversion_reads_back lp64 (bytes_of_string "#zx") 120 65536
           65536 (Z.lor (Z.lor ALT ISSIZE) HEX) [] []).
  - reflexivity.
  - left. reflexivity.
  - vm_compute. reflexivity.
Defined.

End NumberFacts.

(** *** [veprintf]: a conversion inside a message *)

Section ConversionFacts.
Import CTypes Eprintf Veprintf.

(** X8: the buffer of [2 + (sizeof(unsigned long) * 8 + 2) / 3]
    bytes is large enough for every value of an [unsigned long] and for
    every combination of flags: the digits, the sign and the ["0x"] are
    never stored in front of it, and the text is not empty. *)
Theorem format_number_fits (P : platform) (flags v : Z) :
  supported P = true -> 0 <= v < word_modulus P ->
  exists c text, format_number P flags v = Some (c :: text).
Proof.
  intros HP Hv. destruct (has_flag flags HEX) eqn:Hhex.
  - destruct (format_number_hex P flags v HP Hv Hhex) as (ds & -> & _ & Hlen & _).
    destruct ds as [|d ds]; [ cbn [List.length] in Hlen; lia | ].
    destruct (has_flag flags ALT && negb (v =? 0)); cbn [app]; eauto.
  - destruct (format_number_decimal P flags v HP Hv Hhex)
      as (ds & -> & _ & Hlen & _).
    destruct ds as [|d ds]; [ cbn [List.length] in Hlen; lia | ].
    unfold sign_text.
    destruct (has_flag flags NEGATIVE); [ cbn [app]; eauto | ].
    destruct (has_flag flags PLUS); [ cbn [app]; eauto | ].
    destruct (has_flag flags PADSP); cbn [app]; eauto.
Qed.

Lemma format_number_fits_witness :
  exists c text, format_number ilp32 (Z.lor HEX ALT) 4294967295 = Some (c :: text).
Proof.
  apply (format_number_fits ilp32 (Z.lor HEX ALT) 4294967295).
  - reflexivity.
  - vm_compute. split; [ discriminate | reflexivity ].
Defined.

(** From [fixed] over a literal text and a [%u] or [%zu] conversion. *)
Lemma fixed_unsigned (P : platform) (alloca_addr : Z) (fuel : nat)
    (l1 m l2 : list Z) (v : Z) (rest : list va) (iov : list (list Z)) :
  supported P = true ->
  Forall (fun c => c <> 0 /\ c <> 37) l1 ->
  (m = [] /\ 0 <= v < 2 ^ 32) \/ (m = [122] /\ 0 <= v < word_modulus P) ->
  (List.length iov + 1 < NIOV_MAX)%nat ->
  exists ds,
    fixed P alloca_addr (S fuel) [] (l1 ++ 37 :: m ++ 117 :: l2)
      (va_integer v :: rest) iov
    = while_top (fixed P alloca_addr fuel []) l2 rest
        ((iov ++ match l1 with
                 | [] => []
                 | _ :: _ => [l1]
                 end) ++ [ds]) /\
    decimal_value ds = v /\ forallb is_decimal_digit ds = true.
Proof.
  intros HP Hlit Hm Hlen.
  assert (Hv : 0 <= v < word_modulus P).
  { destruct Hm as [[_ Hv] | [_ Hv]]; [ | exact Hv ].
    destruct (word_modulus_cases P HP) as [-> | ->]; lia. }
  assert (Hfmt : has_flag 0 HEX = false) by reflexivity.
  destruct (format_number_decimal P 0 v HP Hv Hfmt)
    as (ds & Hds & Hval & _ & Hall).
  assert (Hfz : has_flag ISSIZE HEX = false) by reflexivity.
  destruct (format_number_decimal P ISSIZE v HP Hv Hfz)
    as (dz & Hdz & Hvalz & _ & Hallz).
  change (sign_text 0) with (@nil Z) in Hds.
  change (sign_text ISSIZE) with (@nil Z) in Hdz.
  cbn [app] in Hds, Hdz.
  set (iov1 := iov ++ match l1 with
                      | [] => []
                      | _ :: _ => [l1]
                      end).
  assert (Hlen1 : (List.length iov1 < NIOV_MAX)%nat).
  { unfold iov1. rewrite length_app. destruct l1; cbn [List.length]; lia. }
  assert (Hstep :
    fixed P alloca_addr (S fuel) [] (l1 ++ 37 :: m ++ 117 :: l2)
      (va_integer v :: rest) iov
    = match integer_argument P 117
              (fst (parse_length (m ++ 117 :: l2) 0)) (va_integer v :: rest) with
      | None => undefined bad_va_arg
      | Some (ulval, flags, args) =>
          match format_number P flags ulval with
          | None => undefined number_overflow
          | Some text =>
              match push_iov text iov1 with
              | inl f => undefined f
              | inr iov => while_top (fixed P alloca_addr fuel []) l2 args iov
              end
          end
      end).
  { cbn [fixed]. rewrite (literal_run_percent l1 (m ++ 117 :: l2) Hlit).
    cbn [app]. unfold iov1.
    destruct Hm as [[-> _] | [-> _]]; cbn [app];
    (destruct l1 as [|c l1];
     [ rewrite app_nil_r
     | rewrite push_iov_ok by lia;
       replace (List.length (iov ++ [c :: l1]) <? NIOV_MAX)%nat with true
         by (symmetry; apply Nat.ltb_lt; rewrite length_app;
             cbn [List.length]; lia) ]);
    cbn [hd tl parse_flags parse_length parse_precision fst];
    change (37 =? 0) with false; cbv iota; cbn [hd tl];
    reflexivity. }
  rewrite Hstep.
  destruct Hm as [[-> Hr] | [-> Hr]].
  - exists ds. cbn [app parse_length fst].
    change (117 =? 108) with false. change (117 =? 122) with false.
    change (117 =? 116) with false. cbv iota. cbn [fst].
    unfold integer_argument. change (117 =? 100) with false.
    change (117 =? 112) with false. change (117 =? 88) with false.
    change (117 =? 120) with false. cbv iota. cbn [orb]. cbv zeta iota.
    change (has_flag 0 ISSIZE) with false. change (has_flag 0 ISLONG) with false.
    cbv iota. unfold va_arg_integer.
    replace ((0 <=? v) && (v <? 2 ^ 32)) with true
      by (symmetry; apply andb_true_iff; split;
          [ apply Z.leb_le | apply Z.ltb_lt ]; lia).
    rewrite Hds, push_iov_ok by exact Hlen1. repeat split; assumption.
  - exists dz. cbn [app parse_length fst].
    change (122 =? 108) with false. change (122 =? 122) with true.
    cbv iota. cbn [fst]. change (Z.lor 0 ISSIZE) with ISSIZE.
    unfold integer_argument. change (117 =? 100) with false.
    change (117 =? 112) with false. change (117 =? 88) with false.
    change (117 =? 120) with false. cbv iota. cbn [orb]. cbv zeta iota.
    change (has_flag ISSIZE ISSIZE) with true.
    cbv iota. unfold va_arg_integer.
    replace ((0 <=? v) && (v <? word_modulus P)) with true
      by (symmetry; apply andb_true_iff; split;
          [ apply Z.leb_le | apply Z.ltb_lt ]; lia).
    rewrite Hdz, push_iov_ok by exact Hlen1. repeat split; assumption.
Qed.

(** X5: a [%u] or [%zu] conversion inside a message: the line
    has the text before it, the decimal digits of the argument, whose
    value is the argument, and the text after it, each in a segment of
    its own. *)
Theorem veprintf_unsigned_conversion (P : platform) (name : list Z)
    (alloca_addr : Z) (tag : option (list Z)) (l1 m l2 : list Z) (v : Z)
    (rest : list va) :
  supported P = true ->
  Forall (fun c => c <> 0 /\ c <> 37) l1 ->
  Forall (fun c => c <> 0 /\ c <> 37) l2 ->
  (m = [] /\ 0 <= v < 2 ^ 32) \/ (m = [122] /\ 0 <= v < word_modulus P) ->
  exists ds,
    veprintf P name alloca_addr tag (l1 ++ 37 :: m ++ 117 :: l2)
      (va_integer v :: rest)
    = wrote (([name; bytes_of_string " (simpleprof.so): "] ++
              match tag with
              | Some t => [t; bytes_of_string ": "]
              | None => []
              end) ++
             match l1 with
             | [] => []
             | _ :: _ => [l1]
             end ++ [ds] ++
             match l2 with
             | [] => []
             | _ :: _ => [l2]
             end ++ [[10]]) /\
    decimal_value ds = v /\ forallb is_decimal_digit ds = true.
Proof.
  intros HP H1 H2 Hm. unfold veprintf, while_top at 1.
  assert (Hlen : (List.length
                    ([name; bytes_of_string (" (" ++ CANON_NAME ++ "): ")] ++
                     match tag with
                     | Some t => [t; bytes_of_string ": "]
                     | None => []
                     end) + 3 < NIOV_MAX)%nat)
    by (destruct tag; cbn [app List.length]; unfold NIOV_MAX; lia).
  set (iov0 := [name; bytes_of_string (" (" ++ CANON_NAME ++ "): ")] ++
               match tag with
               | Some t => [t; bytes_of_string ": "]
               | None => []
               end) in *.
  change ([name; bytes_of_string " (simpleprof.so): "] ++
          match tag with
          | Some t => [t; bytes_of_string ": "]
          | None => []
          end) with iov0.
  replace (List.length iov0 <? NIOV_MAX)%nat with true
    by (symmetry; apply Nat.ltb_lt; lia).
  assert (Hhd : (hd 0 (l1 ++ 37 :: m ++ 117 :: l2) =? 0) = false).
  { destruct l1 as [|c l1]; [ reflexivity | ].
    inversion H1 as [|? ? [Hc _] _]; subst. cbn [hd app].
    now apply Z.eqb_neq. }
  rewrite Hhd.
  assert (Hfuel : exists n, List.length (l1 ++ 37 :: m ++ 117 :: l2) = S n /\
                            (List.length l2 <= n)%nat).
  { rewrite length_app. cbn [List.length]. rewrite length_app.
    cbn [List.length]. eexists. rewrite !Nat.add_succ_r.
    split; [ reflexivity | lia ]. }
  destruct Hfuel as (n & -> & Hn).
  destruct (fixed_unsigned P alloca_addr (S n) l1 m l2 v rest iov0 HP H1 Hm)
    as (ds & -> & Hval & Hall); [ lia | ].
  exists ds. split; [ | split; assumption ].
  set (iov2 := (iov0 ++ match l1 with
                        | [] => []
                        | _ :: _ => [l1]
                        end) ++ [ds]).
  assert (Hlen2 : (List.length iov2 + 1 < NIOV_MAX)%nat).
  { unfold iov2. rewrite !length_app. destruct l1; cbn [List.length]; lia. }
  assert (Hout : iov0 ++ match l1 with
                         | [] => []
                         | _ :: _ => [l1]
                         end ++ [ds] ++
                         match l2 with
                         | [] => []
                         | _ :: _ => [l2]
                         end ++ [[10]]
                 = iov2 ++ match l2 with
                           | [] => []
                           | _ :: _ => [l2]
                           end ++ [[10]]).
  { unfold iov2. now rewrite <- !app_assoc. }
  rewrite Hout. unfold while_top.
  destruct l2 as [|c l2].
  - cbn [hd]. change (0 =? 0) with true. cbv iota. unfold finish.
    replace (List.length iov2 <? NIOV_MAX)%nat with true
      by (symmetry; apply Nat.ltb_lt; lia).
    reflexivity.
  - inversion H2 as [|? ? [Hc _] _]; subst. cbn [hd].
    apply Z.eqb_neq in Hc. rewrite Hc.
    replace (List.length iov2 <? NIOV_MAX)%nat with true
      by (symmetry; apply Nat.ltb_lt; lia).
    rewrite fixed_literal_end by (assumption || lia). reflexivity.
Qed.

Lemma veprintf_unsigned_conversion_witness :
  exists ds,
    veprintf lp64 (bytes_of_string "prog") 4096 (Some (bytes_of_string "error"))
      (bytes_of_string "profile file size mismatch (shall be " ++
       37 :: [122] ++ 117 :: bytes_of_string " bytes)")
      [va_integer 8212]
    = wrote (([bytes_of_string "prog"; bytes_of_string " (simpleprof.so): "] ++
              [bytes_of_string "error"; bytes_of_string ": "]) ++
             [bytes_of_string "profile file size mismatch (shall be "] ++
             [ds] ++ [bytes_of_string " bytes)"] ++ [[10]]) /\
    decimal_value ds = 8212 /\ forallb is_decimal_digit ds = true.
Proof.
  apply (veprintf_unsigned_conversion lp64 (bytes_of_string "prog") 4096
           (Some (bytes_of_string "error"))
           (bytes_of_string "profile file size mismatch (shall be ")
           [122] (bytes_of_string " bytes)") 8212 []).
  - reflexivity.
  - repeat constructor; discriminate.
  - repeat constructor; discriminate.
  - right. split; [ reflexivity | ]. vm_compute. split; [ discriminate | reflexivity ].
Defined.
End ConversionFacts.

(** *** [veprintf]: the string conversions *)

Section StringFacts.
Import CTypes Eprintf Veprintf.

Lemma strchr_ctrl_printable (c : Z) (p : nat) :
  c <> 0 ->
  strchr ctrl_literal c = Some p ->
  32 <= nth (p + sizeof_CTRL1) ctrl_literal 0 <= 126.
Proof.
  intro Hc. unfold ctrl_literal, CTRL1, CTRL2. cbn [app strchr].
  destruct (0 =? c) eqn:E0; [ apply Z.eqb_eq in E0; congruence | ].
  repeat match goal with
         | |- context [?a =? c] => destruct (a =? c)
         end;
    cbn [Z.eqb option_map]; intro H; try discriminate;
    injection H as <-; cbn; lia.
Qed.

Lemma escape_char_printable (dst c next maxlen n : Z) :
  0 <= c < 256 ->
  Forall (fun st => 32 <= st_val st <= 126)
    (snd (escape_char dst c next maxlen n)).
Proof.
  intro Hc.
  assert (H6 : 0 <= Z.shiftr c 6 <= 3).
  { rewrite Z.shiftr_div_pow2 by lia. change (2 ^ 6) with 64.
    split; [ apply Z.div_pos; lia | ].
    apply Z.lt_succ_r. apply Z.div_lt_upper_bound; lia. }
  assert (H3 : 0 <= Z.land (Z.shiftr c 3) 7 <= 7).
  { change (Z.land (Z.shiftr c 3) 7) with (Z.land (Z.shiftr c 3) (Z.ones 3)).
    rewrite Z.land_ones by lia. change (2 ^ 3) with 8.
    pose proof (Z.mod_pos_bound (Z.shiftr c 3) 8). lia. }
  assert (H0 : 0 <= Z.land c 7 <= 7).
  { change (Z.land c 7) with (Z.land c (Z.ones 3)).
    rewrite Z.land_ones by lia. change (2 ^ 3) with 8.
    pose proof (Z.mod_pos_bound c 8). lia. }
  cbv beta zeta delta [escape_char guarded_store].
  destruct (dst =? 0).
  - repeat match goal with
           | |- context [match ?x with Some _ => _ | None => _ end] =>
               destruct x
           | |- context [if ?x then _ else _] => destruct x
           end; cbn [snd app]; constructor.
  - destruct (if c =? 0 then None else strchr ctrl_literal c) as [p | ] eqn:Ep.
    + cbn [snd]. assert (Hs : strchr ctrl_literal c = Some p)
        by (destruct (c =? 0); [ discriminate | exact Ep ]).
      assert (Hc0 : c <> 0)
        by (destruct (c =? 0) eqn:E0; [ discriminate | now apply Z.eqb_neq ]).
      apply strchr_ctrl_printable in Hs; [ | exact Hc0 ].
      repeat constructor; cbn [st_val]; lia.
    + destruct ((c <? 32) || (127 <=? c)) eqn:E.
      * repeat match goal with
               | |- context [if ?x then _ else _] => destruct x
               end; cbn [snd app]; repeat constructor; cbn [st_val]; lia.
      * apply orb_false_iff in E as [E1 E2].
        apply Z.ltb_ge in E1. apply Z.leb_gt in E2.
        cbn [snd]. repeat constructor; cbn [st_val]; lia.
Qed.

Lemma strvis_loop_printable (dst : Z) (binary : bool) (src : list Z) :
  Forall (fun c => 0 <= c < 256) src ->
  forall maxlen n acc e,
    Forall (fun st => 32 <= st_val st <= 126) acc ->
    strvis_loop dst binary src maxlen n acc = Some e ->
    Forall (fun st => 32 <= st_val st <= 126) (ex_stores e).
Proof.
  induction 1 as [|c src Hc Hsrc IH]; intros maxlen n acc e Hacc H.
  - discriminate.
  - cbn [strvis_loop] in H.
    destruct ((c =? 0) && negb binary).
    + now injection H as <-.
    + pose proof (escape_char_printable dst c (hd 0 src) maxlen n Hc) as Hp.
      destruct (escape_char dst c (hd 0 src) maxlen n) as [n' st].
      cbn [snd] in Hp.
      assert (Hacc' : Forall (fun st => 32 <= st_val st <= 126) (acc ++ st))
        by (apply Forall_app; split; assumption).
      destruct (maxlen - 1 =? 0).
      * now injection H as <-.
      * apply (IH _ _ _ _ Hacc' H).
Qed.

(** The loop of [my_strvis] on a C string longer than [maxlen] allows
    stops at the terminator. *)
Lemma strvis_loop_c_string (dst : Z) (s : list Z) :
  Forall (fun c => c <> 0) s ->
  forall maxlen n acc,
    Z.of_nat (List.length s) < maxlen ->
    exists e,
      strvis_loop dst false (s ++ [0]) maxlen n acc = Some e /\
      ex_src e = [0] /\ ex_maxlen e = maxlen - Z.of_nat (List.length s).
Proof.
  induction 1 as [|c s Hc Hs IH]; intros maxlen n acc Hlen.
  - cbn [app strvis_loop]. change ((0 =? 0) && negb false) with true.
    cbv iota. eexists. repeat split. cbn. lia.
  - cbn [app strvis_loop]. apply Z.eqb_neq in Hc. rewrite Hc. cbn [andb].
    destruct (escape_char dst c (hd 0 (s ++ [0])) maxlen n) as [n' st].
    cbn [List.length] in Hlen.
    destruct (maxlen - 1 =? 0) eqn:E; [ apply Z.eqb_eq in E; lia | ].
    destruct (IH (maxlen - 1) n' (acc ++ st)) as (e & He & Hsrc & Hmax);
      [ lia | ].
    exists e. repeat split; try assumption. rewrite Hmax.
    cbn [List.length]. lia.
Qed.

Lemma strnlen_c_string (s : list Z) :
  Forall (fun c => c <> 0) s ->
  forall maxlen, 0 <= maxlen ->
    strnlen (s ++ [0]) maxlen = Some (Z.min (Z.of_nat (List.length s)) maxlen).
Proof.
  induction 1 as [|c s Hc Hs IH]; intros maxlen Hm.
  - cbn [app strnlen List.length]. destruct (maxlen <=? 0) eqn:E.
    + apply Z.leb_le in E. f_equal. lia.
    + apply Z.leb_gt in E. cbn. f_equal. lia.
  - cbn [app strnlen List.length]. destruct (maxlen <=? 0) eqn:E.
    + apply Z.leb_le in E. f_equal. lia.
    + apply Z.leb_gt in E. apply Z.eqb_neq in Hc. rewrite Hc.
      rewrite IH by lia. cbn [option_map]. f_equal. lia.
Qed.

Lemma firstn_c_string (s : list Z) (n : nat) :
  (n <= List.length s)%nat -> firstn n (s ++ [0]) = firstn n s.
Proof.
  intro H. rewrite firstn_app.
  replace (n - List.length s)%nat with 0%nat by lia.
  cbn [firstn]. apply app_nil_r.
Qed.

Lemma SIZE_MAX_pos (P : platform) : supported P = true -> 0 < SIZE_MAX P.
Proof.
  intro HP. unfold SIZE_MAX.
  destruct (word_modulus_cases P HP) as [-> | ->]; lia.
Qed.

(** X9: [%s] without [#] prints the characters of the string,
    the first [prec] of them when a precision is given, and reads no
    byte behind the terminator. *)
Theorem plain_string_conversion (P : platform) (alloca_addr flags prec : Z)
    (s : list Z) :
  supported P = true ->
  has_flag flags ALT = false ->
  Forall (fun c => c <> 0) s ->
  Z.of_nat (List.length s) <= SIZE_MAX P ->
  string_segment P alloca_addr flags prec (Some (s ++ [0])) =
    inr (Some (if 0 <=? prec then firstn (Z.to_nat prec) s else s)).
Proof.
  intros HP Hf Hs Hlen. unfold string_segment. rewrite Hf.
  pose proof (SIZE_MAX_pos P HP) as Hmax.
  destruct (0 <=? prec) eqn:E.
  - apply Z.leb_le in E. rewrite (strnlen_c_string s Hs) by lia.
    do 2 f_equal. destruct (Z.le_gt_cases (Z.of_nat (List.length s)) prec).
    + rewrite Z.min_l by lia. rewrite Nat2Z.id.
      rewrite firstn_c_string by lia. rewrite firstn_all.
      symmetry. apply firstn_all2. lia.
    + rewrite Z.min_r by lia. apply firstn_c_string. lia.
  - rewrite (strnlen_c_string s Hs) by lia.
    rewrite Z.min_l by lia. rewrite Nat2Z.id.
    rewrite firstn_c_string by lia. now rewrite firstn_all.
Qed.


Lemma my_strvis_printable (dst : Z) (bytes : list Z) (binary : bool)
    (maxlen : Z) (r : strvis_result) :
  Forall (fun c => 0 <= c < 256) bytes ->
  my_strvis dst (Some bytes) binary maxlen = Some r ->
  Forall (fun st => 32 <= st_val st <= 126) (sv_stores r).
Proof.
  intros Hb. unfold my_strvis.
  assert (Hg : forall n v, 32 <= v <= 126 ->
             Forall (fun st => 32 <= st_val st <= 126) (guarded_store dst n v)).
  { intros n v Hv. unfold guarded_store. destruct (dst =? 0); repeat constructor;
      cbn [st_val]; lia. }
  assert (He : forall e,
             (if 0 <? maxlen
              then strvis_loop dst binary bytes maxlen 1 (guarded_store dst 0 34)
              else Some (mkExit bytes maxlen 1 (guarded_store dst 0 34))) = Some e ->
             Forall (fun st => 32 <= st_val st <= 126) (ex_stores e)).
  { intros e. destruct (0 <? maxlen).
    - apply strvis_loop_printable; [ exact Hb | apply Hg; lia ].
    - intro H. injection H as <-. apply Hg. lia. }
  destruct (if 0 <? maxlen
            then strvis_loop dst binary bytes maxlen 1 (guarded_store dst 0 34)
            else Some (mkExit bytes maxlen 1 (guarded_store dst 0 34)))
    as [e | ]; [ | discriminate ].
  specialize (He e eq_refl).
  destruct (binary || negb (ex_maxlen e =? 0)).
  - intro H. injection H as <-. cbn [sv_stores].
    apply Forall_app; split; [ exact He | apply Hg; lia ].
  - destruct (ex_src e) as [|c rest]; [ discriminate | ].
    destruct (c =? 0); intro H; injection H as <-; cbn [sv_stores].
    + apply Forall_app; split; [ exact He | apply Hg; lia ].
    + apply Forall_app; split; [ exact He | ].
      apply Forall_app; split; [ apply Hg; lia | ].
      repeat constructor; cbn [st_val]; lia.
Qed.

Lemma plain_string_conversion_witness :
  string_segment lp64 4096 0 3 (Some (bytes_of_string "No such file" ++ [0]))
  = inr (Some (bytes_of_string "No ")).
Proof.
  apply (plain_string_conversion lp64 4096 0 3 (bytes_of_string "No such file")).
  - reflexivity.
  - reflexivity.
  - repeat constructor; discriminate.
  - vm_compute. discriminate.
Defined.

End StringFacts.

Section UnvisFacts.
Import CTypes Eprintf Veprintf.

Lemma unvis_plain (c : Z) (t : list Z) :
  c <> 92 -> unvis (c :: t) = c :: unvis t.
Proof.
  intro H. cbn [unvis]. apply Z.eqb_neq in H. now rewrite H.
Qed.

Lemma unvis_letter (e : Z) (t : list Z) :
  is_octal_digit e = false -> unvis (92 :: e :: t) = unescape e :: unvis t.
Proof.
  intro H. cbn [unvis]. change (92 =? 92) with true. cbv iota. now rewrite H.
Qed.

Lemma unvis_octal3 (e d2 d3 : Z) (t : list Z) :
  is_octal_digit e = true -> is_octal_digit d2 = true ->
  is_octal_digit d3 = true ->
  unvis (92 :: e :: d2 :: d3 :: t) =
    (64 * (e - 48) + 8 * (d2 - 48) + (d3 - 48)) :: unvis t.
Proof.
  intros H1 H2 H3. cbn [unvis]. change (92 =? 92) with true. cbv iota.
  now rewrite H1, H2, H3.
Qed.

Lemma unvis_octal2 (e d2 : Z) (t : list Z) :
  is_octal_digit e = true -> is_octal_digit d2 = true -> starts_apart t ->
  unvis (92 :: e :: d2 :: t) = (8 * (e - 48) + (d2 - 48)) :: unvis t.
Proof.
  intros H1 H2 Ht. cbn [unvis]. change (92 =? 92) with true. cbv iota.
  rewrite H1, H2. destruct t as [|b t]; [ reflexivity | ].
  cbn [starts_apart] in Ht. now rewrite Ht.
Qed.

Lemma unvis_octal1 (e : Z) (t : list Z) :
  is_octal_digit e = true -> starts_apart t ->
  unvis (92 :: e :: t) = (e - 48) :: unvis t.
Proof.
  intros H1 Ht. cbn [unvis]. change (92 =? 92) with true. cbv iota.
  rewrite H1. destruct t as [|b t]; [ reflexivity | ].
  cbn [starts_apart] in Ht. now rewrite Ht.
Qed.

Lemma strchr_ctrl_unescape (c : Z) (p : nat) :
  c <> 0 ->
  strchr ctrl_literal c = Some p ->
  is_octal_digit (nth (p + sizeof_CTRL1) ctrl_literal 0) = false /\
  unescape (nth (p + sizeof_CTRL1) ctrl_literal 0) = c.
Proof.
  intro Hc. unfold ctrl_literal, CTRL1, CTRL2. cbn [app strchr].
  destruct (0 =? c) eqn:E0; [ apply Z.eqb_eq in E0; congruence | ].
  repeat match goal with
         | |- context [?a =? c] =>
             let E := fresh "E" in
             destruct (a =? c) eqn:E;
             [ apply Z.eqb_eq in E; subst c | clear E ]
         end;
    cbn [Z.eqb option_map]; intro H; try discriminate;
    injection H as <-; split; reflexivity.
Qed.

Lemma strchr_ctrl_none (c : Z) :
  strchr ctrl_literal c = None -> c <> 92.
Proof.
  intros H ->. discriminate H.
Qed.

Lemma octal_split (c : Z) :
  0 <= c < 256 ->
  0 <= Z.shiftr c 6 <= 3 /\ 0 <= Z.land (Z.shiftr c 3) 7 <= 7 /\
  0 <= Z.land c 7 <= 7 /\
  c = 64 * Z.shiftr c 6 + 8 * Z.land (Z.shiftr c 3) 7 + Z.land c 7.
Proof.
  intro Hc.
  change (Z.land (Z.shiftr c 3) 7) with (Z.land (Z.shiftr c 3) (Z.ones 3)).
  change (Z.land c 7) with (Z.land c (Z.ones 3)).
  rewrite !Z.land_ones by lia. rewrite !Z.shiftr_div_pow2 by lia.
  change (2 ^ 6) with 64. change (2 ^ 3) with 8.
  Z.div_mod_to_equations. lia.
Qed.

Lemma is_octal_digit_48 (d : Z) :
  0 <= d <= 7 -> is_octal_digit (48 + d) = true.
Proof.
  intro H. unfold is_octal_digit. apply andb_true_iff.
  split; apply Z.leb_le; lia.
Qed.

(** One source character reads back, when what follows its escape
    cannot be taken for one of its digits. *)
Lemma escape_char_unvis (dst c next maxlen n : Z) (tail : list Z) :
  dst <> 0 -> 0 < c < 256 ->
  (negb (maxlen =? 1) && ISOCTAL next = true) \/ starts_apart tail ->
  unvis (map st_val (snd (escape_char dst c next maxlen n)) ++ tail) =
    c :: unvis tail.
Proof.
  intros Hd Hc Ht.
  destruct (octal_split c) as (H6 & H3 & H0 & Hsum); [ lia | ].
  cbv beta zeta delta [escape_char guarded_store].
  apply Z.eqb_neq in Hd. rewrite Hd.
  destruct (c =? 0) eqn:E0; [ apply Z.eqb_eq in E0; lia | ].
  apply Z.eqb_neq in E0.
  destruct (strchr ctrl_literal c) as [p | ] eqn:Ep.
  - destruct (strchr_ctrl_unescape c p E0 Ep) as [Ho Hu].
    cbn [snd map st_val app]. rewrite unvis_letter by exact Ho.
    now rewrite Hu.
  - destruct ((c <? 32) || (127 <=? c)) eqn:E.
    + destruct (negb (maxlen =? 1) && ISOCTAL next) eqn:Ec.
      * rewrite !orb_true_r. cbn [snd map st_val app].
        rewrite unvis_octal3 by (apply is_octal_digit_48; lia).
        f_equal. lia.
      * destruct Ht as [Ht | Ht]; [ discriminate | ].
        rewrite !orb_false_r.
        destruct (64 <=? c) eqn:E64.
        -- apply Z.leb_le in E64.
           assert (E8 : (8 <=? c) = true) by (apply Z.leb_le; lia).
           rewrite E8. cbn [snd map st_val app].
           rewrite unvis_octal3 by (apply is_octal_digit_48; lia).
           f_equal. lia.
        -- apply Z.leb_gt in E64.
           assert (Hz : Z.shiftr c 6 = 0).
           { rewrite Z.shiftr_div_pow2 by lia. apply Z.div_small. lia. }
           destruct (8 <=? c) eqn:E8.
           ++ cbn [snd map st_val app].
              rewrite unvis_octal2
                by (try apply is_octal_digit_48; try lia; exact Ht).
              f_equal. lia.
           ++ apply Z.leb_gt in E8.
              assert (Hz3 : Z.land (Z.shiftr c 3) 7 = 0).
              { assert (Hs : Z.shiftr c 3 = 0).
                { rewrite Z.shiftr_div_pow2 by lia. apply Z.div_small. lia. }
                now rewrite Hs. }
              cbn [snd map st_val app].
              rewrite unvis_octal1
                by (try apply is_octal_digit_48; try lia; exact Ht).
              f_equal. lia.
    + cbn [snd map st_val app]. apply unvis_plain.
      now apply strchr_ctrl_none.
Qed.

(** An escape starts with a backslash or with the character itself. *)
Lemma escape_char_starts (dst c next maxlen n : Z) :
  dst <> 0 -> 56 <= c ->
  exists b rest,
    map st_val (snd (escape_char dst c next maxlen n)) = b :: rest /\
    is_octal_digit b = false.
Proof.
  intros Hd Hc.
  cbv beta zeta delta [escape_char guarded_store].
  apply Z.eqb_neq in Hd. rewrite Hd.
  destruct (if c =? 0 then None else strchr ctrl_literal c) as [p | ].
  - cbn [snd map st_val]. eexists _, _. split; reflexivity.
  - destruct ((c <? 32) || (127 <=? c)).
    + repeat match goal with
             | |- context [if ?x then _ else _] => destruct x
             end; cbn [snd map st_val app]; eexists _, _; split; reflexivity.
    + cbn [snd map st_val]. eexists _, _. split; [ reflexivity | ].
      unfold is_octal_digit. apply andb_false_iff. right.
      apply Z.leb_gt. lia.
Qed.


Lemma ISOCTAL_false (c : Z) : ISOCTAL c = false -> 56 <= c.
Proof.
  unfold ISOCTAL. intro H. apply Z.ltb_ge in H. lia.
Qed.

(** The loop on a C string the limit does not cut: it stops with [src]
    at the terminator, and what it stored reads back as the string. *)
Lemma strvis_loop_unvis (dst : Z) (s : list Z) :
  dst <> 0 ->
  Forall (fun c => 0 < c < 256) s ->
  forall maxlen n acc,
    0 < maxlen -> Z.of_nat (List.length s) <= maxlen ->
    exists e st,
      strvis_loop dst false (s ++ [0]) maxlen n acc = Some e /\
      ex_stores e = acc ++ st /\
      ex_src e = [0] /\
      unvis (map st_val st) = s /\
      (56 <= hd 0 (s ++ [0]) -> starts_apart (map st_val st)).
Proof.
  intro Hd. induction 1 as [|c s Hc Hs IH]; intros maxlen n acc Hm Hlen.
  - cbn [app strvis_loop]. change ((0 =? 0) && negb false) with true.
    cbv iota. exists (mkExit [0] maxlen n acc), [].
    cbn [ex_stores ex_src map]. rewrite app_nil_r.
    repeat split; reflexivity.
  - cbn [app strvis_loop].
    assert (E0 : (c =? 0) = false) by (apply Z.eqb_neq; lia).
    rewrite E0. cbn [andb].
    pose proof (escape_char_unvis dst c (hd 0 (s ++ [0])) maxlen n) as Hu.
    pose proof (escape_char_starts dst c (hd 0 (s ++ [0])) maxlen n Hd) as Hb.
    destruct (escape_char dst c (hd 0 (s ++ [0])) maxlen n) as [n' stc].
    cbn [snd] in Hu, Hb. cbn [List.length] in Hlen.
    destruct (maxlen - 1 =? 0) eqn:E.
    + apply Z.eqb_eq in E.
      assert (s = []) by (destruct s; [ reflexivity | cbn [List.length] in Hlen; lia ]).
      subst s. exists (mkExit ([] ++ [0]) (maxlen - 1) n' (acc ++ stc)), stc.
      cbn [ex_stores ex_src app]. repeat split.
      * specialize (Hu [] Hd Hc (or_intror I)).
        rewrite app_nil_r in Hu. exact Hu.
      * cbn [hd]. intro H56. destruct (Hb H56) as (b & rest & -> & Hbo).
        exact Hbo.
    + apply Z.eqb_neq in E.
      destruct (IH (maxlen - 1) n' (acc ++ stc)) as (e & st & He & Hst & Hsrc & Hun & Hap);
        [ lia | lia | ].
      exists e, (stc ++ st). repeat split.
      * exact He.
      * rewrite Hst. now rewrite app_assoc.
      * exact Hsrc.
      * rewrite map_app. rewrite Hu; [ now rewrite Hun | exact Hd | exact Hc | ].
        destruct (ISOCTAL (hd 0 (s ++ [0]))) eqn:Eo.
        -- left. assert (E1 : (maxlen =? 1) = false) by (apply Z.eqb_neq; lia).
           now rewrite E1.
        -- right. apply Hap. now apply ISOCTAL_false.
      * cbn [hd]. intro H56. destruct (Hb H56) as (b & rest & Hbr & Hbo).
        rewrite map_app, Hbr. exact Hbo.
Qed.

Lemma my_strvis_c_string (dst maxlen : Z) (s : list Z) :
  dst <> 0 ->
  Forall (fun c => 0 < c < 256) s ->
  Z.of_nat (List.length s) <= maxlen ->
  exists r body,
    my_strvis dst (Some (s ++ [0])) false maxlen = Some r /\
    map st_val (sv_stores r) = [34] ++ body ++ [34] /\
    unvis body = s.
Proof.
  intros Hd Hs Hlen. unfold my_strvis.
  rewrite (guarded_store_writes dst 0 34 Hd).
  destruct (0 <? maxlen) eqn:Em.
  - apply Z.ltb_lt in Em.
    destruct (strvis_loop_unvis dst s Hd Hs maxlen 1 [mkStore (dst + 0) 34] Em Hlen)
      as (e & st & He & Hst & Hsrc & Hun & _).
    rewrite He. rewrite (guarded_store_writes dst (ex_n e) 34 Hd).
    cbn [orb]. rewrite Hsrc, Hst. change (0 =? 0) with true. cbv iota.
    destruct (negb (ex_maxlen e =? 0));
      eexists _, (map st_val st); (split; [ reflexivity | ]);
      (split; [ | exact Hun ]);
      cbn [sv_stores]; rewrite !map_app; reflexivity.
  - apply Z.ltb_ge in Em.
    assert (s = []) by (destruct s; [ reflexivity | cbn [List.length] in Hlen; lia ]).
    subst s. cbn [ex_n ex_maxlen ex_src ex_stores app orb].
    rewrite (guarded_store_writes dst 1 34 Hd).
    change (0 =? 0) with true.
    destruct (negb (maxlen =? 0));
      eexists _, []; (split; [ reflexivity | ]); split; reflexivity.
Qed.

Lemma my_strvis_c_string_sizing (maxlen : Z) (s : list Z) :
  Forall (fun c => 0 < c < 256) s ->
  Z.of_nat (List.length s) <= maxlen ->
  exists r,
    my_strvis 0 (Some (s ++ [0])) false maxlen = Some r /\ sv_stores r = [].
Proof.
  intros Hs Hlen.
  destruct (my_strvis_c_string 1 maxlen s ltac:(lia) Hs Hlen)
    as (r1 & body & Hr1 & _).
  pose proof (my_strvis_ret_any_dst 1 (Some (s ++ [0])) false maxlen) as Hret.
  rewrite Hr1 in Hret.
  destruct (my_strvis 0 (Some (s ++ [0])) false maxlen) as [r | ] eqn:Hr;
    [ | discriminate ].
  exists r. split; [ reflexivity | ].
  destruct (my_strvis_sizing_stores _ _ _ _ Hr) as [H | [_ H]]; [ exact H | ].
  exfalso. revert Hr. unfold my_strvis. cbn [guarded_store Z.eqb].
  change (guarded_store 0 0 34) with (@nil store).
  destruct (0 <? maxlen) eqn:Em.
  - apply Z.ltb_lt in Em.
    destruct (strvis_loop_unvis 1 s ltac:(lia) Hs maxlen 1 [] Em Hlen)
      as (e1 & st & He1 & _ & Hsrc1 & _).
    pose proof (strvis_loop_count 1 false (s ++ [0]) maxlen 1 [] []) as Hc.
    rewrite He1 in Hc.
    destruct (strvis_loop 0 false (s ++ [0]) maxlen 1 []) as [e | ] eqn:He;
      [ | discriminate ].
    pose proof (strvis_loop_sizing _ _ _ _ _ He) as Hst0.
    cbn [option_map] in Hc. injection Hc as Hc1 Hc2 Hc3.
    cbn [orb]. rewrite <- Hc1, Hsrc1. change (0 =? 0) with true. cbv iota.
    rewrite Hst0.
    destruct (negb (ex_maxlen e =? 0)); intro Hx; injection Hx as <-;
      cbn [sv_stores app] in H; discriminate H.
  - assert (s = []) by (destruct s; [ reflexivity | apply Z.ltb_ge in Em; cbn [List.length] in Hlen; lia ]).
    subst s. cbn [ex_n ex_maxlen ex_src ex_stores app orb].
    change (0 =? 0) with true.
    destruct (negb (maxlen =? 0)); intro Hx; injection Hx as <-;
      cbn [sv_stores app] in H; discriminate H.
Qed.


(** X10: [%#s] of a string the precision does not cut: the
    sizing call stores nothing, the writing call fills exactly the
    bytes [alloca] gave, and the segment is a double quote, printable
    characters only, and a double quote; read as the inside of a C
    string literal, the characters between the quotes are the string
    (a short octal escape is never followed by an octal digit). *)
Theorem escaped_string_reads_back (P : platform)
    (alloca_addr flags prec : Z) (s : list Z) :
  supported P = true ->
  has_flag flags ALT = true ->
  alloca_addr <> 0 ->
  Forall (fun c => 0 < c < 256) s ->
  Z.of_nat (List.length s) <= (if 0 <=? prec then prec else SIZE_MAX P) ->
  exists body,
    string_segment P alloca_addr flags prec (Some (s ++ [0])) =
      inr (Some ([34] ++ body ++ [34])) /\
    Forall (fun c => 32 <= c <= 126) body /\
    unvis body = s.
Proof.
  intros HP Hf Ha Hs Hlen. unfold string_segment. rewrite Hf.
  set (maxlen := if 0 <=? prec then prec else SIZE_MAX P) in *.
  destruct (my_strvis_c_string_sizing maxlen s Hs Hlen) as (r0 & Hr0 & Hst0).
  destruct (my_strvis_c_string alloca_addr maxlen s Ha Hs Hlen)
    as (r & body & Hr & Hvals & Hun).
  rewrite Hr0, Hst0, Hr.
  pose proof (my_strvis_writing_covers _ _ _ _ _ Ha Hr) as Hcov.
  pose proof (my_strvis_ret_any_dst alloca_addr (Some (s ++ [0])) false maxlen)
    as Hret.
  rewrite Hr, Hr0 in Hret. injection Hret as Hret. rewrite <- Hret.
  destruct (list_eq_dec Z.eq_dec (map st_addr (sv_stores r))
              (addr_range alloca_addr (Z.to_nat (sv_ret r)))) as [_ | Hne];
    [ | contradiction ].
  exists body. rewrite Hvals. split; [ reflexivity | ]. split; [ | exact Hun ].
  assert (Hb : Forall (fun c => 0 <= c < 256) (s ++ [0])).
  { apply Forall_app. split.
    - eapply Forall_impl; [ | exact Hs ]. cbv beta. intros; lia.
    - repeat constructor; lia. }
  pose proof (my_strvis_printable _ _ _ _ _ Hb Hr) as Hp.
  assert (Hp' : Forall (fun c => 32 <= c <= 126) (map st_val (sv_stores r))).
  { apply Forall_map. exact Hp. }
  rewrite Hvals in Hp'. apply Forall_app in Hp' as [_ Hp'].
  apply Forall_app in Hp' as [Hp' _]. exact Hp'.
Qed.

Lemma escaped_string_reads_back_witness :
  exists body,
    string_segment lp64 4096 ALT (-1)
      (Some (bytes_of_string "/tmp/a b.profile" ++ [0])) =
      inr (Some ([34] ++ body ++ [34])) /\
    Forall (fun c => 32 <= c <= 126) body /\
    unvis body = bytes_of_string "/tmp/a b.profile".
Proof.
  apply (escaped_string_reads_back lp64 4096 ALT (-1)
           (bytes_of_string "/tmp/a b.profile")).
  - reflexivity.
  - reflexivity.
  - discriminate.
  - repeat constructor.
  - vm_compute. discriminate.
Defined.


(** The loop on a C string longer than the limit stops with the limit
    used up and [src] at a character of the string. *)
Lemma strvis_loop_cut (dst : Z) (s : list Z) :
  Forall (fun c => c <> 0) s ->
  forall maxlen n acc,
    0 < maxlen < Z.of_nat (List.length s) ->
    exists e c rest,
      strvis_loop dst false (s ++ [0]) maxlen n acc = Some e /\
      ex_maxlen e = 0 /\ ex_src e = c :: rest /\ c <> 0.
Proof.
  induction 1 as [|c s Hc Hs IH]; intros maxlen n acc Hm.
  - cbn [List.length] in Hm. lia.
  - cbn [app strvis_loop]. apply Z.eqb_neq in Hc. rewrite Hc. cbn [andb].
    destruct (escape_char dst c (hd 0 (s ++ [0])) maxlen n) as [n' st].
    cbn [List.length] in Hm.
    destruct (maxlen - 1 =? 0) eqn:E.
    + apply Z.eqb_eq in E. destruct Hs as [|c' s' Hc' Hs'].
      * cbn [List.length] in Hm. lia.
      * eexists _, c', (s' ++ [0]). split; [ reflexivity | ].
        cbn [ex_maxlen ex_src app]. repeat split; assumption.
    + apply Z.eqb_neq in E.
      apply (IH (maxlen - 1) n' (acc ++ st)). lia.
Qed.

(** X11: [%#s] with a precision smaller than the length of the
    string: the sizing call, whose destination is the null pointer,
    stores the three dots of the ellipsis, so the conversion has
    undefined behaviour for every such string. *)
Theorem cut_escaped_string_stores_through_null (P : platform)
    (alloca_addr flags prec : Z) (s : list Z) :
  has_flag flags ALT = true ->
  Forall (fun c => c <> 0) s ->
  0 <= prec < Z.of_nat (List.length s) ->
  string_segment P alloca_addr flags prec (Some (s ++ [0])) = inl null_store.
Proof.
  intros Hf Hs Hp. unfold string_segment. rewrite Hf.
  assert (E : (0 <=? prec) = true) by (apply Z.leb_le; lia). rewrite E.
  unfold my_strvis at 1. change (guarded_store 0 0 34) with (@nil store).
  destruct (0 <? prec) eqn:Em.
  - apply Z.ltb_lt in Em.
    destruct (strvis_loop_cut 0 s Hs prec 1 [] ltac:(lia))
      as (e & c & rest & He & Hmax & Hsrc & Hc).
    rewrite He. rewrite Hmax, Hsrc. cbn [orb negb Z.eqb].
    apply Z.eqb_neq in Hc. rewrite Hc. cbn [sv_stores].
    destruct (ex_stores e ++ guarded_store 0 (ex_n e) 34 ++ _) eqn:Ed;
      [ | reflexivity ].
    apply app_eq_nil in Ed as [_ Ed]. apply app_eq_nil in Ed as [_ Ed].
    discriminate Ed.
  - apply Z.ltb_ge in Em. assert (prec = 0) by lia. subst prec.
    destruct Hs as [|c s Hc Hs]; [ cbn [List.length] in Hp; lia | ].
    cbn [ex_n ex_maxlen ex_src ex_stores app orb negb Z.eqb].
    apply Z.eqb_neq in Hc. rewrite Hc. reflexivity.
Qed.

Lemma cut_escaped_string_stores_through_null_witness :
  string_segment lp64 4096 ALT 1 (Some (bytes_of_string "ab" ++ [0])) =
    inl null_store.
Proof.
  apply (cut_escaped_string_stores_through_null lp64 4096 ALT 1
           (bytes_of_string "ab")).
  - reflexivity.
  - repeat constructor; discriminate.
  - cbn. lia.
Defined.

End UnvisFacts.

(** *** [la_preinit]: what a run reports, plans and stores *)

Section RunFacts.
Import CTypes Gmon Proc Select Locate Sizer Bootstrap Fnbuf.

Ltac unfold_store_stage :=
  unfold store_and_activate, bind, sys_open, sys_fstat, sys_posix_fallocate,
    sys_mmap, sys_close, sys_munmap, map_memcpy, map_memcmp, sys_profil,
    DPRINTF, EPRINTF, emit, ret, return_;
  cbn [fst snd file open_fds mappings sampling trace].

Ltac split_branches :=
  repeat (match goal with
          | |- context [if ?c then _ else _] => destruct c eqn:?
          end;
          cbn [fst snd file open_fds mappings sampling trace negb]).

Ltac not_in_trace :=
  let H := fresh "H" in
  intros ? H; rewrite <- ?app_assoc in H; cbn [app] in H;
  apply in_app_or in H; destruct H as [H | H];
  [ eauto
  | cbn [In] in H;
    repeat (destruct H as [H | H]; [ discriminate H | ]); contradiction ].

(** What [prepare] adds to the trace: error lines only when it
    returns, debug lines only when debugging is on. *)
Lemma prepare_lines fnmatch P pr w :
  let run := prepare fnmatch P pr w in
  (forall pl, fst run = Next pl ->
     forall m, In (ev_eprintf "error" m) (trace (snd run)) ->
               In (ev_eprintf "error" m) (trace w)) /\
  (debug_enabled pr = false ->
     forall m, In (ev_eprintf "debug" m) (trace (snd run)) ->
               In (ev_eprintf "debug" m) (trace w)).
Proof.
  unfold prepare.
  unfold bind, DPRINTF, EPRINTF, emit, ret, return_, undefined.
  destruct (debug_enabled pr); cbn [fst snd];
  destruct (match_program_name fnmatch pr); cbn [fst snd];
  try (destruct (locate_segment P pr) as [[] | seg]; cbn [fst snd]);
  try (destruct (scale_override P (getenv pr (ENV_PREFIX ++ "SCALE")))
         as [s_scale | ]; cbn [fst snd]);
  try (destruct (buffer_sizes P (memsz seg) s_scale) as [sz | ];
       cbn [fst snd]);
  cbn [file open_fds mappings sampling trace];
  (split; [ intros pl Hpl; try discriminate Hpl | intro Hd; try discriminate Hd ]);
  try (intros m Hin; exact Hin);
  try not_in_trace.
Qed.

(** What the store stage adds to the trace. *)
Lemma store_lines P pr k pl w :
  let run := store_and_activate P pr k pl w in
  (fst run = Next tt ->
     forall m, In (ev_eprintf "error" m) (trace (snd run)) ->
               In (ev_eprintf "error" m) (trace w)) /\
  (pl_debug pl = false ->
     forall m, In (ev_eprintf "debug" m) (trace (snd run)) ->
               In (ev_eprintf "debug" m) (trace w)) /\
  (fst run <> Next tt -> sampling (snd run) = sampling w).
Proof.
  unfold_store_stage. destruct (pl_debug pl); split_branches.
  all: (split; [ intro Hn; try discriminate Hn
               | split; [ intro Hd; try discriminate Hd
                        | intro Hx; try reflexivity;
                          try (exfalso; apply Hx; reflexivity) ] ]).
  all: try not_in_trace.
  all: exfalso;
    match goal with
    | H : negb true = true |- _ => discriminate H
    | H : negb false = false |- _ => discriminate H
    end.
Qed.

(** X12: sampling is active when [la_preinit] is over exactly
    when it ran to its end, and then it has printed no error line: a
    run that reports an error never leaves the sampler on. *)
Theorem sampling_only_without_error
    (fnmatch : string -> string -> Z -> bool) (P : platform) (pr : process)
    (k : kernel) (file0 : list Z) :
  let run := la_preinit fnmatch P pr k (initial_world file0) in
  (fst run = Next tt <-> sampling (snd run) <> None) /\
  (fst run = Next tt ->
   forall m, ~ In (ev_eprintf "error" m) (trace (snd run))).
Proof.
  intro run. subst run. rewrite la_preinit_unfold.
  pose proof (prepare_quiet fnmatch P pr (initial_world file0)) as Hq.
  pose proof (prepare_lines fnmatch P pr (initial_world file0)) as Hl.
  cbv zeta in Hq, Hl.
  destruct (prepare fnmatch P pr (initial_world file0)) as [[pl | | ] w1].
  all: cbn [fst snd initial_world file open_fds mappings sampling trace] in Hq, Hl.
  all: destruct Hq as (_ & Hfds & Hmaps & Hsamp & _).
  all: destruct Hl as (Herr & _).
  2, 3: cbn [fst snd]; rewrite Hsamp; split;
    [ split; [ discriminate | intro H; now contradiction H ] | discriminate ].
  pose proof (store_resources P pr k pl w1 Hfds Hmaps) as Hres.
  pose proof (store_lines P pr k pl w1) as Hs.
  cbv zeta in Hres, Hs.
  destruct (store_and_activate P pr k pl w1) as [r w2].
  cbn [fst snd] in *.
  destruct Hres as (_ & Hact & _). destruct Hs as (Hse & _ & Hoff).
  split; [ split | ].
  - intro Hr. destruct (Hact Hr) as [_ ->]. discriminate.
  - intro Hon. destruct r as [[] | | ]; [ reflexivity | | ];
      (exfalso; apply Hon; rewrite Hoff by discriminate; exact Hsamp).
  - intros Hr m Hin. apply (Hse Hr) in Hin.
    apply (Herr pl eq_refl) in Hin. exact Hin.
Qed.

(** X13: without [SP_DEBUG], or with an empty one, [la_preinit]
    prints no debug line, whatever the kernel answers. *)
Theorem debug_lines_need_SP_DEBUG
    (fnmatch : string -> string -> Z -> bool) (P : platform) (pr : process)
    (k : kernel) (file0 : list Z) :
  debug_enabled pr = false ->
  forall m,
    ~ In (ev_eprintf "debug" m)
        (trace (snd (la_preinit fnmatch P pr k (initial_world file0)))).
Proof.
  intros Hd m. rewrite la_preinit_unfold.
  pose proof (prepare_quiet fnmatch P pr (initial_world file0)) as Hq.
  pose proof (prepare_lines fnmatch P pr (initial_world file0)) as Hl.
  cbv zeta in Hq, Hl.
  destruct (prepare fnmatch P pr (initial_world file0)) as [[pl | | ] w1].
  all: cbn [fst snd initial_world file open_fds mappings sampling trace] in Hq, Hl.
  all: destruct Hl as (_ & Hdbg).
  2, 3: cbn [snd]; intro Hin; exact (Hdbg Hd m Hin).
  destruct Hq as (_ & _ & _ & _ & _ & Hpl).
  destruct (Hpl pl eq_refl) as (Hpd & _).
  pose proof (store_lines P pr k pl w1) as Hs. cbv zeta in Hs.
  destruct Hs as (_ & Hsd & _).
  intro Hin. apply Hsd in Hin; [ | congruence ].
  exact (Hdbg Hd m Hin).
Qed.

Lemma debug_lines_need_SP_DEBUG_witness :
  ~ In (ev_eprintf "debug" msg_entering)
      (trace (snd (la_preinit fnmatch_literal lp64 Runs.pie_process
                     Runs.kind_kernel (initial_world [])))).
Proof.
  apply (debug_lines_need_SP_DEBUG fnmatch_literal lp64 Runs.pie_process
           Runs.kind_kernel [] eq_refl msg_entering).
Defined.

Ltac error_line :=
  eexists; rewrite <- ?app_assoc; cbn [app]; apply in_or_app; right;
  cbn [In]; auto 12.

(** Where [prepare] returns without a word. *)
Lemma prepare_returned fnmatch P pr w :
  fst (prepare fnmatch P pr w) = Returned ->
  (exists m, In (ev_eprintf "error" m) (trace (snd (prepare fnmatch P pr w)))) \/
  match_program_name fnmatch pr = sel_null \/
  locate_segment P pr = inl bad_phnum.
Proof.
  unfold prepare.
  unfold bind, DPRINTF, EPRINTF, emit, ret, return_, undefined.
  destruct (debug_enabled pr); cbn [fst snd];
  destruct (match_program_name fnmatch pr); cbn [fst snd];
  try (destruct (locate_segment P pr) as [[] | seg]; cbn [fst snd]);
  try (destruct (scale_override P (getenv pr (ENV_PREFIX ++ "SCALE")))
         as [s_scale | ]; cbn [fst snd]);
  try (destruct (buffer_sizes P (memsz seg) s_scale) as [sz | ];
       cbn [fst snd]);
  cbn [file open_fds mappings sampling trace];
  intro H; try discriminate H; auto;
  left; error_line.
Qed.

Lemma store_returned P pr k pl w :
  fst (store_and_activate P pr k pl w) = Returned ->
  exists m, In (ev_eprintf "error" m)
              (trace (snd (store_and_activate P pr k pl w))).
Proof.
  unfold_store_stage. destruct (pl_debug pl); split_branches.
  all: intro H; try discriminate H.
  all: error_line.
Qed.

(** X14: [la_preinit] gives up without an error line only when
    [SP_PROFILE] does not select the program or [AT_PHNUM] is 0 or does
    not fit [unsigned int], and then it has not opened the profile
    file; every other return is reported. *)
Theorem silent_return_causes
    (fnmatch : string -> string -> Z -> bool) (P : platform) (pr : process)
    (k : kernel) (file0 : list Z) :
  let run := la_preinit fnmatch P pr k (initial_world file0) in
  fst run = Returned ->
  (exists m, In (ev_eprintf "error" m) (trace (snd run))) \/
  ((match_program_name fnmatch pr = sel_null \/
    locate_segment P pr = inl bad_phnum) /\
   forall path fd, ~ In (ev_open path fd) (trace (snd run))).
Proof.
  intro run. subst run. rewrite la_preinit_unfold.
  pose proof (prepare_returned fnmatch P pr (initial_world file0)) as Hp.
  pose proof (prepare_quiet fnmatch P pr (initial_world file0)) as Hq.
  cbv zeta in Hq.
  destruct (prepare fnmatch P pr (initial_world file0)) as [[pl | | ] w1].
  all: cbn [fst snd initial_world trace] in Hp, Hq |- *.
  - intro Hr. left. apply (store_returned P pr k pl w1 Hr).
  - intros _. destruct (Hp eq_refl) as [He | Hs]; [ now left | right ].
    split; [ exact Hs | ].
    destruct Hq as (_ & _ & _ & _ & (evs & Htr & Hev) & _).
    rewrite Htr. cbn [app]. intros path fd Hin.
    eapply not_in_eprintf; [ exact Hev | | exact Hin ]. discriminate.
  - discriminate.
Qed.

Lemma silent_return_causes_witness :
  (exists m,
     In (ev_eprintf "error" m)
        (trace (snd (la_preinit fnmatch_literal lp64 Runs.pie_process
                       Runs.kind_kernel (initial_world [7]))))) \/
  ((match_program_name fnmatch_literal Runs.pie_process = sel_null \/
    locate_segment lp64 Runs.pie_process = inl bad_phnum) /\
   forall path fd,
     ~ In (ev_open path fd)
         (trace (snd (la_preinit fnmatch_literal lp64 Runs.pie_process
                        Runs.kind_kernel (initial_world [7]))))).
Proof.
  apply (silent_return_causes fnmatch_literal lp64 Runs.pie_process
           Runs.kind_kernel [7]).
  reflexivity.
Defined.

Lemma length_append (a b : string) :
  String.length (a ++ b) = (String.length a + String.length b)%nat.
Proof.
  induction a as [|c a IH]; [ reflexivity | ].
  cbn [append String.length]. now rewrite IH.
Qed.

Lemma ends_with_slash_append (o : string) :
  ends_with_slash (o ++ "/") = true.
Proof.
  induction o as [|c o IH]; [ reflexivity | ].
  cbn [append]. destruct o as [|c' o]; [ reflexivity | ].
  cbn [append] in IH |- *. cbn [ends_with_slash]. exact IH.
Qed.

(** X18: the array [fnbuf] is large enough for the file name and
    its terminator; the name is a directory part, which is the value of
    [SP_PROFILE_OUTPUT] or that value and a slash and which is empty or
    ends with a slash, then the program name and [".profile"]. *)
Theorem fnbuf_holds_profile_path (outputenv progname : string) :
  Z.of_nat (String.length (profile_path outputenv progname)) + 1
    <= fnbuf_size outputenv progname /\
  exists dir,
    profile_path outputenv progname = (dir ++ progname ++ ".profile")%string /\
    (dir = outputenv \/ dir = (outputenv ++ "/")%string) /\
    (dir = EmptyString \/ ends_with_slash dir = true).
Proof.
  unfold profile_path, fnbuf_size, sizeof_profile_suffix.
  destruct (nonempty outputenv && negb (ends_with_slash outputenv)) eqn:E.
  - split.
    + rewrite !length_append. cbn [String.length]. lia.
    + exists (outputenv ++ "/")%string. repeat split.
      * clear E. induction outputenv as [|c o IH]; [ reflexivity | ].
        cbn [append]. f_equal. exact IH.
      * now right.
      * right. apply ends_with_slash_append.
  - split.
    + rewrite !length_append. cbn [String.length]. lia.
    + exists outputenv. repeat split.
      * now left.
      * apply andb_false_iff in E as [E | E].
        -- left. destruct outputenv; [ reflexivity | discriminate E ].
        -- right. now apply negb_false_iff in E.
Qed.

Lemma scale_override_bounds (P : platform) (env : option string) (s : Z) :
  scale_override P env = Some s -> 1 <= s <= 131072.
Proof.
  destruct env as [e | ].
  - rewrite scale_override_some.
    change (SCALE_1_TO_1 * sizeof_ushort) with 131072.
    destruct (sscanf_u_c P e) as [ | v | v ]; try discriminate.
    destruct ((1 <=? v) && (v <=? 131072)) eqn:E; [ | discriminate ].
    apply andb_true_iff in E as [E1 E2].
    apply Z.leb_le in E1, E2. intro H. injection H as <-.
    split.
    + apply Z.div_le_lower_bound; lia.
    + apply Z.div_le_upper_bound; lia.
  - cbn [scale_override]. intro H. injection H as <-. vm_compute.
    split; discriminate.
Qed.

Lemma bins_within (half s : Z) :
  0 <= half -> 1 <= s <= 131072 ->
  0 <= half * s / 65536 /\
  1 <= 65536 * 2 / s /\
  (half * s / 65536) * (65536 * 2 / s) <= 2 * half.
Proof.
  intros Hh Hs.
  assert (Hn : 0 <= half * s / 65536) by (apply Z.div_pos; nia).
  assert (Hn' : 65536 * (half * s / 65536) <= half * s)
    by (apply Z.mul_div_le; lia).
  assert (Hb : 1 <= 65536 * 2 / s) by (apply Z.div_le_lower_bound; lia).
  assert (Hb' : s * (65536 * 2 / s) <= 65536 * 2)
    by (apply Z.mul_div_le; lia).
  repeat split; try assumption.
  set (n := half * s / 65536) in *. set (b := 65536 * 2 / s) in *.
  assert (H1 : 65536 * n * (s * b) <= half * s * (65536 * 2)).
  { apply Z.mul_le_mono_nonneg; nia. }
  assert (H2 : (65536 * s) * (n * b) <= (65536 * s) * (2 * half)) by nia.
  apply Z.mul_le_mono_pos_l in H2; [ exact H2 | nia ].
Qed.

(** X15: what [la_preinit] hands to [make_gmon_header] and
    [profil]: the scale is between 1 and 131072, so that the width of a
    bin, [65536 * 2 / scale], is defined and at least 1; the bins of
    the histogram do not reach beyond the segment, rounded up to an
    even size; the buffer has two bytes for each bin and the file has
    the header and the buffer. *)
Theorem planned_histogram_within_segment
    (fnmatch : string -> string -> Z -> bool) (P : platform) (pr : process)
    (w w1 : world) (pl : plan) :
  supported P = true ->
  prepare fnmatch P pr w = (Next pl, w1) ->
  0 <= memsz (pl_segment pl) < SIZE_MAX P ->
  1 <= pl_s_scale pl <= 131072 /\
  1 <= bin_width (pl_s_scale pl) /\
  0 <= nsamples (pl_sizes pl) /\
  nsamples (pl_sizes pl) * bin_width (pl_s_scale pl)
    <= memsz (pl_segment pl) + 1 /\
  bufsiz (pl_sizes pl) = 2 * nsamples (pl_sizes pl) /\
  mapsiz (pl_sizes pl) = HEADER_SIZE P + bufsiz (pl_sizes pl).
Proof.
  intros HP Hprep Hm.
  pose proof (prepare_quiet fnmatch P pr w) as Hq. cbv zeta in Hq.
  rewrite Hprep in Hq. cbn [fst snd] in Hq.
  destruct Hq as (_ & _ & _ & _ & _ & Hpl).
  destruct (Hpl pl eq_refl) as (_ & _ & Hs & Hb).
  apply scale_override_bounds in Hs.
  rewrite buffer_sizes_exact in Hb by (assumption || lia).
  cbv zeta in Hb.
  assert (Hh : 0 <= (memsz (pl_segment pl) + 1) / 2)
    by (apply Z.div_pos; lia).
  destruct (bins_within _ _ Hh Hs) as (Hn & Hw & Hle).
  assert (H2 : 2 * ((memsz (pl_segment pl) + 1) / 2)
               <= memsz (pl_segment pl) + 1)
    by (apply Z.mul_div_le; lia).
  match type of Hb with
  | (if ?c then _ else _) = _ => destruct c; [ | discriminate ]
  end.
  injection Hb as <-. cbn [nsamples bufsiz mapsiz]. unfold bin_width.
  change sizeof_ushort with 2. repeat split; lia.
Qed.

Lemma planned_histogram_within_segment_witness :
  1 <= 32768 <= 131072 /\
  1 <= bin_width 32768 /\
  0 <= 4 /\
  4 * bin_width 32768 <= 16 + 1 /\
  8 = 2 * 4 /\
  112 = HEADER_SIZE lp64 + 8.
Proof.
  apply (planned_histogram_within_segment fnmatch_literal lp64
           Runs.pie_process (initial_world []) (initial_world [])
           (mkPlan false "prog"
              (mkSegment 93824992231424 93824992235520 16) 32768
              (mkSizes 4 8 112) "/var/tmp/prog.profile")).
  - reflexivity.
  - reflexivity.
  - vm_compute. split; [ discriminate | reflexivity ].
Defined.

(** The sizes that pass the overflow tests. *)
Lemma buffer_sizes_shape (P : platform) (memsz s_scale : Z) (sz : sizes) :
  supported P = true ->
  buffer_sizes P memsz s_scale = Some sz ->
  0 <= nsamples sz < word_modulus P /\
  bufsiz sz = nsamples sz * sizeof_ushort /\
  mapsiz sz = bufsiz sz + HEADER_SIZE P.
Proof.
  intros HP. unfold buffer_sizes, builtin_mul_overflow, builtin_add_overflow.
  pose proof (word_modulus_pos P HP) as Hw.
  repeat match goal with
         | |- context [if ?c then _ else _] => destruct c
         end; try discriminate.
  intro H. injection H as <-. cbn [nsamples bufsiz mapsiz].
  repeat split; try reflexivity; unfold to_word, wrap;
    apply Z.mod_pos_bound; exact Hw.
Qed.

Lemma HEADER_SIZE_pos (P : platform) : supported P = true -> 0 < HEADER_SIZE P.
Proof.
  intro HP. destruct (supported_cases P HP) as [-> | [-> | [-> | ->]]];
    reflexivity.
Qed.

Lemma skipn_repeat_zeros (n m : nat) :
  skipn n (repeat 0 m) = repeat 0 (m - n).
Proof.
  revert m. induction n as [|n IH]; intro m.
  - now rewrite Nat.sub_0_r.
  - destruct m as [|m]; [ reflexivity | ]. cbn [repeat skipn]. apply IH.
Qed.

(** The store stage on a file that [open] has just created. *)
Lemma store_fresh_file P pr k pl w :
  supported P = true ->
  0 <= open_result k -> fstat_result k = 0 ->
  posix_fallocate_result k = 0 -> mmap_result k <> MAP_FAILED ->
  profil_result k = 0 ->
  file w = [] ->
  HEADER_SIZE P <= mapsiz (pl_sizes pl) ->
  let run := store_and_activate P pr k pl w in
  fst run = Next tt /\
  file (snd run)
  = built_header P pr pl ++
    repeat 0 (Z.to_nat (mapsiz (pl_sizes pl) - HEADER_SIZE P)) /\
  sampling (snd run)
  = Some (mmap_result k + HEADER_SIZE P, bufsiz (pl_sizes pl),
          lowpc (pl_segment pl), pl_s_scale pl).
Proof.
  intros HP Hopen Hfstat Hfalloc Hmmap Hprofil Hfile Hsize run. subst run.
  assert (Hok : (open_result k <? 0) || negb (fstat_result k =? 0) = false).
  { rewrite Hfstat. cbn. rewrite orb_false_r. apply Z.ltb_ge. exact Hopen. }
  apply Z.eqb_neq in Hmmap.
  unfold_store_stage. rewrite Hok, Hfile. cbn [List.length Z.of_nat Z.eqb].
  cbn [fst snd file open_fds mappings sampling trace negb].
  rewrite Hfalloc. cbn [Z.eqb negb].
  cbn [fst snd file open_fds mappings sampling trace negb].
  rewrite Hmmap.
  cbn [fst snd file open_fds mappings sampling trace negb].
  rewrite Hprofil. cbn [Z.eqb negb].
  destruct (pl_debug pl);
    cbn [fst snd file open_fds mappings sampling trace negb];
    (split; [ reflexivity | split; [ | reflexivity ] ]);
    cbn [app]; rewrite Nat.sub_0_r, skipn_repeat_zeros, built_header_length by exact HP;
    do 2 f_equal; pose proof (HEADER_SIZE_pos P HP); lia.
Qed.

(** The store stage on a file that holds the built header and has the
    size of the mapping. *)
Lemma store_matching_file P pr k pl w (bins : list Z) :
  supported P = true ->
  0 <= open_result k -> fstat_result k = 0 ->
  mmap_result k <> MAP_FAILED -> profil_result k = 0 ->
  file w = built_header P pr pl ++ bins ->
  Z.of_nat (List.length bins) = mapsiz (pl_sizes pl) - HEADER_SIZE P ->
  let run := store_and_activate P pr k pl w in
  fst run = Next tt /\
  file (snd run) = file w /\
  sampling (snd run)
  = Some (mmap_result k + HEADER_SIZE P, bufsiz (pl_sizes pl),
          lowpc (pl_segment pl), pl_s_scale pl).
Proof.
  intros HP Hopen Hfstat Hmmap Hprofil Hfile Hbins run. subst run.
  assert (Hok : (open_result k <? 0) || negb (fstat_result k =? 0) = false).
  { rewrite Hfstat. cbn. rewrite orb_false_r. apply Z.ltb_ge. exact Hopen. }
  apply Z.eqb_neq in Hmmap.
  pose proof (HEADER_SIZE_pos P HP) as Hpos.
  pose proof (built_header_length P pr pl HP) as Hhl.
  assert (Hlen : Z.of_nat (List.length (file w)) = mapsiz (pl_sizes pl)).
  { rewrite Hfile, length_app, Hhl. lia. }
  assert (Hnz : (Z.of_nat (List.length (file w)) =? 0) = false)
    by (apply Z.eqb_neq; lia).
  assert (Heq : (Z.of_nat (List.length (file w)) =? mapsiz (pl_sizes pl)) = true)
    by (apply Z.eqb_eq; exact Hlen).
  assert (Hcmp : firstn (List.length (built_header P pr pl)) (file w)
                 = built_header P pr pl).
  { rewrite Hfile, firstn_app, Nat.sub_diag, firstn_all. cbn [firstn].
    apply app_nil_r. }
  unfold_store_stage. rewrite Hok, Hnz.
  cbn [fst snd file open_fds mappings sampling trace negb].
  rewrite Heq. cbn [fst snd file open_fds mappings sampling trace negb].
  rewrite Hmmap. cbn [fst snd file open_fds mappings sampling trace negb].
  rewrite Hcmp.
  destruct (list_eq_dec Z.eq_dec (built_header P pr pl) (built_header P pr pl))
    as [_ | Hne]; [ | contradiction ].
  cbn [fst snd file open_fds mappings sampling trace negb].
  rewrite Hprofil. cbn [Z.eqb negb].
  destruct (pl_debug pl);
    cbn [fst snd file open_fds mappings sampling trace negb];
    repeat split.
Qed.

Lemma built_header_records P pr pl :
  built_header P pr pl
  = header_prefix P (frequency pr) (pl_s_scale pl) ++
    hist_hdr_bytes P
      (main_hist_hdr P (frequency pr)
         (to_word P (lowpc (pl_segment pl) - load_addr (pl_segment pl)))
         (nsamples (pl_sizes pl)) (pl_s_scale pl)).
Proof.
  unfold built_header, make_gmon_header, header_prefix.
  now rewrite <- !app_assoc.
Qed.

(** X16: the profile file a first run leaves, when every call
    succeeds: the gmon header, the dummy record where the target needs
    one, and the main histogram record, whose [hist_size] is the number
    of samples and which is followed by two zero bytes for each of its
    bins; the file has [mapsiz] bytes, and the bytes behind the
    [HEADER_SIZE] bytes of header are the buffer [profil] samples
    into. *)
Theorem fresh_profile_file_layout
    (fnmatch : string -> string -> Z -> bool) (P : platform) (pr : process)
    (k : kernel) (pl : plan) (w1 : world) :
  supported P = true ->
  prepare fnmatch P pr (initial_world []) = (Next pl, w1) ->
  0 <= open_result k -> fstat_result k = 0 ->
  posix_fallocate_result k = 0 -> mmap_result k <> MAP_FAILED ->
  profil_result k = 0 ->
  nsamples (pl_sizes pl) < 2 ^ 32 ->
  let run := la_preinit fnmatch P pr k (initial_world []) in
  let h := main_hist_hdr P (frequency pr)
             (to_word P (lowpc (pl_segment pl) - load_addr (pl_segment pl)))
             (nsamples (pl_sizes pl)) (pl_s_scale pl) in
  fst run = Next tt /\
  hist_size h = nsamples (pl_sizes pl) /\
  file (snd run)
  = header_prefix P (frequency pr) (pl_s_scale pl) ++
    hist_hdr_bytes P h ++ repeat 0 (Z.to_nat (2 * hist_size h)) /\
  Z.of_nat (List.length (file (snd run))) = mapsiz (pl_sizes pl) /\
  sampling (snd run)
  = Some (mmap_result k + HEADER_SIZE P, 2 * hist_size h,
          lowpc (pl_segment pl), pl_s_scale pl).
Proof.
  intros HP Hprep Hopen Hfstat Hfalloc Hmmap Hprofil Hn run h. subst run.
  rewrite la_preinit_unfold, Hprep.
  pose proof (prepare_quiet fnmatch P pr (initial_world [])) as Hq.
  cbv zeta in Hq. rewrite Hprep in Hq. cbn [fst snd initial_world file] in Hq.
  destruct Hq as (Hf & _ & _ & _ & _ & Hpl).
  destruct (Hpl pl eq_refl) as (_ & _ & _ & Hb).
  destruct (buffer_sizes_shape P _ _ _ HP Hb) as (Hns & Hbs & Hms).
  change sizeof_ushort with 2 in Hbs.
  pose proof (HEADER_SIZE_pos P HP) as Hpos.
  assert (Hh : hist_size h = nsamples (pl_sizes pl)).
  { unfold h. cbn [hist_size main_hist_hdr]. unfold to_u32, wrap, uint_modulus.
    apply Z.mod_small. lia. }
  destruct (store_fresh_file P pr k pl w1 HP Hopen Hfstat Hfalloc Hmmap
              Hprofil Hf) as (Hr & Hfile & Hs); [ lia | ].
  rewrite Hh. split; [ exact Hr | ]. split; [ reflexivity | ].
  split; [ | split ].
  - rewrite Hfile, built_header_records. rewrite <- app_assoc.
    do 3 f_equal. lia.
  - rewrite Hfile, length_app, repeat_length, built_header_length by exact HP.
    lia.
  - rewrite Hs.
    replace (2 * nsamples (pl_sizes pl)) with (bufsiz (pl_sizes pl)) by lia.
    reflexivity.
Qed.

Lemma fresh_profile_file_layout_witness :
  fst (la_preinit fnmatch_literal lp64 Runs.pie_process Runs.kind_kernel
         (initial_world [])) = Next tt /\
  Z.of_nat (List.length
              (file (snd (la_preinit fnmatch_literal lp64 Runs.pie_process
                            Runs.kind_kernel (initial_world []))))) = 112.
Proof.
  pose proof (fresh_profile_file_layout fnmatch_literal lp64
                Runs.pie_process Runs.kind_kernel
                (mkPlan false "prog"
                   (mkSegment 93824992231424 93824992235520 16) 32768
                   (mkSizes 4 8 112) "/var/tmp/prog.profile")
                (initial_world []) eq_refl eq_refl) as H.
  destruct H as (H1 & _ & _ & H2 & _).
  - vm_compute. discriminate.
  - reflexivity.
  - reflexivity.
  - vm_compute. discriminate.
  - reflexivity.
  - reflexivity.
  - split; assumption.
Defined.

(** X17: a profile file that starts with the header the run
    builds and has as many bytes of bins as the buffer is accepted
    whatever the bins hold: sampling is activated on the mapped file
    and the file is left as it was, so that the counts of earlier runs
    are kept. *)
Theorem matching_profile_file_is_reused
    (fnmatch : string -> string -> Z -> bool) (P : platform) (pr : process)
    (k : kernel) (pl : plan) (w1 : world) (bins : list Z) :
  supported P = true ->
  prepare fnmatch P pr (initial_world (built_header P pr pl ++ bins))
  = (Next pl, w1) ->
  0 <= open_result k -> fstat_result k = 0 ->
  mmap_result k <> MAP_FAILED -> profil_result k = 0 ->
  Z.of_nat (List.length bins) = bufsiz (pl_sizes pl) ->
  let run := la_preinit fnmatch P pr k
               (initial_world (built_header P pr pl ++ bins)) in
  fst run = Next tt /\
  file (snd run) = built_header P pr pl ++ bins /\
  sampling (snd run)
  = Some (mmap_result k + HEADER_SIZE P, bufsiz (pl_sizes pl),
          lowpc (pl_segment pl), pl_s_scale pl).
Proof.
  intros HP Hprep Hopen Hfstat Hmmap Hprofil Hbins run. subst run.
  rewrite la_preinit_unfold, Hprep.
  pose proof (prepare_quiet fnmatch P pr
                (initial_world (built_header P pr pl ++ bins))) as Hq.
  cbv zeta in Hq. rewrite Hprep in Hq.
  cbn [fst snd initial_world file trace] in Hq.
  destruct Hq as (Hf & _ & _ & _ & _ & Hpl).
  destruct (Hpl pl eq_refl) as (_ & _ & _ & Hb).
  destruct (buffer_sizes_shape P _ _ _ HP Hb) as (_ & _ & Hms).
  destruct (store_matching_file P pr k pl w1 bins HP Hopen Hfstat Hmmap
              Hprofil Hf) as (Hr & Hfile & Hs); [ lia | ].
  split; [ exact Hr | ]. split; [ now rewrite Hfile | exact Hs ].
Qed.

Lemma matching_profile_file_is_reused_witness :
  fst (la_preinit fnmatch_literal lp64 Runs.pie_process Runs.kind_kernel
         (initial_world
            (make_gmon_header lp64 100 4096 4 32768 ++ [1; 0; 0; 0; 2; 0; 0; 0])))
  = Next tt /\
  file (snd (la_preinit fnmatch_literal lp64 Runs.pie_process Runs.kind_kernel
               (initial_world
                  (make_gmon_header lp64 100 4096 4 32768 ++
                   [1; 0; 0; 0; 2; 0; 0; 0]))))
  = make_gmon_header lp64 100 4096 4 32768 ++ [1; 0; 0; 0; 2; 0; 0; 0].
Proof.
  pose proof (matching_profile_file_is_reused fnmatch_literal lp64
                Runs.pie_process Runs.kind_kernel
                (mkPlan false "prog"
                   (mkSegment 93824992231424 93824992235520 16) 32768
                   (mkSizes 4 8 112) "/var/tmp/prog.profile")
                (initial_world
                   (make_gmon_header lp64 100 4096 4 32768 ++
                    [1; 0; 0; 0; 2; 0; 0; 0]))
                [1; 0; 0; 0; 2; 0; 0; 0] eq_refl eq_refl) as H.
  destruct H as (H1 & H2 & _).
  - vm_compute. discriminate.
  - reflexivity.
  - vm_compute. discriminate.
  - reflexivity.
  - reflexivity.
  - split; assumption.
Defined.

End RunFacts.

(** *** [make_gmon_header]: the calls of [la_preinit] *)

Section CallFacts.
Import CTypes Gmon Proc Select Locate Sizer Bootstrap Calls.








End CallFacts.
